(** * webmunk-lists: list store, backend merge and pattern matcher

    A shallow embedding of [src/list-utilities.mts].  The IndexedDB object
    store is a list of records in primary-key order together with its key
    generator; every exported function of the module that the properties
    below talk about is a function on that state.  The capabilities the
    module imports from its environment ([psl], [URL], [RegExp],
    [JSON.parse], [Date.now], [String.prototype.toLowerCase]) are the fields
    of the class [Platform]. *)

From Stdlib Require Import String Ascii List ZArith NArith Lia Bool.
From Stdlib Require Import DecimalString Sorted.
Import ListNotations.

Open Scope string_scope.
Open Scope list_scope.

(** ** String primitives of the host language *)

Module JS.

(** A string is held as the UTF-8 text of the JavaScript string.  Every
    index the module computes comes from [indexOf] on the same string and
    every separator it looks for (["/"], ["://"], ["www."]) is ASCII, so
    offsets in bytes and offsets in code units select the same text.
    [toLowerCase] depends on the Unicode case tables and is a capability of
    the environment (class [Platform] below). *)

Definition bytes (l : list nat) : string :=
  string_of_list_ascii (map ascii_of_nat l).

(** The characters [String.prototype.trim] removes: WhiteSpace (TAB, VT, FF,
    ZWNBSP and the Unicode category Zs) and LineTerminator (LF, CR, LS, PS). *)
Definition whiteSpace : list string := Eval vm_compute in
  [ bytes [9]; bytes [10]; bytes [11]; bytes [12]; bytes [13]; bytes [32];
    bytes [194; 160]        (* U+00A0 *);
    bytes [225; 154; 128]   (* U+1680 *);
    bytes [226; 128; 128]   (* U+2000 *);
    bytes [226; 128; 129]; bytes [226; 128; 130]; bytes [226; 128; 131];
    bytes [226; 128; 132]; bytes [226; 128; 133]; bytes [226; 128; 134];
    bytes [226; 128; 135]; bytes [226; 128; 136]; bytes [226; 128; 137];
    bytes [226; 128; 138]   (* U+200A *);
    bytes [226; 128; 168]   (* U+2028 *);
    bytes [226; 128; 169]   (* U+2029 *);
    bytes [226; 128; 175]   (* U+202F *);
    bytes [226; 129; 159]   (* U+205F *);
    bytes [227; 128; 128]   (* U+3000 *);
    bytes [239; 187; 191]   (* U+FEFF *) ].

(** [s] without its first [length p] characters. *)
Fixpoint dropPrefix (p s : string) : string :=
  match p, s with
  | String _ p', String _ s' => dropPrefix p' s'
  | _, _ => s
  end.

(** [s] without one leading white-space character, when it has one. *)
Definition leadingSpace (s : string) : option string :=
  match find (fun tok => prefix tok s) whiteSpace with
  | Some tok => Some (dropPrefix tok s)
  | None => None
  end.

Fixpoint trimStartFuel (fuel : nat) (s : string) : string :=
  match fuel with
  | O => s
  | S fuel' =>
      match leadingSpace s with
      | Some r => trimStartFuel fuel' r
      | None => s
      end
  end.

(** Each step removes at least one byte, so the length of [s] is fuel
    enough ([trimStart_spec] below). *)
Definition trimStart (s : string) : string :=
  trimStartFuel (String.length s) s.

(** Cuts [s] at the first position from which only white space follows. *)
Fixpoint trimEnd (s : string) : string :=
  match s with
  | EmptyString => EmptyString
  | String c r => if trimStart s =? "" then EmptyString else String c (trimEnd r)
  end.

Definition trim (s : string) : string := trimEnd (trimStart s).

(** The UTF-16 code units of a string, which [Array.prototype.sort] compares
    by default. *)
Definition continuation (c : ascii) : N := (N_of_ascii c - 128)%N.

Definition supplementary (cp : N) : list N :=
  [ (55296 + (cp - 65536) / 1024)%N; (56320 + (cp - 65536) mod 1024)%N ].

Fixpoint codeUnits (s : string) : list N :=
  match s with
  | EmptyString => []
  | String a r =>
      let b0 := N_of_ascii a in
      if (b0 <? 192)%N then b0 :: codeUnits r
      else if (b0 <? 224)%N then
        match r with
        | String b r1 =>
            ((b0 - 192) * 64 + continuation b)%N :: codeUnits r1
        | _ => b0 :: codeUnits r
        end
      else if (b0 <? 240)%N then
        match r with
        | String b (String c r2) =>
            ((b0 - 224) * 4096 + continuation b * 64 + continuation c)%N
              :: codeUnits r2
        | _ => b0 :: codeUnits r
        end
      else
        match r with
        | String b (String c (String d r3)) =>
            supplementary ((b0 - 240) * 262144 + continuation b * 4096
                           + continuation c * 64 + continuation d)%N
              ++ codeUnits r3
        | _ => b0 :: codeUnits r
        end
  end.

Fixpoint unitsLeb (a b : list N) : bool :=
  match a, b with
  | [], _ => true
  | _ :: _, [] => false
  | x :: a', y :: b' =>
      if (x <? y)%N then true
      else if (y <? x)%N then false
      else unitsLeb a' b'
  end.

(** [a <= b] in the order of the default sort comparator. *)
Definition codeUnitLeb (a b : string) : bool :=
  unitsLeb (codeUnits a) (codeUnits b).

(** [s.indexOf(needle)]; [None] is the source's [-1]. *)
Definition indexOf (needle s : string) : option nat := index 0 needle s.

Definition includes (needle s : string) : bool :=
  match indexOf needle s with Some _ => true | None => false end.

(** [s.slice(from, to)] and [s.slice(from)] for indices inside [s]. *)
Definition slice (from to : nat) (s : string) : string :=
  substring from (to - from) s.

Definition sliceFrom (from : nat) (s : string) : string :=
  substring from (String.length s - from) s.

Definition startsWith (p s : string) : bool := prefix p s.

Fixpoint endsWithChar (c : ascii) (s : string) : bool :=
  match s with
  | EmptyString => false
  | String d EmptyString => Ascii.eqb c d
  | String _ r => endsWithChar c r
  end.

(** [s.slice(0, -1)]. *)
Definition dropLast (s : string) : string :=
  substring 0 (String.length s - 1) s.

(** [s.split(sep)[0]]: the part of [s] before the first [sep]. *)
Definition splitHead (sep s : string) : string :=
  match indexOf sep s with
  | Some i => slice 0 i s
  | None => s
  end.

(** Truthiness of a string value. *)
Definition truthy (s : string) : bool := negb (s =? "").

End JS.

(** ** Data model *)

(** [EntrySource]. *)
Inductive EntrySource := backend | user | generated.

Definition EntrySource_eqb (a b : EntrySource) : bool :=
  match a, b with
  | backend, backend | user, user | generated, generated => true
  | _, _ => false
  end.

(** [PatternType] is a union of string literals; values reaching the module
    from a backend payload or an import file are arbitrary strings, so the
    type is kept as the string it is at run time. *)
Abbreviation PatternType := string.

(** [ListEntry.metadata]: the three time stamps the module itself reads or
    writes, and the remaining keys ([category], [description], [tags], ...)
    as an association list from key to the text of the value. *)
Record Metadata := mkMetadata {
  created_at : option Z;
  updated_at : option Z;
  sync_timestamp : option Z;
  extra : list (string * string)
}.

Definition empty_metadata : Metadata := mkMetadata None None None [].

(** [Omit<ListEntry, 'id'>].  [source] is optional at run time: [importList]
    builds entries without it. *)
Record Entry := mkEntry {
  list_name : string;
  domain : string;
  pattern_type : PatternType;
  source : option EntrySource;
  metadata : Metadata
}.

(** A stored [ListEntry]: the primary key and the record. *)
Abbreviation Row := (N * Entry)%type.

(** [Partial<ListEntry>] as passed to [updateListEntry]. *)
Record Updates := mkUpdates {
  u_list_name : option string;
  u_domain : option string;
  u_pattern_type : option PatternType;
  u_source : option EntrySource;
  u_metadata : option Metadata
}.

(** One element of a backend list ([any] in the source): [c_domain] is
    [None] when the field is missing or not a string, [c_pattern_type] when
    it is missing; a pattern type is a string when there is one, and
    [c_metadata] is [None] when the element has no metadata. *)
Record Candidate := mkCandidate {
  c_domain : option string;
  c_pattern_type : option PatternType;
  c_metadata : option Metadata
}.

(** One element of [importData.entries], in the shape [exportList] writes. *)
Record FileEntry := mkFileEntry {
  f_domain : string;
  f_pattern_type : PatternType;
  f_metadata : option Metadata
}.

(** The value of [JSON.parse(jsonData)]; [entries] is [None] when the field is
    missing or not an array. *)
Record ImportData := mkImportData {
  entries : option (list FileEntry)
}.

(** The result of [psl.parse]: an error object, or a parsed domain whose
    [domain] field may be [null]. *)
Inductive PslResult :=
| PslError
| PslParsed (registrable : option string).

(** The two fields of a [URL] object the module reads. *)
Record URL := mkURL {
  hostname : string;
  pathname : string
}.

(** ** The object store

    The state of the [list_entries] object store: its records in primary-key
    order, the current number of its key generator, and the number of calls
    of [Date.now()] made so far. *)
Record World := mkWorld {
  rows : list Row;
  key_gen : N;
  ticks : nat
}.

Definition empty_world : World := mkWorld [] 1 0.

(** The key of the unique index [list_name_pattern_type_domain]. *)
Definition sameKey (listName : string) (patternType : PatternType) (dom : string)
  (e : Entry) : bool :=
  (list_name e =? listName) && (pattern_type e =? patternType) && (domain e =? dom).

Definition keyClash (e e' : Entry) : bool :=
  sameKey (list_name e) (pattern_type e) (domain e) e'.

(** [store.add(e)]: a constraint error ([None]) when the unique index already
    holds the key of [e], else the record is stored under a generated key. *)
Definition store_add (e : Entry) (w : World) : option (N * World) :=
  if existsb (fun r => keyClash e (snd r)) (rows w) then None
  else Some (key_gen w,
             mkWorld (rows w ++ [(key_gen w, e)]) (key_gen w + 1) (ticks w)).

(** [store.put(e)] for a record whose [id] is stored: a constraint error when
    another record holds the key of [e], else the record is replaced. *)
Definition store_put (id : N) (e : Entry) (w : World) : option World :=
  if existsb (fun r => keyClash e (snd r) && negb (fst r =? id)%N) (rows w) then None
  else Some (mkWorld (map (fun r => if (fst r =? id)%N then (id, e) else r) (rows w))
                     (key_gen w) (ticks w)).

(** [store.get(id)]. *)
Definition store_get (id : N) (w : World) : option Entry :=
  option_map snd (find (fun r => (fst r =? id)%N) (rows w)).

(** [store.delete(id)]. *)
Definition store_delete (id : N) (w : World) : World :=
  mkWorld (filter (fun r => negb (fst r =? id)%N) (rows w)) (key_gen w) (ticks w).

(** Outcome of a rejected promise. *)
Inductive Error :=
| InvalidDomainPattern (pattern : string)
| FailedToCreateEntry
| FailedToCreateBulkEntry
| EntryNotFound (id : N)
| FailedToUpdateEntry
| InvalidJSON
| MissingEntriesArray
| FailedToImportList (cause : Error).

Inductive Result (A : Type) :=
| Ok (a : A)
| Err (e : Error).

Arguments Ok {A} a.
Arguments Err {A} e.

(** Object spread [{...a, ...b}] on metadata. *)
Definition orElse {A} (b a : option A) : option A :=
  match b with Some x => Some x | None => a end.

Definition lookupKey (k : string) (m : list (string * string)) : option string :=
  option_map snd (find (fun kv => fst kv =? k) m).

Definition spreadExtra (a b : list (string * string)) : list (string * string) :=
  map (fun kv => match lookupKey (fst kv) b with
                 | Some v => (fst kv, v)
                 | None => kv
                 end) a
  ++ filter (fun kv => match lookupKey (fst kv) a with Some _ => false | None => true end) b.

Definition spreadMetadata (a b : Metadata) : Metadata :=
  mkMetadata (orElse (created_at b) (created_at a))
             (orElse (updated_at b) (updated_at a))
             (orElse (sync_timestamp b) (sync_timestamp a))
             (spreadExtra (extra a) (extra b)).

(** ** The environment *)

Class Platform := {
  (** [psl.parse] *)
  psl_parse : string -> PslResult;
  (** [new URL(s)]; [None] when the constructor throws *)
  URL_new : string -> option URL;
  (** [new RegExp(p)]; [None] when it throws, else the [test] method *)
  RegExp_new : string -> option (string -> bool);
  (** [JSON.parse]; [None] when it throws *)
  JSON_parse : string -> option ImportData;
  (** the value of the [n]-th call of [Date.now()] *)
  Date_now : nat -> Z;
  (** [String.prototype.toLowerCase] *)
  toLowerCase : string -> string
}.

Section ListUtilities.

Context {P : Platform}.

(** *** Pattern validation helpers *)

Definition normalizeLeadingWww (host : string) : string :=
  let h := toLowerCase host in
  if JS.startsWith "www." h then JS.sliceFrom 4 h else h.

Definition isStrictRegisteredDomain (pattern : string) : bool :=
  let candidate := normalizeLeadingWww (JS.trim pattern) in
  if JS.includes "://" candidate || JS.includes "/" candidate then false
  else
    match psl_parse candidate with
    | PslError => false
    | PslParsed None => false
    | PslParsed (Some d) =>
        if negb (JS.truthy d) then false else candidate =? d
    end.

(** *** Pattern matching *)

(** The ['host_path_prefix'] case of [matchesPattern] once [patternHost]
    and [patternPath] are assigned: the host test and the path test. *)
Definition hostPathCompare (urlHostNormalized urlPath patternHost patternPath : string)
  : bool :=
  let patternHostNormalized := normalizeLeadingWww patternHost in
  if negb (JS.truthy patternHostNormalized)
     || negb (urlHostNormalized =? patternHostNormalized)
  then false
  else
    let patternPath :=
      if negb (JS.startsWith "/" patternPath) then ("/" ++ patternPath)%string
      else patternPath in
    if JS.startsWith patternPath urlPath then true
    else if JS.endsWithChar "/"%char patternPath then
      urlPath =? JS.dropLast patternPath
    else false.

(** The body of the [try] block of [matchesPattern]; [None] stands for an
    exception raised inside it. *)
Definition matchesPattern_try (url pattern : string) (patternType : PatternType)
  : option bool :=
  match URL_new url with
  | None => None
  | Some urlObj =>
    let host_name := hostname urlObj in
    if patternType =? "domain" then
      if negb (isStrictRegisteredDomain pattern) then Some false
      else
        match psl_parse host_name with
        | PslError => Some false
        | PslParsed None => Some false
        | PslParsed (Some urlDomain) =>
            if negb (JS.truthy urlDomain) then Some false
            else Some (urlDomain =? normalizeLeadingWww (JS.trim pattern))
        end
    else if patternType =? "host" then
      let urlHostNormalized := normalizeLeadingWww host_name in
      let patternHost :=
        if JS.includes "://" pattern then option_map hostname (URL_new pattern)
        else if JS.includes "/" pattern then Some (JS.splitHead "/" pattern)
        else Some pattern in
      match patternHost with
      | None => None
      | Some patternHost =>
          let patternHostNormalized := normalizeLeadingWww patternHost in
          if negb (JS.truthy patternHostNormalized) then Some false
          else Some (urlHostNormalized =? patternHostNormalized)
      end
    else if patternType =? "exact_url" then
      Some (url =? pattern)
    else if patternType =? "host_path_prefix" then
      let urlHostNormalized := normalizeLeadingWww host_name in
      let urlPath := pathname urlObj in
      if JS.includes "://" pattern then
        match URL_new pattern with
        | None => None
        | Some patternUrl =>
            Some (hostPathCompare urlHostNormalized urlPath
                    (hostname patternUrl) (pathname patternUrl))
        end
      else
        match JS.indexOf "/" pattern with
        | None => Some false
        | Some firstSlashIdx =>
            Some (hostPathCompare urlHostNormalized urlPath
                    (JS.slice 0 firstSlashIdx pattern)
                    (JS.sliceFrom firstSlashIdx pattern))
        end
    else if patternType =? "regex" then
      match RegExp_new pattern with
      | Some test => Some (test url)
      | None => Some false
      end
    else Some false
  end.

(** [matchesPattern]: the [try] block under its [catch], which returns
    [false]. *)
Definition matchesPattern (url pattern : string) (patternType : PatternType) : bool :=
  match matchesPattern_try url pattern patternType with
  | Some b => b
  | None => false
  end.

(** *** CRUD operations *)

(** [Date.now()]. *)
Definition date_now (w : World) : Z * World :=
  (Date_now (ticks w), mkWorld (rows w) (key_gen w) (S (ticks w))).

(** The object literal [entryWithTimestamps] of [createListEntry] and
    [bulkCreateListEntries]:
    [created_at: entry.metadata.created_at || Date.now(), updated_at: Date.now()]. *)
Definition withTimestamps (entry : Entry) (w : World) : Entry * World :=
  let '(c, w1) :=
    match created_at (metadata entry) with
    | Some c => if (c =? 0)%Z then date_now w else (c, w)
    | None => date_now w
    end in
  let '(u, w2) := date_now w1 in
  (mkEntry (list_name entry) (domain entry) (pattern_type entry) (source entry)
     (mkMetadata (Some c) (Some u)
        (sync_timestamp (metadata entry)) (extra (metadata entry))),
   w2).

Definition createListEntry (entry : Entry) (w : World) : World * Result N :=
  if (pattern_type entry =? "domain") && negb (isStrictRegisteredDomain (domain entry))
  then (w, Err (InvalidDomainPattern (domain entry)))
  else
    let '(entryWithTimestamps, w1) := withTimestamps entry w in
    match store_add entryWithTimestamps w1 with
    | Some (id, w2) => (w2, Ok id)
    | None => (w1, Err FailedToCreateEntry)
    end.

Definition getListEntries (listName : string) (w : World) : list Row :=
  filter (fun r => list_name (snd r) =? listName) (rows w).

Definition hasSource (s : EntrySource) (e : Entry) : bool :=
  match source e with
  | Some s' => EntrySource_eqb s' s
  | None => false
  end.

Definition getListEntriesBySource (listName : string) (src : EntrySource) (w : World)
  : list Row :=
  filter (fun r => (list_name (snd r) =? listName) && hasSource src (snd r)) (rows w).

Definition updateListEntry (id : N) (updates : Updates) (w : World)
  : World * Result unit :=
  match store_get id w with
  | None => (w, Err (EntryNotFound id))
  | Some entry =>
      let nextDomain :=
        match u_domain updates with Some d => d | None => domain entry end in
      let nextPatternType :=
        match u_pattern_type updates with Some t => t | None => pattern_type entry end in
      if (nextPatternType =? "domain") && negb (isStrictRegisteredDomain nextDomain)
      then (w, Err (InvalidDomainPattern nextDomain))
      else
        let m :=
          match u_metadata updates with
          | Some um => spreadMetadata (metadata entry) um
          | None => metadata entry
          end in
        let '(now, w1) := date_now w in
        let updatedEntry :=
          mkEntry
            (match u_list_name updates with Some l => l | None => list_name entry end)
            nextDomain nextPatternType
            (orElse (u_source updates) (source entry))
            (mkMetadata (created_at m) (Some now) (sync_timestamp m) (extra m)) in
        match store_put id updatedEntry w1 with
        | Some w2 => (w2, Ok tt)
        | None => (w1, Err FailedToUpdateEntry)
        end
  end.

Definition deleteListEntry (id : N) (w : World) : World := store_delete id w.

(** The cursor loops of [deleteAllEntriesInList]: over [list_name_source]
    when a source filter is given, over [list_name] otherwise. *)
Definition deleteAllEntriesInList (listName : string) (sourceFilter : option EntrySource)
  (w : World) : World :=
  let doomed (r : Row) :=
    match sourceFilter with
    | Some src => (list_name (snd r) =? listName) && hasSource src (snd r)
    | None => list_name (snd r) =? listName
    end in
  mkWorld (filter (fun r => negb (doomed r)) (rows w)) (key_gen w) (ticks w).

(** *** Query operations *)

Definition findListEntry (listName dom : string) (w : World) : option Row :=
  find (fun r => (list_name (snd r) =? listName) && (domain (snd r) =? dom)) (rows w).

Definition findListEntryByPattern (listName : string) (patternType : PatternType)
  (dom : string) (w : World) : option Row :=
  find (fun r => sameKey listName patternType dom (snd r)) (rows w).

Definition matchDomainAgainstList (url listName : string) (w : World) : option Row :=
  find (fun r => matchesPattern url (domain (snd r)) (pattern_type (snd r)))
       (getListEntries listName w).

(** *** Bulk operations *)

(** The synchronous [forEach] of [bulkCreateListEntries] stamps every entry;
    the queued [add] requests then run in order inside one transaction. *)
Fixpoint stampAll (es : list Entry) (w : World) : list Entry * World :=
  match es with
  | [] => ([], w)
  | entry :: rest =>
      let '(e', w1) := withTimestamps entry w in
      let '(es', w2) := stampAll rest w1 in
      (e' :: es', w2)
  end.

Fixpoint addAll (es : list Entry) (w : World) : option (list N * World) :=
  match es with
  | [] => Some ([], w)
  | e :: rest =>
      match store_add e w with
      | None => None
      | Some (id, w1) =>
          match addAll rest w1 with
          | None => None
          | Some (ids, w2) => Some (id :: ids, w2)
          end
      end
  end.

(** A failed [add] aborts the transaction: nothing of the batch is kept. *)
Definition bulkCreateListEntries (es : list Entry) (w : World) : World * Result (list N) :=
  let '(stamped, w1) := stampAll es w in
  match addAll stamped w1 with
  | Some (ids, w2) => (w2, Ok ids)
  | None => (w1, Err FailedToCreateBulkEntry)
  end.

Definition importList (listName jsonData : string) (w : World) : World * Result nat :=
  match JSON_parse jsonData with
  | None => (w, Err (FailedToImportList InvalidJSON))
  | Some importData =>
      match entries importData with
      | None => (w, Err (FailedToImportList MissingEntriesArray))
      | Some fileEntries =>
          let w1 := deleteAllEntriesInList listName None w in
          let newEntries :=
            map (fun entry =>
                   mkEntry listName (f_domain entry) (f_pattern_type entry) None
                     (match f_metadata entry with
                      | Some m => m
                      | None => empty_metadata
                      end)) fileEntries in
          match bulkCreateListEntries newEntries w1 with
          | (w2, Ok ids) => (w2, Ok (List.length ids))
          | (w2, Err e) => (w2, Err (FailedToImportList e))
          end
      end
  end.

(** *** Backend merge *)

(** The guards shared by both loops of [mergeBackendList]:
    [typeof domain !== 'string' || domain.length === 0] and [!patternType]. *)
Definition candidateKey (entry : Candidate) : option (string * PatternType) :=
  match c_domain entry, c_pattern_type entry with
  | Some dom, Some patternType =>
      if JS.truthy dom && JS.truthy patternType then Some (dom, patternType) else None
  | _, _ => None
  end.

(** One iteration of the conflict-resolution loop (step 1b). *)
Definition resolveConflict (listName : string) (w : World) (entry : Candidate) : World :=
  match candidateKey entry with
  | None => w
  | Some (dom, patternType) =>
      match findListEntryByPattern listName patternType dom w with
      | Some (id, _) => deleteListEntry id w
      | None => w
      end
  end.

(** The loop that prepares [newEntries] (step 2). *)
Fixpoint prepareBackendEntries (listName : string) (es : list Candidate) (w : World)
  : list Entry * World :=
  match es with
  | [] => ([], w)
  | entry :: rest =>
      match candidateKey entry with
      | None => prepareBackendEntries listName rest w
      | Some (dom, patternType) =>
          if (patternType =? "domain") && negb (isStrictRegisteredDomain dom)
          then prepareBackendEntries listName rest w
          else
            let '(now, w1) := date_now w in
            let m := match c_metadata entry with
                     | Some m => m
                     | None => empty_metadata
                     end in
            let '(newEntries, w2) := prepareBackendEntries listName rest w1 in
            (mkEntry listName dom patternType (Some backend)
               (mkMetadata (created_at m) (updated_at m) (Some now) (extra m))
               :: newEntries, w2)
      end
  end.

Definition mergeBackendList (listName : string) (es : list Candidate) (w : World)
  : World * Result unit :=
  let w1 := deleteAllEntriesInList listName (Some backend) w in
  let w2 := fold_left (resolveConflict listName) es w1 in
  let '(newEntries, w3) := prepareBackendEntries listName es w2 in
  match newEntries with
  | [] => (w3, Ok tt)
  | _ :: _ =>
      match bulkCreateListEntries newEntries w3 with
      | (w4, Ok _) => (w4, Ok tt)
      | (w4, Err e) => (w4, Err e)
      end
  end.

End ListUtilities.

(** ** A concrete environment

    A small platform on which the model runs: a public-suffix resolver over
    an excerpt of the suffix list, a parser for URLs of the shape
    [scheme://host/path?query#fragment], a regular-expression engine for
    literal patterns, one import document, a clock that advances one
    millisecond per reading, and the lower-casing of the letters A to Z,
    which is what [toLowerCase] does on ASCII text. *)

Module Demo.

Definition lowerChar (c : ascii) : ascii :=
  let n := nat_of_ascii c in
  if (65 <=? n)%nat && (n <=? 90)%nat then ascii_of_nat (n + 32) else c.

Fixpoint lowerAscii (s : string) : string :=
  match s with
  | EmptyString => EmptyString
  | String c r => String (lowerChar c) (lowerAscii r)
  end.

Fixpoint splitOn (c : ascii) (s : string) : list string :=
  match s with
  | EmptyString => [EmptyString]
  | String d r =>
      if Ascii.eqb c d then EmptyString :: splitOn c r
      else
        match splitOn c r with
        | [] => [String d EmptyString]
        | h :: t => String d h :: t
        end
  end.

Definition joinDots (ls : list string) : string := String.concat "." ls.

Definition public_suffixes : list (list string) :=
  [ ["com"]; ["org"]; ["net"]; ["uk"]; ["co"; "uk"]; ["au"]; ["com"; "au"] ].

Definition lastn {A} (n : nat) (l : list A) : list A := skipn (List.length l - n) l.

Definition isSuffixOf (suffix ls : list string) : bool :=
  if list_eq_dec string_dec (lastn (List.length suffix) ls) suffix then true else false.

(** Length of the longest listed suffix of [ls]; the default rule [*] gives 1. *)
Definition suffixLength (ls : list string) : nat :=
  fold_left (fun n rule => if isSuffixOf rule ls then Nat.max n (List.length rule) else n)
            public_suffixes 1%nat.

Definition psl (host : string) : PslResult :=
  let ls := splitOn "." (lowerAscii host) in
  if existsb (fun l => l =? "") ls then PslError
  else
    let n := suffixLength ls in
    if (List.length ls <=? n)%nat then PslParsed None
    else PslParsed (Some (joinDots (lastn (S n) ls))).

Fixpoint takeUntil (stop : ascii -> bool) (s : string) : string :=
  match s with
  | EmptyString => EmptyString
  | String c r => if stop c then EmptyString else String c (takeUntil stop r)
  end.

Definition isPathStart (c : ascii) : bool :=
  Ascii.eqb c "/" || Ascii.eqb c "?" || Ascii.eqb c "#".

Definition isQueryStart (c : ascii) : bool :=
  Ascii.eqb c "?" || Ascii.eqb c "#".

Definition url (s : string) : option URL :=
  match JS.indexOf "://" s with
  | None => None
  | Some i =>
      let scheme := lowerAscii (JS.slice 0 i s) in
      if negb ((scheme =? "http") || (scheme =? "https")) then None
      else
        let rest := JS.sliceFrom (i + 3) s in
        let host := lowerAscii (takeUntil isPathStart rest) in
        if host =? "" then None
        else
          let path := takeUntil isQueryStart (JS.sliceFrom (String.length host) rest) in
          Some (mkURL host (if path =? "" then "/" else path))
  end.

Definition isLiteralChar (c : ascii) : bool :=
  let n := nat_of_ascii c in
  ((48 <=? n)%nat && (n <=? 58)%nat)
  || ((65 <=? n)%nat && (n <=? 90)%nat)
  || ((97 <=? n)%nat && (n <=? 122)%nat)
  || (n =? 47)%nat || (n =? 45)%nat.

Fixpoint allChars (f : ascii -> bool) (s : string) : bool :=
  match s with
  | EmptyString => true
  | String c r => f c && allChars f r
  end.

(** Patterns of letters, digits, [/], [:] and [-] are literals; any other
    pattern is rejected. *)
Definition regexp (p : string) : option (string -> bool) :=
  if allChars isLiteralChar p then Some (fun s => JS.includes p s) else None.

Definition quoted (s : string) : string :=
  let q := String (ascii_of_nat 34) EmptyString in (q ++ s ++ q)%string.

(** The text [{"entries":[{"domain":"example.com","pattern_type":"host"}]}]. *)
Definition sample_json : string :=
  ("{" ++ quoted "entries" ++ ":[{" ++ quoted "domain" ++ ":" ++ quoted "example.com"
       ++ "," ++ quoted "pattern_type" ++ ":" ++ quoted "host" ++ "}]}")%string.

Definition json (s : string) : option ImportData :=
  if s =? sample_json
  then Some (mkImportData (Some [mkFileEntry "example.com" "host" None]))
  else if s =? "{}" then Some (mkImportData None)
  else None.

Definition now (n : nat) : Z := (1700000000000 + Z.of_nat n)%Z.

Definition platform : Platform :=
  {| psl_parse := psl;
     URL_new := url;
     RegExp_new := regexp;
     JSON_parse := json;
     Date_now := now;
     toLowerCase := lowerAscii |}.

End Demo.


(** ** Vocabulary of the properties *)

(** The uniqueness key of a record, and what a reader of the store can tell
    about it once ids and metadata are set aside. *)
Definition keyOf (e : Entry) : string * PatternType * string :=
  (list_name e, pattern_type e, domain e).

Definition observable (e : Entry) : string * PatternType * string * option EntrySource :=
  (list_name e, pattern_type e, domain e, source e).

(** The records stored at a key. *)
Definition entriesAt (listName : string) (patternType : PatternType) (dom : string)
  (w : World) : list Row :=
  filter (fun r => sameKey listName patternType dom (snd r)) (rows w).

(** What IndexedDB guarantees of the object store: the unique index holds no
    key twice, primary keys are distinct and below the key generator. *)
Definition store_wf (w : World) : Prop :=
  NoDup (map (fun r => keyOf (snd r)) (rows w))
  /\ NoDup (map fst (rows w))
  /\ Forall (fun r => (fst r < key_gen w)%N) (rows w).

(** A backend entry of the list, the target of step 1 of the merge. *)
Definition backendIn (listName : string) (e : Entry) : bool :=
  (list_name e =? listName) && hasSource backend e.

(** [e] sits at the key of some candidate that passes the guards of the
    conflict-resolution loop. *)
Definition conflicts (listName : string) (es : list Candidate) (e : Entry) : bool :=
  existsb (fun c => match candidateKey c with
                    | Some (dom, patternType) => sameKey listName patternType dom e
                    | None => false
                    end) es.

(** The records that steps 1 and 1b of the merge leave in the store. *)
Definition survivors (listName : string) (es : list Candidate) (w : World) : list Row :=
  filter (fun r => negb (conflicts listName es (snd r)))
         (filter (fun r => negb (backendIn listName (snd r))) (rows w)).

(** Whether a batch of records can be added to a store holding [stored]:
    no key of the batch is stored or repeated. *)
Fixpoint insertable (es stored : list Entry) : bool :=
  match es with
  | [] => true
  | e :: rest => negb (existsb (keyClash e) stored) && insertable rest (stored ++ [e])
  end.

Section MergeVocabulary.

Context {P : Platform}.

(** The candidates step 2 of the merge keeps. *)
Definition accepts (c : Candidate) : option (string * PatternType) :=
  match candidateKey c with
  | Some (dom, patternType) =>
      if (patternType =? "domain") && negb (isStrictRegisteredDomain dom)
      then None else Some (dom, patternType)
  | None => None
  end.

Fixpoint accepted (es : list Candidate) : list (string * PatternType) :=
  match es with
  | [] => []
  | c :: rest =>
      match accepts c with
      | Some k => k :: accepted rest
      | None => accepted rest
      end
  end.

Definition backendEntryView (listName : string) (k : string * PatternType)
  : string * PatternType * string * option EntrySource :=
  (listName, snd k, fst k, Some backend).




(** The three write paths. *)
Inductive Write :=
| WCreate (entry : Entry)
| WBulkCreate (es : list Entry)
| WUpdate (id : N) (updates : Updates).

Definition run_write (wr : Write) (w : World) : World :=
  match wr with
  | WCreate entry => fst (createListEntry entry w)
  | WBulkCreate es => fst (bulkCreateListEntries es w)
  | WUpdate id updates => fst (updateListEntry id updates w)
  end.





(** What a repeated merge leaves as it is in a record: list, pattern type,
    pattern, source and the free-form metadata. *)
Definition stable (e : Entry)
  : (string * PatternType * string * option EntrySource) * list (string * string) :=
  (observable e, extra (metadata e)).

(** The free-form metadata a candidate carries. *)
Definition carried (c : Candidate) : list (string * string) :=
  match c_metadata c with
  | Some m => extra m
  | None => []
  end.

(** The accepted candidates as the merge writes them. *)
Fixpoint acceptedEntries (listName : string) (es : list Candidate)
  : list ((string * PatternType * string * option EntrySource) * list (string * string)) :=
  match es with
  | [] => []
  | c :: rest =>
      match accepts c with
      | Some k => (backendEntryView listName k, carried c) :: acceptedEntries listName rest
      | None => acceptedEntries listName rest
      end
  end.

End MergeVocabulary.

(** The split of a ['host_path_prefix'] pattern into host and path: from the
    parsed URL when the pattern is one, else at its first slash. *)
Inductive PatternParts {P : Platform} (pattern : string) : string -> string -> Prop :=
| parts_of_url patternUrl :
    JS.includes "://" pattern = true ->
    URL_new pattern = Some patternUrl ->
    PatternParts pattern (hostname patternUrl) (pathname patternUrl)
| parts_of_split firstSlashIdx :
    JS.includes "://" pattern = false ->
    JS.indexOf "/" pattern = Some firstSlashIdx ->
    PatternParts pattern (JS.slice 0 firstSlashIdx pattern)
                         (JS.sliceFrom firstSlashIdx pattern).

(** The pattern path once it is made to begin with a slash. *)
Definition anchoredPath (patternPath : string) : string :=
  if JS.startsWith "/" patternPath then patternPath else ("/" ++ patternPath)%string.

(** ** What the matcher's normalisations mean *)

(** A string made of white-space characters only. *)
Inductive WhiteSpaceOnly : string -> Prop :=
| ws_empty : WhiteSpaceOnly ""
| ws_more tok rest :
    In tok JS.whiteSpace -> WhiteSpaceOnly rest -> WhiteSpaceOnly (tok ++ rest).

(** [core] is [s] trimmed: [s] without the white space before and after
    [core], which neither begins nor ends with a white-space character. *)
Definition TrimOf (s core : string) : Prop :=
  exists pre post,
    s = (pre ++ core ++ post)%string
    /\ WhiteSpaceOnly pre /\ WhiteSpaceOnly post
    /\ (forall tok rest, In tok JS.whiteSpace -> core <> (tok ++ rest)%string)
    /\ (forall tok init, In tok JS.whiteSpace -> core <> (init ++ tok)%string).

(** [key] is [host] in lower case and without one leading [www.]. *)
Definition NormalizedHost {P : Platform} (host key : string) : Prop :=
  (exists rest, toLowerCase host = ("www." ++ rest)%string /\ key = rest)
  \/ (prefix "www." (toLowerCase host) = false /\ key = toLowerCase host).

(** ** Sample stores *)

(** The pattern [WWW.Google.com] with a no-break space and a space before
    it and a space, a tab and an ideographic space after it. *)
Definition sample_padded_pattern : string :=
  (JS.bytes [194; 160] ++ " WWW.Google.com " ++ JS.bytes [9; 227; 128; 128])%string.

(** Two list names that bytes and code units order differently: the
    character U+FF5E, and the character U+1F600, which is a surrogate pair. *)
Definition sample_wave_name : string := JS.bytes [239; 189; 158].

Definition sample_face_name : string := JS.bytes [240; 159; 152; 128].

Definition sample_named_lists : World :=
  mkWorld [(1%N, mkEntry sample_wave_name "example.com" "host" (Some user) empty_metadata);
           (2%N, mkEntry sample_face_name "example.org" "host" (Some user) empty_metadata);
           (3%N, mkEntry "blocklist" "example.net" "host" (Some user) empty_metadata)]
          4 0.

(** A stored entry that carries a sync time stamp and free-form metadata,
    and an update that supplies [created_at] and two free-form keys. *)
Definition sample_tagged_entry : Entry :=
  mkEntry "blocklist" "ads.example.com" "host" (Some user)
          (mkMetadata (Some 5%Z) (Some 5%Z) (Some 9%Z)
                      [("category", "ads"); ("description", "tracker")]).

Definition sample_tagged_world : World := mkWorld [(1%N, sample_tagged_entry)] 2 0.

Definition sample_metadata_update : Updates :=
  mkUpdates None (Some "other.example.com") None None
            (Some (mkMetadata (Some 3%Z) None None
                              [("category", "news"); ("tags", "a,b")])).

Definition sample_candidate (dom : string) (patternType : PatternType) : Candidate :=
  mkCandidate (Some dom) (Some patternType) None.

Definition sample_user_entry : Entry :=
  mkEntry "blocklist" "example.com" "host" (Some user)
          (mkMetadata (Some 5%Z) (Some 5%Z) None []).

Definition sample_backend_entry : Entry :=
  mkEntry "blocklist" "old.org" "domain" (Some backend)
          (mkMetadata (Some 6%Z) (Some 6%Z) (Some 6%Z) []).

Definition sample_subdomain_entry : Entry :=
  mkEntry "blocklist" "mail.google.com" "domain" (Some user)
          (mkMetadata (Some 7%Z) (Some 7%Z) None []).

Definition sample_world : World :=
  mkWorld [(1%N, sample_user_entry); (2%N, sample_backend_entry);
           (3%N, sample_subdomain_entry)] 4 0.

Definition sample_dated_entry : Entry :=
  mkEntry "blocklist" "news.example.org" "host" (Some user)
          (mkMetadata (Some 100%Z) None None []).


(** ** The other exported functions *)

(** The object [exportList] serialises. *)
Record ExportData := mkExportData {
  x_list_name : string;
  x_exported_at : Z;
  x_version : nat;
  x_entries : list FileEntry
}.

(** A backend configuration's [lists] section in [Object.keys] order; a value
    that is not an array is [None]. *)
Abbreviation ListsConfig := (list (string * option (list Candidate))).

(** What [fetch(configUrl)] followed by [response.json()] comes to: an error
    with its message (network failure, a response that is not [ok], a body
    that is not JSON), or the configuration with its [lists] section, [None]
    when the section is missing or not an object. *)
Inductive FetchOutcome :=
| FetchFailed (message : string)
| FetchOk (lists : option ListsConfig).

(** [SyncResult]. *)
Record SyncResult := mkSyncResult {
  success : bool;
  listsUpdated : list string;
  errors : option (list string)
}.

(** The two remaining capabilities of the environment. *)
Class Services := {
  (** [JSON.stringify(exportData, null, 2)] *)
  JSON_stringify : ExportData -> string;
  (** [fetch] and [response.json()] *)
  fetch_config : string -> FetchOutcome
}.

(** [listNames.add(name)] on a [Set] kept in insertion order. *)
Definition setAdd (name : string) (set : list string) : list string :=
  if existsb (String.eqb name) set then set else set ++ [name].

(** [Array.prototype.sort()] without a comparator orders strings by their
    code units; on the distinct elements of a set every sorting algorithm
    gives the same array, here by insertion. *)
Fixpoint insertSorted (name : string) (sorted : list string) : list string :=
  match sorted with
  | [] => [name]
  | x :: rest =>
      if JS.codeUnitLeb name x then name :: sorted else x :: insertSorted name rest
  end.

Definition sortStrings (names : list string) : list string :=
  fold_right insertSorted [] names.

Definition getAllLists (w : World) : list string :=
  sortStrings (fold_left (fun listNames r => setAdd (list_name (snd r)) listNames)
                         (rows w) []).

Section RemainingFunctions.

Context {P : Platform} {S : Services}.

(** The [entries] array of [exportList]. *)
Definition exportedEntries (listName : string) (w : World) : list FileEntry :=
  map (fun r => mkFileEntry (domain (snd r)) (pattern_type (snd r))
                            (Some (metadata (snd r))))
      (getListEntries listName w).

Definition exportList (listName : string) (w : World) : string * World :=
  let es := exportedEntries listName w in
  let '(now, w1) := date_now w in
  (JSON_stringify (mkExportData listName now 1 es), w1).

(** [parseAndSyncLists]: a value that is not an array is skipped; a merge
    that rejects is caught and logged, and the loop goes on. *)
Fixpoint parseAndSyncLists (listsConfig : ListsConfig) (w : World) : World :=
  match listsConfig with
  | [] => w
  | (listName, None) :: rest => parseAndSyncLists rest w
  | (listName, Some es) :: rest =>
      parseAndSyncLists rest (fst (mergeBackendList listName es w))
  end.

Definition syncListsFromConfig (configUrl : string) (w : World) : World * SyncResult :=
  match fetch_config configUrl with
  | FetchFailed message => (w, mkSyncResult false [] (Some [message]))
  | FetchOk None => (w, mkSyncResult true [] None)
  | FetchOk (Some lists) =>
      (parseAndSyncLists lists w, mkSyncResult true (map fst lists) None)
  end.

End RemainingFunctions.

(** Every operation of the module on the store. *)
Inductive Operation :=
| OpCreate (entry : Entry)
| OpBulkCreate (es : list Entry)
| OpUpdate (id : N) (updates : Updates)
| OpDelete (id : N)
| OpDeleteAll (listName : string) (sourceFilter : option EntrySource)
| OpImport (listName jsonData : string)
| OpExport (listName : string)
| OpMerge (listName : string) (es : list Candidate)
| OpParseAndSync (listsConfig : ListsConfig)
| OpSync (configUrl : string).

Definition run_operation {P : Platform} {S : Services} (op : Operation) (w : World) : World :=
  match op with
  | OpCreate entry => fst (createListEntry entry w)
  | OpBulkCreate es => fst (bulkCreateListEntries es w)
  | OpUpdate id updates => fst (updateListEntry id updates w)
  | OpDelete id => deleteListEntry id w
  | OpDeleteAll listName sourceFilter => deleteAllEntriesInList listName sourceFilter w
  | OpImport listName jsonData => fst (importList listName jsonData w)
  | OpExport listName => snd (exportList listName w)
  | OpMerge listName es => fst (mergeBackendList listName es w)
  | OpParseAndSync listsConfig => parseAndSyncLists listsConfig w
  | OpSync configUrl => fst (syncListsFromConfig configUrl w)
  end.

Definition run_operations {P : Platform} {S : Services} (ops : list Operation) (w : World)
  : World :=
  fold_left (fun w op => run_operation op w) ops w.

(** The ids [first, first + 1, ...] a key generator hands out. *)
Fixpoint generatedIds (first : N) (count : nat) : list N :=
  match count with
  | O => []
  | S n => first :: generatedIds (first + 1) n
  end.

(** What an export carries of a record: pattern, pattern type and the
    metadata that are not refreshed on insert. *)
Definition portable (e : Entry)
  : string * PatternType * option Z * list (string * string) :=
  (domain e, pattern_type e, sync_timestamp (metadata e), extra (metadata e)).

(** The key and the record [importList] makes of a file entry. *)
Definition fileKey (f : FileEntry) : string * PatternType :=
  (f_domain f, f_pattern_type f).

Definition fileEntry (l : string) (f : FileEntry) : Entry :=
  mkEntry l (f_domain f) (f_pattern_type f) None
          (match f_metadata f with Some m => m | None => empty_metadata end).

(** The recognised pattern types. *)
Definition knownPatternType (t : PatternType) : bool :=
  (t =? "domain") || (t =? "host") || (t =? "exact_url")
  || (t =? "host_path_prefix") || (t =? "regex").

(** A compact rendering of an export and a configuration service, to run the
    remaining functions on. *)
Module DemoServices.

Definition number (z : Z) : string := NilZero.string_of_int (Z.to_int z).

Definition field (k v : string) : string := (Demo.quoted k ++ ":" ++ v)%string.

Definition object (fields : list string) : string :=
  ("{" ++ String.concat "," fields ++ "}")%string.

Definition array (items : list string) : string :=
  ("[" ++ String.concat "," items ++ "]")%string.

Definition numberField (k : string) (v : option Z) : list string :=
  match v with
  | Some z => [field k (number z)]
  | None => []
  end.

Definition metadataText (m : Metadata) : string :=
  object (numberField "created_at" (created_at m)
          ++ numberField "updated_at" (updated_at m)
          ++ numberField "sync_timestamp" (sync_timestamp m)
          ++ map (fun kv => field (fst kv) (snd kv)) (extra m)).

Definition entryText (f : FileEntry) : string :=
  object [field "domain" (Demo.quoted (f_domain f));
          field "pattern_type" (Demo.quoted (f_pattern_type f));
          field "metadata" (match f_metadata f with
                            | Some m => metadataText m
                            | None => object []
                            end)].

(** [JSON.stringify] without the indentation. *)
Definition stringify (d : ExportData) : string :=
  object [field "list_name" (Demo.quoted (x_list_name d));
          field "exported_at" (number (x_exported_at d));
          field "version" (number (Z.of_nat (x_version d)));
          field "entries" (array (map entryText (x_entries d)))].

Definition config_url : string := "https://config.example.org/lists".

Definition sample_config : ListsConfig :=
  [ ("blocklist", Some [sample_candidate "example.com" "host";
                        sample_candidate "google.com" "domain"]);
    ("settings", None);
    ("allowlist", Some [sample_candidate "example.org" "domain";
                        sample_candidate "example.org" "domain"]) ].

Definition fetch (configUrl : string) : FetchOutcome :=
  if configUrl =? config_url then FetchOk (Some sample_config)
  else FetchFailed "Failed to fetch".

Definition services : Services :=
  {| JSON_stringify := stringify; fetch_config := fetch |}.

(** The export of the sample store's [blocklist] at the first clock reading,
    and a platform whose [JSON.parse] reads that text back. *)
Definition sample_export : ExportData :=
  mkExportData "blocklist" (Demo.now 0) 1
    (map (fun r => mkFileEntry (domain (snd r)) (pattern_type (snd r))
                               (Some (metadata (snd r))))
         (rows sample_world)).

Definition json (s : string) : option ImportData :=
  if s =? stringify sample_export
  then Some (mkImportData (Some (x_entries sample_export)))
  else Demo.json s.

Definition platform : Platform :=
  {| psl_parse := Demo.psl;
     URL_new := Demo.url;
     RegExp_new := Demo.regexp;
     JSON_parse := json;
     Date_now := Demo.now;
     toLowerCase := Demo.lowerAscii |}.

End DemoServices.

(** The operations that validate what they insert; [bulkCreateListEntries] and
    [importList] do not. *)
Definition validating (op : Operation) : bool :=
  match op with
  | OpBulkCreate _ | OpImport _ _ => false
  | _ => true
  end.

(** Every stored ['domain'] pattern is a strict registrable domain. *)
Definition domains_strict {P : Platform} (w : World) : Prop :=
  forall r, In r (rows w) -> pattern_type (snd r) = "domain" ->
            isStrictRegisteredDomain (domain (snd r)) = true.

(** A store with two lists. *)
Definition sample_allow_entry : Entry :=
  mkEntry "allowlist" "example.org" "domain" (Some backend)
          (mkMetadata (Some 8%Z) (Some 8%Z) (Some 8%Z) []).

Definition sample_two_lists : World :=
  mkWorld [(1%N, sample_user_entry); (2%N, sample_backend_entry);
           (3%N, sample_subdomain_entry); (4%N, sample_allow_entry)] 5 0.

Definition sample_batch : list Candidate :=
  [sample_candidate "example.com" "host"; sample_candidate "google.com" "domain"].

(** A batch whose first candidate carries free-form metadata. *)
Definition sample_tagged_batch : list Candidate :=
  [mkCandidate (Some "example.com") (Some "host")
               (Some (mkMetadata None None None [("category", "ads")]));
   sample_candidate "google.com" "domain"].

Definition sample_repeating_batch : list Candidate :=
  [sample_candidate "example.org" "domain"; sample_candidate "example.org" "domain"].

(** ** Lists *)

Section ListFacts.

Variables A B : Type.

Lemma filter_twice (f g : A -> bool) (l : list A) :
  filter f (filter g l) = filter (fun x => g x && f x) l.
Proof.
  induction l as [|x l IH]; simpl; [reflexivity|].
  destruct (g x); simpl; [destruct (f x)|]; rewrite IH; reflexivity.
Qed.

Lemma filter_all (f : A -> bool) (l : list A) :
  (forall x, In x l -> f x = true) -> filter f l = l.
Proof.
  induction l as [|x l IH]; simpl; intros H; [reflexivity|].
  rewrite (H x (or_introl eq_refl)), IH; auto.
Qed.

Lemma filter_none (f : A -> bool) (l : list A) :
  (forall x, In x l -> f x = false) -> filter f l = [].
Proof.
  induction l as [|x l IH]; simpl; intros H; [reflexivity|].
  rewrite (H x (or_introl eq_refl)), IH; auto.
Qed.

Lemma In_map_filter (h : A -> B) (f : A -> bool) (l : list A) (y : B) :
  In y (map h (filter f l)) -> In y (map h l).
Proof.
  rewrite !in_map_iff. intros (x & Hx & Hin).
  apply filter_In in Hin. exists x. tauto.
Qed.

Lemma NoDup_map_filter (h : A -> B) (f : A -> bool) (l : list A) :
  NoDup (map h l) -> NoDup (map h (filter f l)).
Proof.
  induction l as [|x l IH]; simpl; intros H; [constructor|].
  inversion H as [|? ? Hnin Hnd]; subst.
  destruct (f x); simpl; auto.
  constructor; auto. intros Hin. apply Hnin. eapply In_map_filter; eauto.
Qed.

Lemma NoDup_map_injective (h : A -> B) (l : list A) (x y : A) :
  NoDup (map h l) -> In x l -> In y l -> h x = h y -> x = y.
Proof.
  induction l as [|z l IH]; simpl; intros Hnd Hx Hy Heq; [contradiction|].
  inversion Hnd as [|? ? Hnin Hnd']; subst.
  destruct Hx as [->|Hx], Hy as [->|Hy]; auto.
  - exfalso. apply Hnin. rewrite Heq. apply in_map; assumption.
  - exfalso. apply Hnin. rewrite <- Heq. apply in_map; assumption.
Qed.

Lemma cons_eq_inv (x y : A) (l l' : list A) :
  x :: l = y :: l' -> x = y /\ l = l'.
Proof. intros H. injection H as Hx Hl. auto. Qed.

Lemma map_combine_snd (h : B -> A) (ys : list B) (zs : list N) :
  List.length zs = List.length ys ->
  map (fun r => h (snd r)) (combine zs ys) = map h ys.
Proof.
  revert zs. induction ys as [|y ys IH]; intros [|z zs] Hlen; simpl in *;
    try discriminate; try reflexivity.
  f_equal. apply IH. lia.
Qed.

End ListFacts.

(** ** The object store keeps its invariant *)

Section StoreFacts.

Lemma sameKey_spec l t d e : sameKey l t d e = true <-> keyOf e = (l, t, d).
Proof.
  unfold sameKey, keyOf. rewrite !andb_true_iff, !String.eqb_eq.
  split; [intros [[-> ->] ->]; reflexivity | intros H; inversion H; auto].
Qed.

Lemma keyClash_spec e e' : keyClash e e' = true <-> keyOf e' = keyOf e.
Proof. unfold keyClash. apply sameKey_spec. Qed.

Lemma sameKey_keyOf l t d e e' :
  keyOf e = keyOf e' -> sameKey l t d e = sameKey l t d e'.
Proof.
  intros H. destruct (sameKey l t d e) eqn:E1, (sameKey l t d e') eqn:E2; auto.
  - apply sameKey_spec in E1. rewrite H in E1. apply sameKey_spec in E1. congruence.
  - apply sameKey_spec in E2. rewrite <- H in E2. apply sameKey_spec in E2. congruence.
Qed.

Lemma keyClash_keyOf e e' x y :
  keyOf e = keyOf e' -> keyOf x = keyOf y -> keyClash e x = keyClash e' y.
Proof.
  intros He Hx.
  destruct (keyClash e x) eqn:E1, (keyClash e' y) eqn:E2; auto.
  - apply keyClash_spec in E1. assert (keyClash e' y = true); [|congruence].
    apply keyClash_spec. congruence.
  - apply keyClash_spec in E2. assert (keyClash e x = true); [|congruence].
    apply keyClash_spec. congruence.
Qed.

Lemma store_wf_same_rows w w' :
  rows w' = rows w -> key_gen w' = key_gen w -> store_wf w -> store_wf w'.
Proof. unfold store_wf. intros -> ->. auto. Qed.

Lemma store_wf_filter (f : Row -> bool) w :
  store_wf w -> store_wf (mkWorld (filter f (rows w)) (key_gen w) (ticks w)).
Proof.
  intros (Hk & Hi & Hb). repeat split; simpl.
  - apply NoDup_map_filter; assumption.
  - apply NoDup_map_filter; assumption.
  - rewrite Forall_forall in *. intros r Hr. apply filter_In in Hr. apply Hb, Hr.
Qed.

Lemma store_wf_empty : store_wf empty_world.
Proof. repeat split; simpl; constructor. Qed.

Lemma store_add_wf e w id w' :
  store_wf w -> store_add e w = Some (id, w') -> store_wf w'.
Proof.
  intros (Hk & Hi & Hb). unfold store_add.
  destruct (existsb (fun r => keyClash e (snd r)) (rows w)) eqn:Hex; [discriminate|].
  intros H; inversion H; subst; clear H.
  assert (Hfree : forall r, In r (rows w) -> keyOf (snd r) <> keyOf e).
  { intros r Hr Heq.
    assert (existsb (fun r => keyClash e (snd r)) (rows w) = true); [|congruence].
    apply existsb_exists. exists r. split; [assumption|]. apply keyClash_spec; assumption. }
  rewrite Forall_forall in Hb.
  repeat split; simpl.
  - rewrite map_app. simpl. apply NoDup_app; [assumption |repeat constructor; simpl; tauto|].
    intros k Hin [<-|[]]. apply in_map_iff in Hin. destruct Hin as (r & Hr & Hin).
    eapply Hfree; eauto.
  - rewrite map_app. simpl. apply NoDup_app; [assumption |repeat constructor; simpl; tauto|].
    intros k Hin [<-|[]]. apply in_map_iff in Hin. destruct Hin as (r & Hr & Hin).
    apply Hb in Hin. lia.
  - rewrite Forall_forall. intros r Hr. apply in_app_iff in Hr.
    destruct Hr as [Hr|[<-|[]]]; [apply Hb in Hr|simpl]; lia.
Qed.

Lemma delete_found l t d w i e :
  store_wf w ->
  find (fun r => sameKey l t d (snd r)) (rows w) = Some (i, e) ->
  filter (fun r => negb (fst r =? i)%N) (rows w)
  = filter (fun r => negb (sameKey l t d (snd r))) (rows w).
Proof.
  intros (Hk & Hi & _) Hfind. apply find_some in Hfind. destruct Hfind as [Hin Hkey].
  simpl in Hkey. apply filter_ext_in. intros r Hr. f_equal.
  destruct (N.eqb_spec (fst r) i) as [Heq|Hne].
  - assert (r = (i, e)) by (eapply NoDup_map_injective with (h := @fst N Entry); eauto).
    subst r. symmetry. assumption.
  - destruct (sameKey l t d (snd r)) eqn:Hs; [|reflexivity].
    assert (r = (i, e)); [|subst r; simpl in Hne; congruence].
    eapply NoDup_map_injective with (h := fun r => keyOf (snd r)); eauto.
    simpl. apply sameKey_spec in Hs, Hkey. congruence.
Qed.

Lemma resolveConflict_rows l w c :
  store_wf w ->
  resolveConflict l w c
  = mkWorld (filter (fun r => negb (conflicts l [c] (snd r))) (rows w))
            (key_gen w) (ticks w).
Proof.
  intros Hwf. unfold resolveConflict, conflicts. simpl.
  destruct (candidateKey c) as [[d t]|].
  - unfold findListEntryByPattern.
    destruct (find (fun r => sameKey l t d (snd r)) (rows w)) as [[i e]|] eqn:Hfind.
    + unfold deleteListEntry, store_delete. f_equal.
      rewrite (delete_found l t d w i e Hwf Hfind). apply filter_ext.
      intros r. rewrite orb_false_r. reflexivity.
    + destruct w as [rs k n]; simpl in *. f_equal. symmetry. apply filter_all.
      intros r Hr. rewrite orb_false_r. eapply find_none in Hfind; eauto.
      simpl in Hfind. rewrite Hfind. reflexivity.
  - destruct w as [rs k n]; simpl. f_equal. symmetry. apply filter_all. reflexivity.
Qed.

Lemma resolve_all l es w :
  store_wf w ->
  fold_left (resolveConflict l) es w
  = mkWorld (filter (fun r => negb (conflicts l es (snd r))) (rows w))
            (key_gen w) (ticks w).
Proof.
  revert w. induction es as [|c es IH]; intros w Hwf; simpl.
  - destruct w as [rs k n]; simpl. f_equal. symmetry. apply filter_all. reflexivity.
  - rewrite resolveConflict_rows by assumption.
    rewrite IH by (apply store_wf_filter; assumption). simpl. f_equal.
    rewrite filter_twice. apply filter_ext. intros r.
    unfold conflicts. simpl. rewrite orb_false_r, negb_orb. reflexivity.
Qed.

Lemma existsb_keyClash_keys e e' stored stored' :
  keyOf e = keyOf e' -> map keyOf stored = map keyOf stored' ->
  existsb (keyClash e) stored = existsb (keyClash e') stored'.
Proof.
  intros Hk. revert stored'.
  induction stored as [|x xs IH]; intros [|y ys] Hs; cbn [map existsb] in *;
    try discriminate; [reflexivity|].
  apply cons_eq_inv in Hs. destruct Hs as [Hxy Hrest]. f_equal; [|auto].
  apply keyClash_keyOf; assumption.
Qed.

Lemma insertable_keys es es' stored stored' :
  map keyOf es = map keyOf es' -> map keyOf stored = map keyOf stored' ->
  insertable es stored = insertable es' stored'.
Proof.
  revert es' stored stored'.
  induction es as [|e es IH]; intros [|e' es'] stored stored' He Hs;
    cbn [map insertable] in *; try discriminate; [reflexivity|].
  apply cons_eq_inv in He. destruct He as [Hk Hrest]. f_equal.
  - f_equal. apply existsb_keyClash_keys; assumption.
  - apply IH; [assumption|]. rewrite !map_app. cbn [map]. congruence.
Qed.

Lemma insertable_iff es : forall stored,
  insertable es stored = true
  <-> NoDup (map keyOf es)
      /\ (forall e x, In e es -> In x stored -> keyOf x <> keyOf e).
Proof.
  induction es as [|e es IH]; intros stored; cbn [insertable map].
  - split; [intros _; split; [constructor|intros ? ? []]|reflexivity].
  - rewrite andb_true_iff, negb_true_iff, IH. split.
    + intros (Hfree & Hnd & Hrest). split.
      * constructor; [|assumption]. intros Hin. apply in_map_iff in Hin.
        destruct Hin as (e' & Hk & Hin).
        apply (Hrest e' e Hin); [apply in_app_iff; right; left; reflexivity|].
        congruence.
      * intros a x [<-|Ha] Hx.
        -- intros Heq.
           assert (existsb (keyClash e) stored = true); [|congruence].
           apply existsb_exists. exists x. split; [assumption|].
           apply keyClash_spec. assumption.
        -- apply (Hrest a x Ha). apply in_app_iff. left. assumption.
    + intros (Hnd & Hfresh). inversion Hnd as [|? ? Hnin Hnd']; subst.
      split; [|split; [assumption|]].
      * destruct (existsb (keyClash e) stored) eqn:Hex; [|reflexivity].
        apply existsb_exists in Hex. destruct Hex as (x & Hx & Hc).
        apply keyClash_spec in Hc. exfalso.
        apply (Hfresh e x (or_introl eq_refl) Hx Hc).
      * intros a x Ha Hx. apply in_app_iff in Hx.
        destruct Hx as [Hx|[<-|[]]]; [apply Hfresh; [right|]; assumption|].
        intros Heq. apply Hnin. rewrite Heq. apply in_map. assumption.
Qed.

Lemma store_put_wf id e w w' :
  store_wf w -> store_put id e w = Some w' -> store_wf w'.
Proof.
  intros (Hk & Hi & Hb). unfold store_put.
  destruct (existsb (fun r => keyClash e (snd r) && negb (fst r =? id)%N) (rows w))
    eqn:Hex; [discriminate|].
  intros H. injection H as <-.
  assert (Hfree : forall r, In r (rows w) -> fst r <> id -> keyOf (snd r) <> keyOf e).
  { intros r Hr Hne Heq.
    assert (existsb (fun r => keyClash e (snd r) && negb (fst r =? id)%N) (rows w) = true);
      [|congruence].
    apply existsb_exists. exists r. split; [assumption|].
    apply andb_true_iff. split; [apply keyClash_spec; assumption|].
    apply negb_true_iff, N.eqb_neq. assumption. }
  assert (Hids : map fst (map (fun r : Row => if (fst r =? id)%N then (id, e) else r) (rows w))
                 = map fst (rows w)).
  { rewrite map_map. apply map_ext. intros r.
    destruct (N.eqb_spec (fst r) id) as [->|]; reflexivity. }
  repeat split; cbn [rows key_gen].
  - clear Hex Hb Hids. induction (rows w) as [|r rs IH]; cbn [map]; [constructor|].
    cbn [map] in Hk, Hi. inversion Hk as [|? ? Hnk Hk']; inversion Hi as [|? ? Hni Hi']; subst.
    assert (IH' := IH Hk' Hi' (fun r' Hr' => Hfree r' (or_intror Hr'))).
    constructor; [|exact IH'].
    intros Hin. rewrite map_map in Hin. apply in_map_iff in Hin.
    destruct Hin as (r' & Hkey & Hr').
    destruct (N.eqb_spec (fst r) id) as [Heq|Hne];
      destruct (N.eqb_spec (fst r') id) as [Heq'|Hne']; cbn [snd] in Hkey.
    + apply Hni. rewrite Heq, <- Heq'. apply in_map. assumption.
    + apply (Hfree r' (or_intror Hr') Hne'). assumption.
    + apply (Hfree r (or_introl eq_refl) Hne). symmetry. assumption.
    + apply Hnk. rewrite <- Hkey. apply (in_map (fun r => keyOf (snd r))). assumption.
  - rewrite Hids. assumption.
  - rewrite Forall_forall in *. intros r Hr. apply in_map_iff in Hr.
    destruct Hr as (r0 & <- & Hr0). specialize (Hb r0 Hr0).
    destruct (N.eqb_spec (fst r0) id) as [<-|]; assumption.
Qed.

End StoreFacts.

(** ** The stages of a bulk insert and of a merge *)

Section MergeFacts.

Context {P : Platform}.

Lemma withTimestamps_frame entry w :
  rows (snd (withTimestamps entry w)) = rows w
  /\ key_gen (snd (withTimestamps entry w)) = key_gen w
  /\ observable (fst (withTimestamps entry w)) = observable entry.
Proof.
  unfold withTimestamps, date_now.
  destruct (created_at (metadata entry)) as [c|]; [destruct (c =? 0)%Z|]; simpl; auto.
Qed.

Lemma stampAll_frame es w :
  rows (snd (stampAll es w)) = rows w
  /\ key_gen (snd (stampAll es w)) = key_gen w
  /\ map observable (fst (stampAll es w)) = map observable es.
Proof.
  revert w. induction es as [|e es IH]; intros w; simpl; [auto|].
  destruct (withTimestamps_frame e w) as (Hr & Hk & Ho).
  destruct (withTimestamps e w) as [e' w1]. simpl in *.
  destruct (IH w1) as (Hr' & Hk' & Ho').
  destruct (stampAll es w1) as [es' w2]. simpl in *.
  repeat split; congruence.
Qed.

Lemma prepareBackendEntries_frame l es w :
  rows (snd (prepareBackendEntries l es w)) = rows w
  /\ key_gen (snd (prepareBackendEntries l es w)) = key_gen w
  /\ map observable (fst (prepareBackendEntries l es w))
     = map (backendEntryView l) (accepted es).
Proof.
  revert w. induction es as [|c es IH]; intros w; simpl; [auto|].
  unfold accepts. destruct (candidateKey c) as [[d t]|]; [|apply IH].
  destruct ((t =? "domain") && negb (isStrictRegisteredDomain d)); [apply IH|].
  unfold date_now.
  set (w1 := mkWorld (rows w) (key_gen w) (S (ticks w))).
  destruct (IH w1) as (Hr & Hk & Ho).
  destruct (prepareBackendEntries l es w1) as [news w2]. simpl in *.
  repeat split; try assumption. f_equal. assumption.
Qed.

Lemma existsb_snd_rows (f : Entry -> bool) (rs : list Row) :
  existsb (fun r => f (snd r)) rs = existsb f (map snd rs).
Proof. induction rs as [|r rs IH]; simpl; congruence. Qed.

Lemma store_add_rows e w id w' :
  store_add e w = Some (id, w') ->
  rows w' = rows w ++ [(id, e)] /\ ticks w' = ticks w
  /\ existsb (keyClash e) (map snd (rows w)) = false.
Proof.
  unfold store_add. rewrite existsb_snd_rows.
  destruct (existsb (keyClash e) (map snd (rows w))); [discriminate|].
  intros H. injection H as <- <-. simpl. auto.
Qed.

Lemma store_add_fails e w :
  store_add e w = None -> existsb (keyClash e) (map snd (rows w)) = true.
Proof.
  unfold store_add. rewrite existsb_snd_rows.
  destruct (existsb (keyClash e) (map snd (rows w))); [reflexivity|discriminate].
Qed.

Lemma addAll_Some es : forall w ids w',
  addAll es w = Some (ids, w') ->
  rows w' = rows w ++ combine ids es
  /\ List.length ids = List.length es
  /\ ticks w' = ticks w
  /\ insertable es (map snd (rows w)) = true.
Proof.
  induction es as [|e es IH]; intros w ids w' H; simpl in H.
  - injection H as <- <-. simpl. rewrite app_nil_r. auto.
  - destruct (store_add e w) as [[id w1]|] eqn:Hadd; [|discriminate].
    destruct (addAll es w1) as [[ids' w2]|] eqn:Hrest; [|discriminate].
    injection H as <- <-.
    apply store_add_rows in Hadd. destruct Hadd as (Hr1 & Ht1 & Hfree).
    apply IH in Hrest. destruct Hrest as (Hr2 & Hlen & Ht2 & Hins).
    simpl. rewrite Hr2, Hr1, <- app_assoc. simpl.
    repeat split; try congruence.
    rewrite Hfree. simpl. rewrite Hr1, map_app in Hins. exact Hins.
Qed.

Lemma addAll_None es : forall w,
  addAll es w = None -> insertable es (map snd (rows w)) = false.
Proof.
  induction es as [|e es IH]; intros w H; simpl in H; [discriminate|].
  destruct (store_add e w) as [[id w1]|] eqn:Hadd.
  - destruct (addAll es w1) as [[ids' w2]|] eqn:Hrest; [discriminate|].
    apply store_add_rows in Hadd. destruct Hadd as (Hr1 & _ & Hfree).
    apply IH in Hrest. rewrite Hr1, map_app in Hrest. simpl in Hrest.
    cbn [insertable]. rewrite Hrest. apply andb_false_r.
  - apply store_add_fails in Hadd. cbn [insertable]. rewrite Hadd. reflexivity.
Qed.

Lemma addAll_wf es : forall w ids w',
  store_wf w -> addAll es w = Some (ids, w') -> store_wf w'.
Proof.
  induction es as [|e es IH]; intros w ids w' Hwf H; simpl in H.
  - injection H as <- <-. assumption.
  - destruct (store_add e w) as [[id w1]|] eqn:Hadd; [|discriminate].
    destruct (addAll es w1) as [[ids' w2]|] eqn:Hrest; [|discriminate].
    injection H as <- <-. eapply IH; [|eassumption]. eapply store_add_wf; eauto.
Qed.

Lemma bulkCreateListEntries_spec es w :
  exists stamped ids,
    map observable stamped = map observable es
    /\ List.length ids = List.length stamped
    /\ ((snd (bulkCreateListEntries es w) = Ok ids
         /\ rows (fst (bulkCreateListEntries es w)) = rows w ++ combine ids stamped
         /\ insertable stamped (map snd (rows w)) = true)
        \/ (snd (bulkCreateListEntries es w) = Err FailedToCreateBulkEntry
            /\ rows (fst (bulkCreateListEntries es w)) = rows w
            /\ insertable stamped (map snd (rows w)) = false)).
Proof.
  unfold bulkCreateListEntries.
  destruct (stampAll_frame es w) as (Hr & Hk & Ho).
  destruct (stampAll es w) as [stamped w1]. simpl in *.
  destruct (addAll stamped w1) as [[ids w2]|] eqn:Hadd.
  - apply addAll_Some in Hadd. destruct Hadd as (Hr2 & Hlen & _ & Hins).
    exists stamped, ids. simpl. rewrite Hr in *. auto 10.
  - apply addAll_None in Hadd.
    exists stamped, (repeat 0%N (List.length stamped)). simpl.
    rewrite repeat_length, Hr in *. auto 10.
Qed.

Lemma bulkCreateListEntries_wf es w :
  store_wf w -> store_wf (fst (bulkCreateListEntries es w)).
Proof.
  intros Hwf. unfold bulkCreateListEntries.
  destruct (stampAll_frame es w) as (Hr & Hk & _).
  destruct (stampAll es w) as [stamped w1]. simpl in *.
  assert (Hwf1 : store_wf w1) by (eapply store_wf_same_rows; eauto).
  destruct (addAll stamped w1) as [[ids w2]|] eqn:Hadd; simpl; [|assumption].
  eapply addAll_wf; eauto.
Qed.

(** The store after a merge: the survivors of steps 1 and 1b, followed by
    the accepted candidates when the bulk insert goes through. *)
Lemma mergeBackendList_spec l es w :
  store_wf w ->
  exists news ids,
    map observable news = map (backendEntryView l) (accepted es)
    /\ List.length ids = List.length news
    /\ ((snd (mergeBackendList l es w) = Ok tt
         /\ rows (fst (mergeBackendList l es w)) = survivors l es w ++ combine ids news
         /\ insertable news (map snd (survivors l es w)) = true)
        \/ (snd (mergeBackendList l es w) = Err FailedToCreateBulkEntry
            /\ rows (fst (mergeBackendList l es w)) = survivors l es w
            /\ insertable news (map snd (survivors l es w)) = false)).
Proof.
  intros Hwf. unfold mergeBackendList.
  assert (Hwf1 : store_wf (deleteAllEntriesInList l (Some backend) w))
    by (apply store_wf_filter; assumption).
  rewrite (resolve_all l es _ Hwf1).
  set (w2 := mkWorld _ _ _).
  assert (Hw2 : rows w2 = survivors l es w) by reflexivity.
  destruct (prepareBackendEntries_frame l es w2) as (Hr & Hk & Ho).
  rewrite Hw2 in Hr. clearbody w2.
  destruct (prepareBackendEntries l es w2) as [news w3].
  cbn [fst snd] in Hr, Hk, Ho.
  destruct news as [|n news].
  - exists [], []. split; [exact Ho|]. split; [reflexivity|].
    left. simpl. rewrite app_nil_r. auto.
  - destruct (bulkCreateListEntries_spec (n :: news) w3)
      as (stamped & ids & Hobs & Hlen & Hcases).
    exists stamped, ids.
    destruct (bulkCreateListEntries (n :: news) w3) as [w4 [ids'|err]];
      cbn [fst snd] in Hcases; rewrite Hr in Hcases;
      (split; [congruence|]); (split; [assumption|]);
      destruct Hcases as [(Hres & Hrows & Hins)|(Hres & Hrows & Hins)];
      try discriminate; simpl.
    + left. auto.
    + right. injection Hres as ->. auto.
Qed.

Lemma mergeBackendList_wf l es w :
  store_wf w -> store_wf (fst (mergeBackendList l es w)).
Proof.
  intros Hwf. unfold mergeBackendList.
  assert (Hwf1 : store_wf (deleteAllEntriesInList l (Some backend) w))
    by (apply store_wf_filter; assumption).
  rewrite (resolve_all l es _ Hwf1).
  set (w2 := mkWorld _ _ _).
  assert (Hwf2 : store_wf w2) by (unfold w2; apply store_wf_filter; assumption).
  clearbody w2.
  destruct (prepareBackendEntries_frame l es w2) as (Hr & Hk & _).
  destruct (prepareBackendEntries l es w2) as [news w3]. cbn [fst snd] in Hr, Hk.
  assert (Hwf3 : store_wf w3) by (eapply store_wf_same_rows; eauto).
  destruct news as [|n news]; simpl; [assumption|].
  pose proof (bulkCreateListEntries_wf (n :: news) w3 Hwf3) as Hwf4.
  destruct (bulkCreateListEntries (n :: news) w3) as [w4 [ids'|err]]; exact Hwf4.
Qed.

End MergeFacts.

Lemma sample_world_wf : store_wf sample_world.
Proof.
  unfold store_wf, sample_world. simpl.
  repeat split; repeat constructor; simpl; try lia;
    intros H; repeat (destruct H as [H|H]; try discriminate); assumption.
Qed.

(** ** Properties of the backend merge *)

Section MergeProperties.

Context {P : Platform}.

Lemma survivors_In l es w r :
  In r (survivors l es w)
  <-> In r (rows w) /\ backendIn l (snd r) = false /\ conflicts l es (snd r) = false.
Proof.
  unfold survivors. rewrite !filter_In, !negb_true_iff. tauto.
Qed.

Lemma conflicts_candidate l es c d t e :
  In c es -> candidateKey c = Some (d, t) -> keyOf e = (l, t, d) ->
  conflicts l es e = true.
Proof.
  intros Hin Hc Hk. unfold conflicts. apply existsb_exists.
  exists c. split; [assumption|]. rewrite Hc. apply sameKey_spec. assumption.
Qed.

Lemma conflicts_false l es e :
  (forall c d t, In c es -> c_domain c = Some d -> c_pattern_type c = Some t ->
                 keyOf e <> (l, t, d)) ->
  conflicts l es e = false.
Proof.
  intros H. unfold conflicts.
  destruct (existsb _ es) eqn:Hex; [|reflexivity].
  apply existsb_exists in Hex. destruct Hex as (c & Hin & Hc).
  unfold candidateKey in Hc.
  destruct (c_domain c) as [d|] eqn:Hd; [|discriminate].
  destruct (c_pattern_type c) as [t|] eqn:Ht; [|discriminate].
  destruct (JS.truthy d && JS.truthy t); [|discriminate].
  apply sameKey_spec in Hc. exfalso. eapply H; eauto.
Qed.

Lemma candidateKey_Some c d t :
  c_domain c = Some d -> c_pattern_type c = Some t -> d <> "" -> t <> "" ->
  candidateKey c = Some (d, t).
Proof.
  intros Hd Ht Hdne Htne. unfold candidateKey, JS.truthy. rewrite Hd, Ht.
  apply String.eqb_neq in Hdne, Htne. rewrite Hdne, Htne. reflexivity.
Qed.


Lemma accepted_inv es k :
  In k (accepted es) -> exists c, In c es /\ accepts c = Some k.
Proof.
  induction es as [|a es IH]; simpl; intros Hin; [contradiction|].
  destruct (accepts a) as [k'|] eqn:Ha.
  - destruct Hin as [->|Hin]; [exists a; auto|].
    destruct (IH Hin) as (c & Hc & Hacc). exists c. auto.
  - destruct (IH Hin) as (c & Hc & Hacc). exists c. auto.
Qed.

Lemma observable_keyOf (l l' : list Entry) :
  map observable l = map observable l' -> map keyOf l = map keyOf l'.
Proof.
  intros H. apply (f_equal (map fst)) in H. rewrite !map_map in H. exact H.
Qed.



Lemma news_source (l : string) (news : list Entry) (ks : list (string * PatternType)) e :
  map observable news = map (backendEntryView l) ks -> In e news ->
  exists k, In k ks /\ observable e = backendEntryView l k.
Proof.
  intros Hobs Hin. apply (in_map observable) in Hin. rewrite Hobs in Hin.
  apply in_map_iff in Hin. destruct Hin as (k & Hk & Hin). exists k. auto.
Qed.


Lemma accepts_candidateKey c k : accepts c = Some k -> candidateKey c = Some k.
Proof.
  unfold accepts. destruct (candidateKey c) as [[d t]|]; [|discriminate].
  destruct ((t =? "domain") && negb (isStrictRegisteredDomain d)); [discriminate|].
  intros H. exact H.
Qed.

Lemma backendKey_injective (l : string) (ks : list (string * PatternType)) :
  NoDup (map (fun k : string * string => (l, snd k, fst k)) ks) <-> NoDup ks.
Proof.
  split; [apply NoDup_map_inv|].
  intros Hnd. induction Hnd as [|k ks Hnin Hnd IH]; cbn [map]; constructor; [|assumption].
  intros Hin. apply in_map_iff in Hin. destruct Hin as ([d t] & Heq & Hin).
  destruct k as [d' t']. cbn [fst snd] in Heq. apply Hnin. congruence.
Qed.

(** The merge completes exactly when the candidates it accepts have distinct
    keys; otherwise the bulk insert aborts and the merge rejects. *)
Lemma mergeBackendList_completes l es w :
  store_wf w ->
  (snd (mergeBackendList l es w) = Ok tt <-> NoDup (accepted es)).
Proof.
  intros Hwf.
  destruct (mergeBackendList_spec l es w Hwf) as (news & ids & Hobs & _ & Hcases).
  assert (Hkeys : map keyOf news = map (fun k : string * string => (l, snd k, fst k)) (accepted es)).
  { apply (f_equal (map fst)) in Hobs. rewrite !map_map in Hobs. exact Hobs. }
  assert (Hfresh : forall e x, In e news -> In x (map snd (survivors l es w)) ->
                               keyOf x <> keyOf e).
  { intros e x He Hx Heq. apply in_map_iff in Hx. destruct Hx as (r & <- & Hr).
    apply survivors_In in Hr. destruct Hr as (_ & _ & Hnc).
    apply (in_map keyOf) in He. rewrite Hkeys in He. apply in_map_iff in He.
    destruct He as ([d t] & Hk & Hin). cbn [fst snd] in Hk.
    apply accepted_inv in Hin. destruct Hin as (c & Hc & Hacc).
    apply accepts_candidateKey in Hacc.
    rewrite (conflicts_candidate l es c d t (snd r) Hc Hacc) in Hnc; [discriminate|].
    congruence. }
  rewrite <- (backendKey_injective l), <- Hkeys.
  destruct Hcases as [(Hres & _ & Hins)|(Hres & _ & Hins)]; rewrite Hres.
  - apply insertable_iff in Hins. tauto.
  - split; [discriminate|]. intros Hnd.
    assert (insertable news (map snd (survivors l es w)) = true); [|congruence].
    apply insertable_iff. auto.
Qed.


Lemma hasSource_backend_local e :
  source e = Some user \/ source e = Some generated -> hasSource backend e = false.
Proof. unfold hasSource. intros [-> | ->]; reflexivity. Qed.

(** C2 (source preservation).  A merge leaves every ['user'] or ['generated']
    entry of the list in the store as it was, unless its key is the key of some
    candidate of the batch; a merge with the empty batch removes every
    ['backend'] entry of the list and keeps every ['user'] and ['generated']
    one. *)
Theorem merge_preserves_local_entries (l : string) (es : list Candidate) (w : World) :
  store_wf w ->
  (forall i e,
      In (i, e) (rows w) -> list_name e = l ->
      source e = Some user \/ source e = Some generated ->
      (forall c d t, In c es -> c_domain c = Some d -> c_pattern_type c = Some t ->
                     keyOf e <> (l, t, d)) ->
      In (i, e) (rows (fst (mergeBackendList l es w))))
  /\ (forall i e,
         In (i, e) (rows w) -> list_name e = l -> source e = Some backend ->
         ~ In (i, e) (rows (fst (mergeBackendList l [] w))))
  /\ (forall i e,
         In (i, e) (rows w) -> list_name e = l ->
         source e = Some user \/ source e = Some generated ->
         In (i, e) (rows (fst (mergeBackendList l [] w)))).
Proof.
  intros Hwf.
  assert (Hkeep : forall es' i e,
             In (i, e) (rows w) ->
             source e = Some user \/ source e = Some generated ->
             conflicts l es' e = false ->
             In (i, e) (rows (fst (mergeBackendList l es' w)))).
  { intros es' i e Hin Hsrc Hnc.
    assert (Hs : In (i, e) (survivors l es' w)).
    { apply survivors_In. simpl. unfold backendIn.
      rewrite (hasSource_backend_local e Hsrc), andb_false_r. auto. }
    destruct (mergeBackendList_spec l es' w Hwf) as (news & ids & _ & _ & Hcases).
    destruct Hcases as [(_ & -> & _)|(_ & -> & _)]; [apply in_app_iff; left|]; assumption. }
  split; [|split].
  - intros i e Hin _ Hsrc Hfree. apply Hkeep; try assumption.
    apply conflicts_false. assumption.
  - intros i e Hin Hl Hsrc Hin'.
    destruct (mergeBackendList_spec l [] w Hwf) as (news & ids & Hobs & Hlen & Hcases).
    destruct news; [|discriminate]. destruct ids; [|discriminate].
    assert (Hs : In (i, e) (survivors l [] w)).
    { destruct Hcases as [(_ & Hr & _)|(_ & Hr & _)]; rewrite Hr in Hin';
        [rewrite app_nil_r in Hin'|]; assumption. }
    apply survivors_In in Hs. destruct Hs as (_ & Hb & _). simpl in Hb.
    unfold backendIn, hasSource in Hb. rewrite Hsrc, Hl, String.eqb_refl in Hb.
    discriminate.
  - intros i e Hin _ Hsrc. apply Hkeep; try assumption. reflexivity.
Qed.

Lemma survivors_of_merged l es w (extra_rows : list Row) :
  (forall r, In r extra_rows -> backendIn l (snd r) = true) ->
  filter (fun r => negb (conflicts l es (snd r)))
         (filter (fun r => negb (backendIn l (snd r))) (survivors l es w ++ extra_rows))
  = survivors l es w.
Proof.
  intros Hx. rewrite !filter_app.
  rewrite (filter_none _ (fun r : Row => negb (backendIn l (snd r))) extra_rows).
  - rewrite app_nil_r.
    rewrite (filter_all _ (fun r : Row => negb (backendIn l (snd r))) (survivors l es w)).
    + apply filter_all. intros r Hr. apply survivors_In in Hr.
      destruct Hr as (_ & _ & ->). reflexivity.
    + intros r Hr. apply survivors_In in Hr. destruct Hr as (_ & -> & _). reflexivity.
  - intros r Hr. rewrite (Hx r Hr). reflexivity.
Qed.

Lemma inserted_are_backend l ks (ids : list N) (news : list Entry) :
  map observable news = map (backendEntryView l) ks ->
  forall r, In r (combine ids news) -> backendIn l (snd r) = true.
Proof.
  intros Hobs [i e] Hin. apply in_combine_r in Hin.
  destruct (news_source l news ks e Hobs Hin) as (k & _ & Hview).
  unfold observable, backendEntryView in Hview. simpl.
  unfold backendIn, hasSource.
  assert (Hl : list_name e = l) by congruence.
  assert (Hs : source e = Some backend) by congruence.
  rewrite Hl, Hs, String.eqb_refl. reflexivity.
Qed.

(** C10 (conflict resolution precedes validation).  When the batch holds a
    ['domain'] candidate whose pattern is not a strict registrable domain and a
    ['user'] entry is stored at the candidate's key, the conflict-resolution
    loop deletes that entry, the candidate is not accepted, and the merge ends
    with no entry at the key. *)
Theorem merge_invalid_domain_candidate_clears_key (l p : string) (es : list Candidate)
    (w : World) (i : N) (e : Entry) (c : Candidate) :
  store_wf w ->
  In (i, e) (rows w) -> keyOf e = (l, "domain", p) -> source e = Some user ->
  In c es -> c_domain c = Some p -> c_pattern_type c = Some "domain" ->
  p <> "" -> isStrictRegisteredDomain p = false ->
  entriesAt l "domain" p
    (fold_left (resolveConflict l) es (deleteAllEntriesInList l (Some backend) w)) = []
  /\ accepts c = None
  /\ ~ In (i, e) (rows (fst (mergeBackendList l es w)))
  /\ entriesAt l "domain" p (fst (mergeBackendList l es w)) = [].
Proof.
  intros Hwf Hin Hkey Hsrc Hc Hd Ht Hne Hstrict.
  assert (Hck : candidateKey c = Some (p, "domain"))
    by (apply candidateKey_Some; auto; discriminate).
  assert (Hgone : forall r, In r (survivors l es w) -> keyOf (snd r) <> (l, "domain", p)).
  { intros r Hr Hk. apply survivors_In in Hr. destruct Hr as (_ & _ & Hnc).
    rewrite (conflicts_candidate l es c p "domain" (snd r) Hc Hck Hk) in Hnc.
    discriminate. }
  assert (Hnone : forall k, In k (accepted es) -> k <> (p, "domain")).
  { intros k Hk ->. apply accepted_inv in Hk. destruct Hk as (c' & _ & Hacc).
    unfold accepts in Hacc. destruct (candidateKey c') as [[d t]|]; [|discriminate].
    destruct ((t =? "domain") && negb (isStrictRegisteredDomain d)) eqn:Hguard;
      [discriminate|].
    injection Hacc as -> ->. rewrite Hstrict in Hguard. discriminate. }
  destruct (mergeBackendList_spec l es w Hwf) as (news & ids & Hobs & Hlen & Hcases).
  assert (Hrows : forall r, In r (rows (fst (mergeBackendList l es w))) ->
                            keyOf (snd r) <> (l, "domain", p)).
  { intros r Hr.
    assert (Hor : In r (survivors l es w) \/ In r (combine ids news)).
    { destruct Hcases as [(_ & Hrw & _)|(_ & Hrw & _)]; rewrite Hrw in Hr;
        [apply in_app_iff in Hr|]; tauto. }
    destruct Hor as [Hs|Hn]; [apply Hgone; assumption|].
    destruct r as [j e']. apply in_combine_r in Hn.
    destruct (news_source l news (accepted es) e' Hobs Hn) as (k & Hk & Hview).
    intros Hk'. apply (Hnone k Hk). destruct k as [d t].
    unfold observable, backendEntryView in Hview. unfold keyOf in Hk'.
    cbn [fst snd] in Hview, Hk'. congruence. }
  split; [|split; [|split]].
  - rewrite resolve_all by (apply store_wf_filter; assumption).
    unfold entriesAt. simpl. apply filter_none. intros r Hr.
    destruct (sameKey l "domain" p (snd r)) eqn:Hs; [|reflexivity].
    exfalso. apply (Hgone r Hr). apply sameKey_spec. assumption.
  - unfold accepts. rewrite Hck, Hstrict. reflexivity.
  - intros Hin'. apply (Hrows _ Hin'). assumption.
  - unfold entriesAt. apply filter_none. intros r Hr.
    destruct (sameKey l "domain" p (snd r)) eqn:Hs; [|reflexivity].
    exfalso. apply (Hrows r Hr). apply sameKey_spec. assumption.
Qed.

End MergeProperties.



Lemma merge_preserves_local_entries_witness :
  In (3%N, sample_subdomain_entry)
     (rows (fst (@mergeBackendList Demo.platform "blocklist"
                   [sample_candidate "example.com" "host"] sample_world)))
  /\ ~ In (2%N, sample_backend_entry)
         (rows (fst (@mergeBackendList Demo.platform "blocklist" [] sample_world)))
  /\ In (1%N, sample_user_entry)
        (rows (fst (@mergeBackendList Demo.platform "blocklist" [] sample_world))).
Proof.
  destruct (@merge_preserves_local_entries Demo.platform "blocklist"
              [sample_candidate "example.com" "host"] sample_world sample_world_wf)
    as (Hkeep & Hdrop & Hstay).
  split; [|split].
  - apply Hkeep.
    + simpl. auto.
    + reflexivity.
    + left. reflexivity.
    + intros c d t [<-|[]] Hd Ht. simpl in Hd, Ht.
      injection Hd as <-. injection Ht as <-. discriminate.
  - apply Hdrop.
    + simpl. auto.
    + reflexivity.
    + reflexivity.
  - apply Hstay.
    + simpl. auto.
    + reflexivity.
    + left. reflexivity.
Defined.

Lemma merge_invalid_domain_candidate_clears_key_witness :
  entriesAt "blocklist" "domain" "mail.google.com"
    (fold_left (resolveConflict "blocklist")
       [sample_candidate "mail.google.com" "domain"]
       (deleteAllEntriesInList "blocklist" (Some backend) sample_world)) = []
  /\ @accepts Demo.platform (sample_candidate "mail.google.com" "domain") = None
  /\ ~ In (3%N, sample_subdomain_entry)
         (rows (fst (@mergeBackendList Demo.platform "blocklist"
                       [sample_candidate "mail.google.com" "domain"] sample_world)))
  /\ entriesAt "blocklist" "domain" "mail.google.com"
       (fst (@mergeBackendList Demo.platform "blocklist"
               [sample_candidate "mail.google.com" "domain"] sample_world)) = [].
Proof.
  apply (@merge_invalid_domain_candidate_clears_key Demo.platform
           "blocklist" "mail.google.com"
           [sample_candidate "mail.google.com" "domain"] sample_world
           3%N sample_subdomain_entry (sample_candidate "mail.google.com" "domain")).
  - exact sample_world_wf.
  - simpl. auto.
  - reflexivity.
  - reflexivity.
  - simpl. auto.
  - reflexivity.
  - reflexivity.
  - discriminate.
  - vm_compute. reflexivity.
Defined.

(** ** Properties of the pattern matcher *)

Lemma prefix_cons a s1 b s2 :
  prefix (String a s1) (String b s2) = Ascii.eqb a b && prefix s1 s2.
Proof.
  simpl. destruct (ascii_dec a b) as [->|Hne].
  - rewrite Ascii.eqb_refl. reflexivity.
  - apply Ascii.eqb_neq in Hne. rewrite Hne. reflexivity.
Qed.

Lemma prefix_empty s : prefix "" s = true.
Proof. destruct s; reflexivity. Qed.

Lemma index_slash_head s :
  index 0 "/" s = None -> prefix "/" s = false.
Proof.
  destruct s as [|b s]; [reflexivity|]. cbn [index].
  destruct (prefix "/" (String b s)); [discriminate|reflexivity].
Qed.

Lemma no_slash_no_scheme s :
  JS.includes "/" s = false -> JS.includes "://" s = false.
Proof.
  unfold JS.includes, JS.indexOf.
  induction s as [|b s IH]; [reflexivity|].
  cbn [index].
  destruct (prefix "/" (String b s)) eqn:Hp; [discriminate|].
  destruct (index 0 "/" s) as [n|] eqn:Hi; [discriminate|]. intros _.
  assert (Hs : prefix "://" (String b s) = false).
  { rewrite prefix_cons. destruct s as [|c s]; [apply andb_false_r|].
    rewrite prefix_cons. apply index_slash_head in Hi. rewrite prefix_cons in Hi.
    rewrite prefix_empty, andb_true_r in Hi. rewrite Hi.
    apply andb_false_r. }
  rewrite Hs. specialize (IH eq_refl).
  destruct (index 0 "://" s); [discriminate|reflexivity].
Qed.

(** *** Trimming *)

Lemma string_app_assoc (a b c : string) : ((a ++ b) ++ c = a ++ (b ++ c))%string.
Proof. induction a as [|x a IH]; simpl; [reflexivity|]. rewrite IH. reflexivity. Qed.

Lemma string_app_nil_r (s : string) : (s ++ "" = s)%string.
Proof. induction s as [|x s IH]; simpl; [reflexivity|]. rewrite IH. reflexivity. Qed.

Lemma string_app_length (a b : string) :
  String.length (a ++ b) = (String.length a + String.length b)%nat.
Proof. induction a as [|x a IH]; simpl; [reflexivity|]. rewrite IH. reflexivity. Qed.

Lemma prefix_app (p r : string) : prefix p (p ++ r) = true.
Proof.
  induction p as [|x p IH]; simpl; [destruct r; reflexivity|].
  destruct (ascii_dec x x); [assumption|congruence].
Qed.

Lemma prefix_dropPrefix (p : string) : forall s,
  prefix p s = true -> s = (p ++ JS.dropPrefix p s)%string.
Proof.
  induction p as [|x p IH]; intros [|y s]; simpl; try reflexivity; try discriminate.
  destruct (ascii_dec x y) as [->|]; [|discriminate].
  intros H. rewrite <- (IH s H). reflexivity.
Qed.

Lemma dropPrefix_app (p r : string) : JS.dropPrefix p (p ++ r) = r.
Proof. induction p as [|x p IH]; simpl; [destruct r; reflexivity|assumption]. Qed.

Lemma prefix_comparable (p : string) : forall q s,
  prefix p s = true -> prefix q s = true -> prefix p q = true \/ prefix q p = true.
Proof.
  induction p as [|x p IH]; intros q s Hp Hq.
  - left. destruct q; reflexivity.
  - destruct q as [|y q]; [right; reflexivity|].
    destruct s as [|z s]; [discriminate|]. simpl in Hp, Hq |- *.
    destruct (ascii_dec x z) as [->|]; [|discriminate].
    destruct (ascii_dec y z) as [->|]; [|discriminate].
    destruct (ascii_dec z z); [|congruence].
    apply (IH q s); assumption.
Qed.

Lemma whiteSpace_prefix_free t1 t2 :
  In t1 JS.whiteSpace -> In t2 JS.whiteSpace -> prefix t1 t2 = true -> t1 = t2.
Proof.
  assert (H : forallb (fun a => forallb (fun b => implb (prefix a b) (a =? b))
                                        JS.whiteSpace) JS.whiteSpace = true)
    by (vm_compute; reflexivity).
  intros H1 H2 Hp. rewrite forallb_forall in H. specialize (H t1 H1).
  rewrite forallb_forall in H. specialize (H t2 H2). rewrite Hp in H.
  apply String.eqb_eq. exact H.
Qed.

Lemma whiteSpace_not_empty tok : In tok JS.whiteSpace -> (1 <= String.length tok)%nat.
Proof.
  assert (H : forallb (fun a => (1 <=? String.length a)%nat) JS.whiteSpace = true)
    by (vm_compute; reflexivity).
  intros Hin. rewrite forallb_forall in H. apply Nat.leb_le. apply H. assumption.
Qed.

Lemma leadingSpace_Some s r :
  JS.leadingSpace s = Some r ->
  exists tok, In tok JS.whiteSpace /\ s = (tok ++ r)%string.
Proof.
  unfold JS.leadingSpace.
  destruct (find (fun tok => prefix tok s) JS.whiteSpace) as [tok|] eqn:Hf; [|discriminate].
  intros H. injection H as <-. apply find_some in Hf. destruct Hf as [Hin Hp].
  exists tok. split; [assumption|]. apply prefix_dropPrefix. assumption.
Qed.

Lemma leadingSpace_None s :
  JS.leadingSpace s = None ->
  forall tok rest, In tok JS.whiteSpace -> s <> (tok ++ rest)%string.
Proof.
  unfold JS.leadingSpace.
  destruct (find (fun tok => prefix tok s) JS.whiteSpace) as [tok|] eqn:Hf; [discriminate|].
  intros _ tok rest Hin ->.
  pose proof (find_none _ _ Hf tok Hin) as H. simpl in H.
  rewrite prefix_app in H. discriminate.
Qed.

Lemma leadingSpace_app tok rest :
  In tok JS.whiteSpace -> JS.leadingSpace (tok ++ rest) = Some rest.
Proof.
  intros Hin. destruct (JS.leadingSpace (tok ++ rest)) as [r|] eqn:Hl.
  - destruct (leadingSpace_Some _ _ Hl) as (tok' & Hin' & Heq).
    assert (Hsame : tok' = tok).
    { destruct (prefix_comparable tok' tok (tok ++ rest)) as [H|H].
      - rewrite Heq. apply prefix_app.
      - apply prefix_app.
      - apply whiteSpace_prefix_free; assumption.
      - symmetry. apply whiteSpace_prefix_free; assumption. }
    subst tok'. f_equal.
    rewrite <- (dropPrefix_app tok r), <- Heq. apply dropPrefix_app.
  - exfalso. exact (leadingSpace_None _ Hl tok rest Hin eq_refl).
Qed.

Lemma trimStartFuel_spec (n : nat) : forall s,
  (String.length s <= n)%nat ->
  exists pre,
    s = (pre ++ JS.trimStartFuel n s)%string
    /\ WhiteSpaceOnly pre
    /\ JS.leadingSpace (JS.trimStartFuel n s) = None.
Proof.
  induction n as [|n IH]; intros s Hlen.
  - destruct s; [|simpl in Hlen; lia]. exists "". simpl.
    split; [reflexivity|]. split; [constructor|]. vm_compute. reflexivity.
  - simpl. destruct (JS.leadingSpace s) as [r|] eqn:Hl.
    + destruct (leadingSpace_Some _ _ Hl) as (tok & Hin & ->).
      pose proof (whiteSpace_not_empty tok Hin) as Hne.
      rewrite string_app_length in Hlen.
      destruct (IH r ltac:(lia)) as (pre & Heq & Hws & Hnone).
      exists (tok ++ pre)%string. split; [|split].
      * rewrite string_app_assoc, <- Heq. reflexivity.
      * constructor; assumption.
      * assumption.
    + exists "". split; [reflexivity|]. split; [constructor|assumption].
Qed.

Lemma trimStart_spec s :
  exists pre,
    s = (pre ++ JS.trimStart s)%string
    /\ WhiteSpaceOnly pre
    /\ JS.leadingSpace (JS.trimStart s) = None.
Proof. apply trimStartFuel_spec. apply le_n. Qed.

Lemma trimStartFuel_white x :
  WhiteSpaceOnly x -> forall n, (String.length x <= n)%nat -> JS.trimStartFuel n x = "".
Proof.
  induction 1 as [|tok rest Hin Hws IH]; intros n Hlen.
  - destruct n; reflexivity.
  - pose proof (whiteSpace_not_empty tok Hin) as Hne.
    rewrite string_app_length in Hlen.
    destruct n as [|n]; [lia|]. simpl.
    rewrite (leadingSpace_app tok rest Hin). apply IH. lia.
Qed.

Lemma trimStart_white x : WhiteSpaceOnly x -> JS.trimStart x = "".
Proof. intros H. apply trimStartFuel_white; [assumption|apply le_n]. Qed.

Lemma trimEnd_spec s :
  exists post,
    s = (JS.trimEnd s ++ post)%string
    /\ WhiteSpaceOnly post
    /\ forall tok init, In tok JS.whiteSpace -> JS.trimEnd s <> (init ++ tok)%string.
Proof.
  induction s as [|c r (post & Heq & Hws & Hend)].
  - exists "". split; [reflexivity|]. split; [constructor|].
    intros tok init Hin H. pose proof (whiteSpace_not_empty tok Hin) as Hne.
    apply (f_equal String.length) in H. rewrite string_app_length in H. simpl in H. lia.
  - cbn [JS.trimEnd]. destruct (JS.trimStart (String c r) =? "") eqn:Hall.
    + apply String.eqb_eq in Hall.
      destruct (trimStart_spec (String c r)) as (pre & Hpre & Hwpre & _).
      rewrite Hall, string_app_nil_r in Hpre.
      exists (String c r). split; [reflexivity|]. split; [rewrite Hpre; assumption|].
      intros tok init Hin H. pose proof (whiteSpace_not_empty tok Hin) as Hne.
      apply (f_equal String.length) in H. rewrite string_app_length in H. simpl in H. lia.
    + exists post. split; [simpl; rewrite <- Heq; reflexivity|]. split; [assumption|].
      intros tok init Hin H. destruct init as [|c' init].
      * simpl in H. apply String.eqb_neq in Hall. apply Hall.
        apply trimStart_white.
        replace (String c r) with (tok ++ post)%string.
        -- constructor; assumption.
        -- rewrite <- H. simpl. rewrite <- Heq. reflexivity.
      * simpl in H. injection H as _ H. exact (Hend tok init Hin H).
Qed.

Lemma trim_spec s : TrimOf s (JS.trim s).
Proof.
  unfold JS.trim.
  destruct (trimStart_spec s) as (pre & Hpre & Hwpre & Hnone).
  destruct (trimEnd_spec (JS.trimStart s)) as (post & Hpost & Hwpost & Hend).
  exists pre, post. split; [|split; [assumption|split; [assumption|split]]].
  - rewrite <- Hpost. assumption.
  - intros tok rest Hin H.
    apply (leadingSpace_None _ Hnone tok (rest ++ post)%string Hin).
    rewrite Hpost at 1. rewrite H. apply string_app_assoc.
  - assumption.
Qed.

Section MatcherProperties.

Context {P : Platform}.

(** C4 (the matcher never throws).  [matchesPattern] returns a boolean for
    every input: whatever is raised inside it yields [false]; a [url] that is
    not a valid absolute URL yields [false] for every pattern and pattern type;
    a ['regex'] pattern that does not compile yields [false]. *)
Theorem matchesPattern_never_throws (url pattern : string) (patternType : PatternType) :
  (matchesPattern_try url pattern patternType = None ->
   matchesPattern url pattern patternType = false)
  /\ (URL_new url = None -> matchesPattern url pattern patternType = false)
  /\ (patternType = "regex" -> RegExp_new pattern = None ->
      matchesPattern url pattern patternType = false).
Proof.
  unfold matchesPattern. split; [|split].
  - intros ->. reflexivity.
  - intros Hurl. unfold matchesPattern_try. rewrite Hurl. reflexivity.
  - intros -> Hre. unfold matchesPattern_try.
    destruct (URL_new url); [|reflexivity]. simpl. rewrite Hre. reflexivity.
Qed.

Lemma strict_pattern_is_its_domain pattern :
  isStrictRegisteredDomain pattern = true ->
  psl_parse (normalizeLeadingWww (JS.trim pattern))
  = PslParsed (Some (normalizeLeadingWww (JS.trim pattern)))
  /\ JS.truthy (normalizeLeadingWww (JS.trim pattern)) = true.
Proof.
  unfold isStrictRegisteredDomain.
  set (candidate := normalizeLeadingWww (JS.trim pattern)).
  destruct (JS.includes "://" candidate || JS.includes "/" candidate); [discriminate|].
  destruct (psl_parse candidate) as [|[d|]]; try discriminate.
  destruct (JS.truthy d) eqn:Ht; simpl; [|discriminate].
  intros Heq. apply String.eqb_eq in Heq. subst d. auto.
Qed.

Lemma substring_all (s : string) : substring 0 (String.length s) s = s.
Proof. induction s as [|c s IH]; simpl; [reflexivity|]. rewrite IH. reflexivity. Qed.

Lemma sliceFrom_www (rest : string) : JS.sliceFrom 4 ("www." ++ rest) = rest.
Proof.
  unfold JS.sliceFrom. simpl. rewrite Nat.sub_0_r. apply substring_all.
Qed.

Lemma NormalizedHost_unique host key :
  NormalizedHost host key -> key = normalizeLeadingWww host.
Proof.
  unfold normalizeLeadingWww, JS.startsWith.
  intros [(rest & Hlow & ->)|[Hno ->]].
  - rewrite Hlow, prefix_app. symmetry. apply sliceFrom_www.
  - rewrite Hno. reflexivity.
Qed.

Lemma normalizeLeadingWww_spec host : NormalizedHost host (normalizeLeadingWww host).
Proof.
  unfold normalizeLeadingWww, JS.startsWith.
  destruct (prefix "www." (toLowerCase host)) eqn:Hp.
  - left. exists (JS.dropPrefix "www." (toLowerCase host)).
    pose proof (prefix_dropPrefix "www." (toLowerCase host) Hp) as Heq.
    split; [assumption|]. rewrite Heq at 1. apply sliceFrom_www.
  - right. auto.
Qed.

(** C5 (['domain'] patterns).  A pattern that is not a strict registrable
    domain matches no URL; a strict one matches exactly the URLs whose
    hostname has as its registrable domain the pattern trimmed of white
    space, put in lower case and without a leading [www.], so that
    [google.com] matches [https://mail.google.com/inbox]. *)
Theorem matchesPattern_domain (url pattern : string) :
  TrimOf pattern (JS.trim pattern)
  /\ (isStrictRegisteredDomain pattern = false ->
      matchesPattern url pattern "domain" = false)
  /\ (isStrictRegisteredDomain pattern = true ->
      forall key,
        NormalizedHost (JS.trim pattern) key ->
        (matchesPattern url pattern "domain" = true
         <-> exists urlObj,
               URL_new url = Some urlObj
               /\ psl_parse (hostname urlObj) = PslParsed (Some key)))
  /\ (toLowerCase "google.com" = "google.com" ->
      URL_new "https://mail.google.com/inbox" = Some (mkURL "mail.google.com" "/inbox") ->
      psl_parse "mail.google.com" = PslParsed (Some "google.com") ->
      psl_parse "google.com" = PslParsed (Some "google.com") ->
      matchesPattern "https://mail.google.com/inbox" "google.com" "domain" = true).
Proof.
  split; [apply trim_spec|]. split; [|split].
  - intros Hstrict. unfold matchesPattern, matchesPattern_try.
    destruct (URL_new url); [|reflexivity]. simpl. rewrite Hstrict. reflexivity.
  - intros Hstrict key Hkey. apply NormalizedHost_unique in Hkey. subst key.
    destruct (strict_pattern_is_its_domain pattern Hstrict) as [_ Htruthy].
    unfold matchesPattern, matchesPattern_try.
    destruct (URL_new url) as [urlObj|].
    + simpl. rewrite Hstrict. simpl. split.
      * intros H. exists urlObj. split; [reflexivity|].
        destruct (psl_parse (hostname urlObj)) as [|[d|]]; try discriminate.
        destruct (JS.truthy d); simpl in H; [|discriminate].
        apply String.eqb_eq in H. congruence.
      * intros (u & Hu & Hpsl). injection Hu as <-. rewrite Hpsl, Htruthy. simpl.
        apply String.eqb_refl.
    + split; [discriminate|]. intros (u & Hu & _). discriminate.
  - intros Hlow Hurl Hhost Hdom. unfold matchesPattern, matchesPattern_try.
    rewrite Hurl. simpl.
    assert (Hn : normalizeLeadingWww (JS.trim "google.com") = "google.com").
    { change (JS.trim "google.com") with "google.com".
      unfold normalizeLeadingWww. rewrite Hlow. reflexivity. }
    assert (Hstrict : isStrictRegisteredDomain "google.com" = true).
    { unfold isStrictRegisteredDomain. rewrite Hn.
      change (JS.includes "://" "google.com" || JS.includes "/" "google.com") with false.
      cbv iota. rewrite Hdom. reflexivity. }
    rewrite Hstrict, Hhost, Hn. reflexivity.
Qed.

Lemma hostPathCompare_spec urlHost urlPath patternHost patternPath :
  normalizeLeadingWww patternHost <> "" ->
  urlHost = normalizeLeadingWww patternHost ->
  (hostPathCompare urlHost urlPath patternHost patternPath = true
   <-> JS.startsWith (anchoredPath patternPath) urlPath = true
       \/ (JS.endsWithChar "/" (anchoredPath patternPath) = true
           /\ urlPath = JS.dropLast (anchoredPath patternPath))).
Proof.
  intros Hne ->. unfold hostPathCompare, JS.truthy.
  apply String.eqb_neq in Hne. rewrite Hne, String.eqb_refl.
  change (negb (negb false) || negb true) with false. cbv iota.
  replace (if negb (JS.startsWith "/" patternPath)
           then ("/" ++ patternPath)%string else patternPath)
    with (anchoredPath patternPath)
    by (unfold anchoredPath; destruct (JS.startsWith "/" patternPath); reflexivity).
  generalize (anchoredPath patternPath). intros p.
  destruct (JS.startsWith p urlPath); [tauto|].
  destruct (JS.endsWithChar "/" p).
  - rewrite String.eqb_eq. intuition discriminate.
  - intuition discriminate.
Qed.

(** C8 (['host_path_prefix'] patterns).  With the pattern split into host and
    path and the two hosts matching (in lower case and without a leading
    [www.], both are the same non-empty host), the URL matches iff its path
    starts with the pattern path (made to begin with a slash), or the pattern
    path ends with a slash and the URL path is the pattern path without that
    slash; a pattern without any slash matches no URL. *)
Theorem matchesPattern_host_path_prefix (url pattern : string) :
  (forall urlObj patternHost patternPath key,
      URL_new url = Some urlObj ->
      PatternParts pattern patternHost patternPath ->
      key <> "" ->
      NormalizedHost patternHost key ->
      NormalizedHost (hostname urlObj) key ->
      (matchesPattern url pattern "host_path_prefix" = true
       <-> JS.startsWith (anchoredPath patternPath) (pathname urlObj) = true
           \/ (JS.endsWithChar "/" (anchoredPath patternPath) = true
               /\ pathname urlObj = JS.dropLast (anchoredPath patternPath))))
  /\ (JS.includes "/" pattern = false ->
      matchesPattern url pattern "host_path_prefix" = false).
Proof.
  split.
  - intros urlObj patternHost patternPath key Hurl Hparts Hne Hpat Hhost.
    apply NormalizedHost_unique in Hpat, Hhost.
    assert (Hne' : normalizeLeadingWww patternHost <> "") by congruence.
    assert (Hsame : normalizeLeadingWww (hostname urlObj)
                    = normalizeLeadingWww patternHost) by congruence.
    unfold matchesPattern, matchesPattern_try. rewrite Hurl. simpl.
    destruct Hparts as [patternUrl Hinc Hpu | firstSlashIdx Hinc Hidx].
    + rewrite Hinc, Hpu. apply hostPathCompare_spec; assumption.
    + rewrite Hinc, Hidx. apply hostPathCompare_spec; assumption.
  - intros Hno. unfold matchesPattern, matchesPattern_try.
    destruct (URL_new url); [|reflexivity]. simpl.
    rewrite (no_slash_no_scheme pattern Hno).
    unfold JS.includes in Hno.
    destruct (JS.indexOf "/" pattern); [discriminate|reflexivity].
Qed.

End MatcherProperties.

Lemma matchesPattern_never_throws_witness :
  @matchesPattern Demo.platform "not-a-url" "example.com" "domain" = false
  /\ @matchesPattern Demo.platform "https://test.com" "[invalid(regex" "regex" = false.
Proof.
  destruct (@matchesPattern_never_throws Demo.platform
              "not-a-url" "example.com" "domain") as (_ & Hurl & _).
  destruct (@matchesPattern_never_throws Demo.platform
              "https://test.com" "[invalid(regex" "regex") as (_ & _ & Hregex).
  split.
  - apply Hurl. vm_compute. reflexivity.
  - apply Hregex; vm_compute; reflexivity.
Defined.

Lemma matchesPattern_domain_witness :
  @matchesPattern Demo.platform "https://mail.google.com/inbox" sample_padded_pattern "domain"
  = true
  /\ @matchesPattern Demo.platform "https://mail.google.com/inbox" "google.com" "domain" = true
  /\ @matchesPattern Demo.platform "https://mail.google.com/inbox" "mail.google.com" "domain"
     = false
  /\ TrimOf sample_padded_pattern "WWW.Google.com".
Proof.
  destruct (@matchesPattern_domain Demo.platform
              "https://mail.google.com/inbox" sample_padded_pattern)
    as (Htrim & _ & Hiff & Hexample).
  destruct (@matchesPattern_domain Demo.platform
              "https://mail.google.com/inbox" "mail.google.com") as (_ & Hreject & _).
  split; [|split; [|split]].
  - apply (Hiff ltac:(vm_compute; reflexivity) "google.com").
    + left. exists "google.com". split; vm_compute; reflexivity.
    + exists (mkURL "mail.google.com" "/inbox"). split; vm_compute; reflexivity.
  - apply Hexample; vm_compute; reflexivity.
  - apply Hreject. vm_compute. reflexivity.
  - exact Htrim.
Defined.

Lemma matchesPattern_host_path_prefix_witness :
  @matchesPattern Demo.platform "https://WWW.Example.com/maps" "Example.com/maps/"
    "host_path_prefix" = true
  /\ @matchesPattern Demo.platform "https://example.com/maps" "example.com"
       "host_path_prefix" = false.
Proof.
  destruct (@matchesPattern_host_path_prefix Demo.platform
              "https://WWW.Example.com/maps" "Example.com/maps/") as (Hiff & _).
  destruct (@matchesPattern_host_path_prefix Demo.platform
              "https://example.com/maps" "example.com") as (_ & Hnone).
  split.
  - apply (Hiff (mkURL "www.example.com" "/maps") "Example.com" "/maps/" "example.com").
    + vm_compute. reflexivity.
    + apply (@parts_of_split Demo.platform "Example.com/maps/" 11); vm_compute; reflexivity.
    + discriminate.
    + right. split; vm_compute; reflexivity.
    + left. exists "example.com". split; vm_compute; reflexivity.
    + right. split; vm_compute; reflexivity.
  - apply Hnone. vm_compute. reflexivity.
Defined.

(** ** Properties of the write paths *)

Section WriteProperties.

Context {P : Platform}.

Lemma createListEntry_rejects_non_registrable entry w :
  pattern_type entry = "domain" -> isStrictRegisteredDomain (domain entry) = false ->
  createListEntry entry w = (w, Err (InvalidDomainPattern (domain entry))).
Proof.
  intros Ht Hs. unfold createListEntry. rewrite Ht, Hs. reflexivity.
Qed.

Lemma updateListEntry_rejects_non_registrable id updates w entry :
  store_get id w = Some entry ->
  match u_pattern_type updates with Some t => t | None => pattern_type entry end = "domain" ->
  isStrictRegisteredDomain
    (match u_domain updates with Some d => d | None => domain entry end) = false ->
  updateListEntry id updates w
  = (w, Err (InvalidDomainPattern
               (match u_domain updates with Some d => d | None => domain entry end))).
Proof.
  intros Hget Ht Hs. unfold updateListEntry. rewrite Hget, Ht, Hs. reflexivity.
Qed.

Lemma createListEntry_accepts_registrable entry w :
  pattern_type entry = "domain" -> isStrictRegisteredDomain (domain entry) = true ->
  entriesAt (list_name entry) (pattern_type entry) (domain entry) w = [] ->
  exists e',
    snd (createListEntry entry w) = Ok (key_gen w)
    /\ rows (fst (createListEntry entry w)) = rows w ++ [(key_gen w, e')]
    /\ observable e' = observable entry.
Proof.
  intros Ht Hs Hfree. unfold createListEntry. rewrite Ht, Hs. simpl.
  destruct (withTimestamps_frame entry w) as (Hr & Hk & Ho).
  destruct (withTimestamps entry w) as [e' w1]. simpl in Hr, Hk, Ho.
  assert (Hkey : keyOf e' = keyOf entry).
  { unfold observable in Ho. unfold keyOf. congruence. }
  unfold store_add. rewrite Hr, Hk.
  assert (Hex : existsb (fun r => keyClash e' (snd r)) (rows w) = false).
  { destruct (existsb (fun r => keyClash e' (snd r)) (rows w)) eqn:Hex; [|reflexivity].
    apply existsb_exists in Hex. destruct Hex as (r & Hin & Hc).
    apply keyClash_spec in Hc.
    assert (Hin' : In r (entriesAt (list_name entry) (pattern_type entry) (domain entry) w)).
    { apply filter_In. split; [assumption|]. apply sameKey_spec.
      rewrite Hc, Hkey. reflexivity. }
    rewrite Hfree in Hin'. contradiction. }
  rewrite Hex. exists e'. simpl. auto.
Qed.

(** The batch insert stores any entry whose key is free, whatever its
    pattern. *)
Lemma bulkCreateListEntries_no_validation entry w :
  entriesAt (list_name entry) (pattern_type entry) (domain entry) w = [] ->
  snd (bulkCreateListEntries [entry] w) = Ok [key_gen w]
  /\ exists e', rows (fst (bulkCreateListEntries [entry] w)) = rows w ++ [(key_gen w, e')]
                /\ observable e' = observable entry.
Proof.
  intros Hfree. unfold bulkCreateListEntries. simpl.
  destruct (withTimestamps_frame entry w) as (Hr & Hk & Ho).
  destruct (withTimestamps entry w) as [e' w1]. simpl in Hr, Hk, Ho.
  assert (Hkey : keyOf e' = keyOf entry).
  { unfold observable in Ho. unfold keyOf. congruence. }
  simpl. unfold store_add. rewrite Hr, Hk.
  assert (Hex : existsb (fun r => keyClash e' (snd r)) (rows w) = false).
  { destruct (existsb (fun r => keyClash e' (snd r)) (rows w)) eqn:Hex; [|reflexivity].
    apply existsb_exists in Hex. destruct Hex as (r & Hin & Hc).
    apply keyClash_spec in Hc.
    assert (Hin' : In r (entriesAt (list_name entry) (pattern_type entry) (domain entry) w)).
    { apply filter_In. split; [assumption|]. apply sameKey_spec.
      rewrite Hc, Hkey. reflexivity. }
    rewrite Hfree in Hin'. contradiction. }
  rewrite Hex. simpl. split; [reflexivity|]. exists e'. auto.
Qed.

(** Uniqueness: every write path keeps the invariant of the store. *)
Lemma writes_keep_store_wf (wr : Write) (w : World) :
  store_wf w -> store_wf (run_write wr w).
Proof.
  intros Hwf. destruct wr as [entry|es|id updates]; cbn [run_write].
  - unfold createListEntry.
    destruct ((pattern_type entry =? "domain")
              && negb (isStrictRegisteredDomain (domain entry))); [assumption|].
    destruct (withTimestamps_frame entry w) as (Hr & Hk & _).
    destruct (withTimestamps entry w) as [e' w1]. cbn [fst snd] in *.
    assert (Hwf1 : store_wf w1) by (eapply store_wf_same_rows; eauto).
    destruct (store_add e' w1) as [[i w2]|] eqn:Hadd; cbn [fst]; [|assumption].
    eapply store_add_wf; eauto.
  - apply bulkCreateListEntries_wf. assumption.
  - unfold updateListEntry.
    destruct (store_get id w) as [entry|]; [|assumption].
    match goal with
    | |- context [if ?guard then _ else _] => destruct guard; [assumption|]
    end.
    unfold date_now.
    set (w1 := mkWorld (rows w) (key_gen w) (S (ticks w))).
    assert (Hwf1 : store_wf w1) by (apply (store_wf_same_rows w); auto).
    match goal with
    | |- context [store_put id ?e w1] =>
        destruct (store_put id e w1) as [w2|] eqn:Hput; cbn [fst]; [|assumption]
    end.
    eapply store_put_wf; eauto.
Qed.

Lemma importList_wf l jsonData w :
  store_wf w -> store_wf (fst (importList l jsonData w)).
Proof.
  intros Hwf. unfold importList.
  destruct (JSON_parse jsonData) as [importData|]; [|assumption].
  destruct (entries importData) as [fileEntries|]; [|assumption].
  match goal with
  | |- context [bulkCreateListEntries ?news ?w1] =>
      assert (Hwf1 : store_wf w1) by (apply store_wf_filter; assumption);
      pose proof (bulkCreateListEntries_wf news w1 Hwf1) as Hwf2;
      destruct (bulkCreateListEntries news w1) as [w2 [ids|err]]; exact Hwf2
  end.
Qed.

(** C6 (import), as the code has it.  [importList] first deletes every entry
    of the target list, whatever its source, then inserts the entries of the
    file in one batch; it takes no source from its caller and every imported
    entry is stored without a source. *)
Theorem importList_replaces_list (l jsonData : string) (fileEntries : list FileEntry)
    (w : World) :
  JSON_parse jsonData = Some (mkImportData (Some fileEntries)) ->
  exists newRows,
    rows (fst (importList l jsonData w))
    = filter (fun r => negb (list_name (snd r) =? l)) (rows w) ++ newRows
    /\ Forall (fun r => source (snd r) = None) newRows
    /\ ((snd (importList l jsonData w) = Ok (List.length fileEntries)
         /\ map (fun r => observable (snd r)) newRows
            = map (fun f => (l, f_pattern_type f, f_domain f, None)) fileEntries)
        \/ (snd (importList l jsonData w) = Err (FailedToImportList FailedToCreateBulkEntry)
            /\ newRows = [])).
Proof.
  intros Hjson. unfold importList. rewrite Hjson. cbn [entries].
  set (w1 := deleteAllEntriesInList l None w).
  set (news := map _ fileEntries).
  assert (Hnews : map observable news
                  = map (fun f => (l, f_pattern_type f, f_domain f, None)) fileEntries).
  { unfold news. rewrite map_map. reflexivity. }
  destruct (bulkCreateListEntries_spec news w1) as (stamped & ids & Hobs & Hlen & Hcases).
  assert (Hlen' : List.length stamped = List.length fileEntries).
  { apply (f_equal (@List.length _)) in Hobs, Hnews.
    rewrite !length_map in Hobs, Hnews. congruence. }
  destruct (bulkCreateListEntries news w1) as [w2 [ids'|err]]; cbn [fst snd] in *;
    destruct Hcases as [(Hres & Hrows & _)|(Hres & Hrows & _)]; try discriminate.
  - injection Hres as ->. exists (combine ids stamped). split; [exact Hrows|]. split.
    + apply Forall_forall. intros [i e] Hin. apply in_combine_r in Hin.
      apply (in_map observable) in Hin. rewrite Hobs, Hnews in Hin.
      apply in_map_iff in Hin. destruct Hin as (f & Hf & _).
      unfold observable in Hf. simpl. congruence.
    + left. split; [congruence|].
      rewrite (map_combine_snd _ _ observable stamped ids Hlen). congruence.
  - injection Hres as ->. exists []. rewrite app_nil_r.
    split; [exact Hrows|]. split; [constructor|]. right. auto.
Qed.







End WriteProperties.

(** ** The properties on the concrete environment *)



(** C3 (domain strictness), on the batch path.  [mail.google.com] is not a
    strict registrable domain and [createListEntry] rejects it as a ['domain']
    entry, yet [bulkCreateListEntries] stores the same entry and returns its
    id. *)
Theorem bulkCreateListEntries_skips_domain_check :
  @isStrictRegisteredDomain Demo.platform "mail.google.com" = false
  /\ @createListEntry Demo.platform sample_subdomain_entry empty_world
     = (empty_world, Err (InvalidDomainPattern "mail.google.com"))
  /\ snd (@bulkCreateListEntries Demo.platform [sample_subdomain_entry] empty_world)
     = Ok [1%N]
  /\ map (fun r => (fst r, observable (snd r)))
         (entriesAt "blocklist" "domain" "mail.google.com"
            (fst (@bulkCreateListEntries Demo.platform [sample_subdomain_entry] empty_world)))
     = [(1%N, ("blocklist", "domain", "mail.google.com", Some user))].
Proof. vm_compute. repeat split. Qed.

(** C6 as stated fails: after an import into [blocklist] the list holds one
    entry and it carries no source at all, so no source chosen by the caller
    is what was stored. *)
Lemma importList_stores_no_source :
  snd (@importList Demo.platform "blocklist" Demo.sample_json sample_world) = Ok 1%nat
  /\ List.length (getListEntries "blocklist"
                    (fst (@importList Demo.platform "blocklist" Demo.sample_json
                            sample_world))) = 1%nat
  /\ ~ exists src : EntrySource,
         Forall (fun r => source (snd r) = Some src)
                (getListEntries "blocklist"
                   (fst (@importList Demo.platform "blocklist" Demo.sample_json
                           sample_world))).
Proof.
  split; [vm_compute; reflexivity|]. split; [vm_compute; reflexivity|].
  intros (src & Hall). vm_compute in Hall.
  inversion Hall as [|? ? Hsrc _]. discriminate.
Qed.

Lemma importList_replaces_list_witness :
  exists newRows,
    rows (fst (@importList Demo.platform "blocklist" Demo.sample_json sample_world))
    = filter (fun r => negb (list_name (snd r) =? "blocklist")) (rows sample_world)
      ++ newRows
    /\ Forall (fun r => source (snd r) = None) newRows
    /\ ((snd (@importList Demo.platform "blocklist" Demo.sample_json sample_world)
         = Ok (List.length [mkFileEntry "example.com" "host" None])
         /\ map (fun r => observable (snd r)) newRows
            = map (fun f => ("blocklist", f_pattern_type f, f_domain f, None))
                  [mkFileEntry "example.com" "host" None])
        \/ (snd (@importList Demo.platform "blocklist" Demo.sample_json sample_world)
            = Err (FailedToImportList FailedToCreateBulkEntry)
            /\ newRows = [])).
Proof.
  apply (@importList_replaces_list Demo.platform "blocklist" Demo.sample_json
           [mkFileEntry "example.com" "host" None] sample_world).
  vm_compute. reflexivity.
Defined.


(** The concrete cases of the specification's list of match results. *)
Example match_examples :
  @matchesPattern Demo.platform "https://mail.google.com/inbox" "google.com" "domain" = true
  /\ @matchesPattern Demo.platform "https://mail.google.com/inbox" "google.com" "host" = false
  /\ @matchesPattern Demo.platform "https://example.com/maps/dir" "example.com/maps"
       "host_path_prefix" = true
  /\ @matchesPattern Demo.platform "https://example.com/map" "example.com/maps"
       "host_path_prefix" = false
  /\ @matchesPattern Demo.platform "anything" "x" "domain" = false.
Proof. vm_compute. repeat split. Qed.

(** The pattern-matching cases of the repository's test suite that the
    concrete environment covers. *)
Example test_suite_matches :
  @matchesPattern Demo.platform "https://google.com" "google.com" "domain" = true
  /\ @matchesPattern Demo.platform "https://www.google.com" "google.com" "domain" = true
  /\ @matchesPattern Demo.platform "https://mail.google.com" "google.com" "domain" = true
  /\ @matchesPattern Demo.platform "https://facebook.com" "google.com" "domain" = false
  /\ @matchesPattern Demo.platform "https://www.example.co.uk" "example.co.uk" "domain" = true
  /\ @matchesPattern Demo.platform "https://www.example.com.au" "example.com.au" "domain" = true
  /\ @matchesPattern Demo.platform "https://example.com/test" "https://example.com/test"
       "exact_url" = true
  /\ @matchesPattern Demo.platform "https://example.com/other" "https://example.com/test"
       "exact_url" = false
  /\ @matchesPattern Demo.platform "https://test.com" "[invalid(regex" "regex" = false
  /\ @matchesPattern Demo.platform "not-a-url" "example.com" "domain" = false.
Proof. vm_compute. repeat split. Qed.

(** Its store cases: a duplicate key is rejected, the same pattern under two
    pattern types is not a duplicate, an update of a missing id fails, and an
    import replaces the entries of the list. *)
Example test_suite_store :
  snd (@createListEntry Demo.platform sample_user_entry sample_world)
  = Err FailedToCreateEntry
  /\ snd (@createListEntry Demo.platform
            (mkEntry "blocklist" "example.com" "domain" (Some user) empty_metadata)
            sample_world) = Ok 4%N
  /\ snd (@updateListEntry Demo.platform 999999%N
            (mkUpdates None (Some "new.com") None None None) sample_world)
     = Err (EntryNotFound 999999%N)
  /\ map (fun r => domain (snd r))
         (getListEntries "blocklist"
            (fst (@importList Demo.platform "blocklist" Demo.sample_json sample_world)))
     = ["example.com"].
Proof. vm_compute. repeat split. Qed.


(** ** Every operation keeps the store well formed *)

Section OperationFacts.

Context {P : Platform} {S : Services}.

Lemma store_add_Some e w id w' :
  store_add e w = Some (id, w') -> id = key_gen w /\ key_gen w' = (key_gen w + 1)%N.
Proof.
  unfold store_add.
  destruct (existsb (fun r => keyClash e (snd r)) (rows w)); [discriminate|].
  intros H. injection H as <- <-. auto.
Qed.

Lemma addAll_ids es : forall w ids w',
  addAll es w = Some (ids, w') ->
  ids = generatedIds (key_gen w) (List.length es)
  /\ key_gen w' = (key_gen w + N.of_nat (List.length es))%N.
Proof.
  induction es as [|e es IH]; intros w ids w' H; simpl in H.
  - injection H as <- <-. simpl. split; [reflexivity|lia].
  - destruct (store_add e w) as [[id w1]|] eqn:Hadd; [|discriminate].
    destruct (addAll es w1) as [[ids' w2]|] eqn:Hrest; [|discriminate].
    injection H as <- <-. apply store_add_Some in Hadd. destruct Hadd as [-> Hk].
    apply IH in Hrest. destruct Hrest as [-> Hk2]. cbn [generatedIds List.length].
    rewrite Hk in *. split; [reflexivity|lia].
Qed.

Lemma createListEntry_key_gen entry w :
  (key_gen w <= key_gen (fst (createListEntry entry w)))%N
  /\ forall id, snd (createListEntry entry w) = Ok id -> id = key_gen w.
Proof.
  unfold createListEntry.
  destruct ((pattern_type entry =? "domain")
            && negb (isStrictRegisteredDomain (domain entry)));
    [simpl; split; [lia|discriminate]|].
  destruct (withTimestamps_frame entry w) as (_ & Hk & _).
  destruct (withTimestamps entry w) as [e' w1]. cbn [fst snd] in *.
  destruct (store_add e' w1) as [[i w2]|] eqn:Hadd; cbn [fst snd].
  - apply store_add_Some in Hadd. destruct Hadd as [-> Hk2]. split; [lia|].
    intros id H. injection H as <-. assumption.
  - split; [lia|discriminate].
Qed.

Lemma bulkCreateListEntries_key_gen es w :
  (key_gen w <= key_gen (fst (bulkCreateListEntries es w)))%N.
Proof.
  unfold bulkCreateListEntries.
  destruct (stampAll_frame es w) as (_ & Hk & _).
  destruct (stampAll es w) as [stamped w1]. cbn [fst snd] in *.
  destruct (addAll stamped w1) as [[ids w2]|] eqn:Hadd; cbn [fst]; [|lia].
  apply addAll_ids in Hadd. lia.
Qed.

Lemma updateListEntry_key_gen id updates w :
  key_gen (fst (updateListEntry id updates w)) = key_gen w.
Proof.
  unfold updateListEntry.
  destruct (store_get id w) as [entry|]; [|reflexivity].
  match goal with
  | |- context [if ?guard then _ else _] => destruct guard; [reflexivity|]
  end.
  unfold date_now, store_put. cbn [rows key_gen ticks].
  match goal with
  | |- context [if ?clash then _ else _] => destruct clash; reflexivity
  end.
Qed.

Lemma mergeBackendList_key_gen l es w :
  (key_gen w <= key_gen (fst (mergeBackendList l es w)))%N.
Proof.
  unfold mergeBackendList.
  set (w1 := deleteAllEntriesInList l (Some backend) w).
  assert (Hfold : forall cs v, key_gen (fold_left (resolveConflict l) cs v) = key_gen v).
  { induction cs as [|c cs IH]; intros v; simpl; [reflexivity|]. rewrite IH.
    unfold resolveConflict. destruct (candidateKey c) as [[d t]|]; [|reflexivity].
    destruct (findListEntryByPattern l t d v) as [[i e]|]; reflexivity. }
  specialize (Hfold es w1).
  destruct (prepareBackendEntries_frame l es (fold_left (resolveConflict l) es w1))
    as (_ & Hk & _).
  destruct (prepareBackendEntries l es (fold_left (resolveConflict l) es w1))
    as [news w3]. cbn [fst snd] in Hk.
  assert (Hk3 : key_gen w3 = key_gen w) by (rewrite Hk, Hfold; reflexivity).
  destruct news as [|n news]; cbn [fst]; [lia|].
  pose proof (bulkCreateListEntries_key_gen (n :: news) w3) as Hb.
  destruct (bulkCreateListEntries (n :: news) w3) as [w4 [ids|err]]; cbn [fst] in *; lia.
Qed.

Lemma parseAndSyncLists_wf cfg : forall w,
  store_wf w -> store_wf (parseAndSyncLists cfg w).
Proof.
  induction cfg as [|[l [es|]] cfg IH]; intros w Hwf; simpl; auto.
  apply IH. apply mergeBackendList_wf. assumption.
Qed.

Lemma parseAndSyncLists_key_gen cfg : forall w,
  (key_gen w <= key_gen (parseAndSyncLists cfg w))%N.
Proof.
  induction cfg as [|[l [es|]] cfg IH]; intros w; simpl; [lia|..|apply IH].
  pose proof (mergeBackendList_key_gen l es w).
  pose proof (IH (fst (mergeBackendList l es w))). lia.
Qed.

Lemma run_operation_wf op w : store_wf w -> store_wf (run_operation op w).
Proof.
  intros Hwf. destruct op; cbn [run_operation].
  - apply (writes_keep_store_wf (WCreate entry)). assumption.
  - apply (writes_keep_store_wf (WBulkCreate es)). assumption.
  - apply (writes_keep_store_wf (WUpdate id updates)). assumption.
  - apply store_wf_filter. assumption.
  - apply store_wf_filter. assumption.
  - apply importList_wf. assumption.
  - apply (store_wf_same_rows w); auto.
  - apply mergeBackendList_wf. assumption.
  - apply parseAndSyncLists_wf. assumption.
  - unfold syncListsFromConfig.
    destruct (fetch_config configUrl) as [m|[cfg|]]; cbn [fst]; auto.
    apply parseAndSyncLists_wf. assumption.
Qed.

Lemma run_operation_key_gen op w :
  (key_gen w <= key_gen (run_operation op w))%N.
Proof.
  destruct op; cbn [run_operation].
  - apply createListEntry_key_gen.
  - apply bulkCreateListEntries_key_gen.
  - rewrite updateListEntry_key_gen. lia.
  - simpl. lia.
  - simpl. lia.
  - unfold importList.
    destruct (JSON_parse jsonData) as [importData|]; [|simpl; lia].
    destruct (entries importData) as [fileEntries|]; [|simpl; lia].
    match goal with
    | |- context [bulkCreateListEntries ?news ?w1] =>
        pose proof (bulkCreateListEntries_key_gen news w1) as Hb;
        destruct (bulkCreateListEntries news w1) as [w2 [ids|err]]; exact Hb
    end.
  - simpl. lia.
  - apply mergeBackendList_key_gen.
  - apply parseAndSyncLists_key_gen.
  - unfold syncListsFromConfig.
    destruct (fetch_config configUrl) as [m|[cfg|]]; cbn [fst]; try lia.
    apply parseAndSyncLists_key_gen.
Qed.

Lemma run_operations_wf ops : forall w,
  store_wf w -> store_wf (run_operations ops w).
Proof.
  unfold run_operations.
  induction ops as [|op ops IH]; intros w Hwf; simpl; [assumption|].
  apply IH. apply run_operation_wf. assumption.
Qed.

Lemma run_operations_key_gen ops : forall w,
  (key_gen w <= key_gen (run_operations ops w))%N.
Proof.
  unfold run_operations.
  induction ops as [|op ops IH]; intros w; simpl; [lia|].
  pose proof (run_operation_key_gen op w).
  pose proof (IH (run_operation op w)). lia.
Qed.

(** X1.  Uniqueness: whatever operations of the module are run from the empty
    store, in any order and with any arguments, no two stored entries share a
    [(list_name, pattern_type, domain)] key or an id, and every id is below
    the key generator. *)
Theorem reachable_store_is_well_formed (ops : list Operation) :
  store_wf (run_operations ops empty_world).
Proof. apply run_operations_wf. exact store_wf_empty. Qed.

(** X2.  Ids are not reused: an id stored at some moment is smaller than the
    id any later [createListEntry] returns, whatever operations (deletions
    included) run in between. *)
Theorem ids_are_never_reused (w : World) (i : N) (e : Entry) (ops : list Operation)
    (entry : Entry) (id : N) :
  store_wf w -> In (i, e) (rows w) ->
  snd (createListEntry entry (run_operations ops w)) = Ok id ->
  (i < id)%N.
Proof.
  intros (_ & _ & Hb) Hin Hok. rewrite Forall_forall in Hb. apply Hb in Hin.
  cbn [fst] in Hin.
  destruct (createListEntry_key_gen entry (run_operations ops w)) as [_ Hid].
  rewrite (Hid id Hok). pose proof (run_operations_key_gen ops w). lia.
Qed.

End OperationFacts.

Lemma ids_are_never_reused_witness :
  snd (@createListEntry DemoServices.platform sample_user_entry
         (@run_operations DemoServices.platform DemoServices.services
            [OpDelete 1%N; OpMerge "blocklist" []] sample_world)) = Ok 4%N
  /\ (1 < 4)%N.
Proof.
  split; [vm_compute; reflexivity|].
  apply (@ids_are_never_reused DemoServices.platform DemoServices.services
           sample_world 1%N sample_user_entry
           [OpDelete 1%N; OpMerge "blocklist" []] sample_user_entry 4%N).
  - exact sample_world_wf.
  - simpl. auto.
  - vm_compute. reflexivity.
Defined.

(** ** Create, read, update, delete *)

Section CrudProperties.

Context {P : Platform}.

Lemma find_app_last {A} (f : A -> bool) (l : list A) (y : A) :
  (forall x, In x l -> f x = false) -> f y = true -> find f (l ++ [y]) = Some y.
Proof.
  intros Hl Hy. induction l as [|x l IH]; simpl; [rewrite Hy; reflexivity|].
  rewrite (Hl x (or_introl eq_refl)). apply IH. intros z Hz. apply Hl. right. assumption.
Qed.

Lemma find_None_iff {A} (f : A -> bool) (l : list A) :
  find f l = None <-> forall x, In x l -> f x = false.
Proof.
  split; [intros H x Hx; eapply find_none; eauto|].
  induction l as [|x l IH]; simpl; intros H; [reflexivity|].
  rewrite (H x (or_introl eq_refl)). apply IH. intros z Hz. apply H. right. assumption.
Qed.

Lemma createListEntry_Ok entry w w' id :
  createListEntry entry w = (w', Ok id) ->
  exists e',
    rows w' = rows w ++ [(id, e')] /\ id = key_gen w
    /\ observable e' = observable entry
    /\ existsb (keyClash e') (map snd (rows w)) = false.
Proof.
  unfold createListEntry.
  destruct ((pattern_type entry =? "domain")
            && negb (isStrictRegisteredDomain (domain entry))); [discriminate|].
  destruct (withTimestamps_frame entry w) as (Hr & Hk & Ho).
  destruct (withTimestamps entry w) as [e' w1]. cbn [fst snd] in *.
  destruct (store_add e' w1) as [[i w2]|] eqn:Hadd; [|discriminate].
  intros H. injection H as <- <-.
  destruct (store_add_Some e' w1 i w2 Hadd) as [-> _].
  apply store_add_rows in Hadd. destruct Hadd as (Hr2 & _ & Hfree).
  exists e'. rewrite Hr2, Hr, Hk in *. auto.
Qed.

(** X3.  Insert then look up: after [createListEntry] returns an id, both the
    lookup by that id and [findListEntryByPattern] at the entry's key return
    the stored entry, which carries the list name, pattern, pattern type and
    source that were passed, and [getListEntries] lists it last. *)
Theorem createListEntry_then_lookup (entry : Entry) (w w' : World) (id : N) :
  store_wf w ->
  createListEntry entry w = (w', Ok id) ->
  exists e',
    findListEntryByPattern (list_name entry) (pattern_type entry) (domain entry) w'
    = Some (id, e')
    /\ store_get id w' = Some e'
    /\ observable e' = observable entry
    /\ getListEntries (list_name entry) w'
       = getListEntries (list_name entry) w ++ [(id, e')].
Proof.
  intros (_ & _ & Hb) Hok. rewrite Forall_forall in Hb.
  destruct (createListEntry_Ok entry w w' id Hok) as (e' & Hr & -> & Ho & Hfree).
  assert (Hkey : keyOf e' = keyOf entry) by (unfold observable in Ho; unfold keyOf; congruence).
  exists e'. repeat split; try assumption.
  - unfold findListEntryByPattern. rewrite Hr. apply find_app_last.
    + intros x Hx. cbn beta.
      destruct (sameKey (list_name entry) (pattern_type entry) (domain entry) (snd x))
        eqn:Hs; [|reflexivity].
      assert (existsb (keyClash e') (map snd (rows w)) = true); [|congruence].
      apply existsb_exists. exists (snd x). split; [apply in_map; assumption|].
      apply keyClash_spec. apply sameKey_spec in Hs. rewrite Hs, Hkey. reflexivity.
    + cbn [snd]. apply sameKey_spec. exact Hkey.
  - unfold store_get. rewrite Hr. rewrite find_app_last with (y := (key_gen w, e')).
    + reflexivity.
    + intros x Hx. apply Hb in Hx. apply N.eqb_neq. lia.
    + apply N.eqb_refl.
  - unfold getListEntries. rewrite Hr, filter_app. cbn [filter snd].
    assert (Hl : list_name e' = list_name entry) by (unfold observable in Ho; congruence).
    rewrite Hl, String.eqb_refl. reflexivity.
Qed.

(** X4.  A duplicate key is rejected: [createListEntry] on an entry whose key
    is already stored returns an error and leaves the rows and the key
    generator as they were. *)
Theorem createListEntry_duplicate_rejected (entry : Entry) (w : World) (i : N) (e : Entry) :
  In (i, e) (rows w) -> keyOf e = keyOf entry ->
  exists err,
    snd (createListEntry entry w) = Err err
    /\ rows (fst (createListEntry entry w)) = rows w
    /\ key_gen (fst (createListEntry entry w)) = key_gen w.
Proof.
  intros Hin Hkey. unfold createListEntry.
  destruct ((pattern_type entry =? "domain")
            && negb (isStrictRegisteredDomain (domain entry)));
    [eexists; cbn [fst snd]; auto|].
  destruct (withTimestamps_frame entry w) as (Hr & Hk & Ho).
  destruct (withTimestamps entry w) as [e' w1]. cbn [fst snd] in *.
  assert (Hkey' : keyOf e' = keyOf entry) by (unfold observable in Ho; unfold keyOf; congruence).
  unfold store_add.
  assert (Hex : existsb (fun r => keyClash e' (snd r)) (rows w1) = true).
  { apply existsb_exists. exists (i, e). rewrite Hr. split; [assumption|].
    apply keyClash_spec. cbn [snd]. congruence. }
  rewrite Hex. exists FailedToCreateEntry. cbn [fst snd]. auto.
Qed.

Lemma find_id_replaced (id j : N) (new : Entry) (rs : list (N * Entry)) :
  j <> id ->
  find (fun r => (fst r =? j)%N)
       (map (fun r : N * Entry => if (fst r =? id)%N then (id, new) else r) rs)
  = find (fun r => (fst r =? j)%N) rs.
Proof.
  intros Hne. induction rs as [|r rs IH]; simpl; [reflexivity|].
  destruct (N.eqb_spec (fst r) id) as [Heq|Hneq]; cbn [fst].
  - destruct (N.eqb_spec id j) as [Hij|_]; [congruence|].
    destruct (N.eqb_spec (fst r) j) as [Hrj|_]; [congruence|]. exact IH.
  - destruct (fst r =? j)%N; [reflexivity|exact IH].
Qed.

Lemma find_id_replacement (id : N) (new : Entry) (rs : list (N * Entry)) r0 :
  find (fun r => (fst r =? id)%N) rs = Some r0 ->
  find (fun r => (fst r =? id)%N)
       (map (fun r : N * Entry => if (fst r =? id)%N then (id, new) else r) rs)
  = Some (id, new).
Proof.
  induction rs as [|r rs IH]; simpl; [discriminate|].
  destruct (N.eqb_spec (fst r) id) as [Heq|Hneq]; cbn [fst].
  - rewrite N.eqb_refl. reflexivity.
  - destruct (N.eqb_spec (fst r) id); [contradiction|]. exact IH.
Qed.

Lemma lookupKey_app (k : string) (a b : list (string * string)) :
  lookupKey k (a ++ b) = orElse (lookupKey k a) (lookupKey k b).
Proof.
  unfold lookupKey. induction a as [|kv a IH]; simpl; [reflexivity|].
  destruct (fst kv =? k); [reflexivity|exact IH].
Qed.

Lemma lookupKey_overridden (k : string) (a b : list (string * string)) :
  lookupKey k (map (fun kv => match lookupKey (fst kv) b with
                              | Some v => (fst kv, v)
                              | None => kv
                              end) a)
  = match lookupKey k a with
    | Some v => Some (match lookupKey k b with Some v' => v' | None => v end)
    | None => None
    end.
Proof.
  induction a as [|kv a IH]; [reflexivity|].
  unfold lookupKey at 1 3. cbn [map find].
  assert (Hfst : fst (match lookupKey (fst kv) b with
                      | Some v => (fst kv, v)
                      | None => kv
                      end) = fst kv) by (destruct (lookupKey (fst kv) b); reflexivity).
  rewrite Hfst. destruct (String.eqb_spec (fst kv) k) as [Heq|Hne].
  - cbn [option_map]. rewrite Heq. destruct (lookupKey k b); reflexivity.
  - exact IH.
Qed.

Lemma lookupKey_added (k : string) (a b : list (string * string)) :
  lookupKey k (filter (fun kv => match lookupKey (fst kv) a with
                                 | Some _ => false
                                 | None => true
                                 end) b)
  = match lookupKey k a with
    | Some _ => None
    | None => lookupKey k b
    end.
Proof.
  induction b as [|kv b IH]; [destruct (lookupKey k a); reflexivity|].
  cbn [filter]. destruct (String.eqb_spec (fst kv) k) as [Heq|Hne].
  - rewrite Heq. destruct (lookupKey k a) eqn:Ha.
    + rewrite IH. reflexivity.
    + unfold lookupKey. cbn [find]. apply String.eqb_eq in Heq. rewrite Heq. reflexivity.
  - assert (Hskip : lookupKey k (kv :: b) = lookupKey k b).
    { unfold lookupKey. cbn [find]. apply String.eqb_neq in Hne. rewrite Hne. reflexivity. }
    rewrite Hskip. destruct (lookupKey (fst kv) a); [exact IH|].
    unfold lookupKey at 1. cbn [find]. apply String.eqb_neq in Hne. rewrite Hne. exact IH.
Qed.

(** Object spread on the free-form keys: a key of [b] wins over a key of [a]. *)
Lemma lookupKey_spreadExtra (k : string) (a b : list (string * string)) :
  lookupKey k (spreadExtra a b) = orElse (lookupKey k b) (lookupKey k a).
Proof.
  unfold spreadExtra. rewrite lookupKey_app, lookupKey_overridden, lookupKey_added.
  destruct (lookupKey k a), (lookupKey k b); reflexivity.
Qed.

Lemma updateListEntry_Ok (id : N) (updates : Updates) (w w' : World) :
  updateListEntry id updates w = (w', Ok tt) ->
  exists old new,
    store_get id w = Some old /\ store_get id w' = Some new
    /\ new = mkEntry
               (match u_list_name updates with Some l => l | None => list_name old end)
               (match u_domain updates with Some d => d | None => domain old end)
               (match u_pattern_type updates with Some t => t | None => pattern_type old end)
               (orElse (u_source updates) (source old))
               (let m := match u_metadata updates with
                         | Some um => spreadMetadata (metadata old) um
                         | None => metadata old
                         end in
                mkMetadata (created_at m) (Some (Date_now (ticks w)))
                           (sync_timestamp m) (extra m))
    /\ map fst (rows w') = map fst (rows w)
    /\ forall j, j <> id -> store_get j w' = store_get j w.
Proof.
  unfold updateListEntry.
  destruct (store_get id w) as [old|] eqn:Hget; [|discriminate].
  match goal with
  | |- context [if ?guard then _ else _] => destruct guard; [discriminate|]
  end.
  unfold date_now, store_put. cbn [rows key_gen ticks].
  match goal with
  | |- context [if ?clash then _ else _] => destruct clash; [discriminate|]
  end.
  intros H. injection H as <-.
  match goal with
  | |- context [map (fun r => if (fst r =? id)%N then (id, ?e) else r) (rows w)] =>
      set (new := e)
  end.
  exists old, new. split; [reflexivity|].
  unfold store_get in *. cbn [rows].
  destruct (find (fun r => (fst r =? id)%N) (rows w)) as [r0|] eqn:Hfind; [|discriminate].
  split; [rewrite (find_id_replacement id new (rows w) r0 Hfind); reflexivity|].
  split; [reflexivity|]. split.
  - rewrite map_map. apply map_ext. intros r.
    destruct (N.eqb_spec (fst r) id) as [->|]; reflexivity.
  - intros j Hj. rewrite find_id_replaced by assumption. reflexivity.
Qed.

(** X5.  A successful [updateListEntry] replaces exactly the entry with the
    given id.  Its list name, pattern, pattern type and source are the
    supplied ones where given and the stored ones elsewhere.  Its metadata are
    the stored ones overridden key by key by [updates.metadata]: [created_at],
    [sync_timestamp] and every free-form key read the supplied value when
    there is one and the stored value otherwise, and [updated_at] is the clock
    reading of the call.  The ids in the store and their order stay the same,
    and every other id still reads the entry it had. *)
Theorem updateListEntry_effect (id : N) (updates : Updates) (w w' : World) :
  updateListEntry id updates w = (w', Ok tt) ->
  exists old new,
    store_get id w = Some old /\ store_get id w' = Some new
    /\ list_name new = match u_list_name updates with Some l => l | None => list_name old end
    /\ domain new = match u_domain updates with Some d => d | None => domain old end
    /\ pattern_type new
       = match u_pattern_type updates with Some t => t | None => pattern_type old end
    /\ source new = orElse (u_source updates) (source old)
    /\ map fst (rows w') = map fst (rows w)
    /\ (forall j, j <> id -> store_get j w' = store_get j w)
    /\ created_at (metadata new)
       = orElse (match u_metadata updates with Some um => created_at um | None => None end)
                (created_at (metadata old))
    /\ updated_at (metadata new) = Some (Date_now (ticks w))
    /\ sync_timestamp (metadata new)
       = orElse (match u_metadata updates with Some um => sync_timestamp um | None => None end)
                (sync_timestamp (metadata old))
    /\ forall k,
         lookupKey k (extra (metadata new))
         = orElse (match u_metadata updates with
                   | Some um => lookupKey k (extra um)
                   | None => None
                   end)
                  (lookupKey k (extra (metadata old))).
Proof.
  intros Hok.
  destruct (updateListEntry_Ok id updates w w' Hok)
    as (old & new & Hold & Hnew & -> & Hids & Hothers).
  eexists old, _. split; [exact Hold|]. split; [exact Hnew|].
  cbn [list_name domain pattern_type source metadata
       created_at updated_at sync_timestamp extra].
  repeat (split; [first [reflexivity | assumption]|]).
  destruct (u_metadata updates) as [um|]; cbn [spreadMetadata created_at sync_timestamp extra].
  - repeat (split; [reflexivity|]). intros k. apply lookupKey_spreadExtra.
  - repeat (split; [reflexivity|]). intros k. reflexivity.
Qed.

(** X6.  A failed [updateListEntry] changes nothing: whenever it returns an
    error the rows and the key generator are as before; the error is "not
    found" exactly when the id is not stored; and an update whose resulting key
    is held by another entry fails. *)
Theorem updateListEntry_failure_keeps_store (id : N) (updates : Updates) (w : World) :
  (forall err,
      snd (updateListEntry id updates w) = Err err ->
      rows (fst (updateListEntry id updates w)) = rows w
      /\ key_gen (fst (updateListEntry id updates w)) = key_gen w
      /\ (err = EntryNotFound id <-> store_get id w = None))
  /\ (forall old j other,
         store_get id w = Some old -> In (j, other) (rows w) -> j <> id ->
         keyOf other
         = (match u_list_name updates with Some l => l | None => list_name old end,
            match u_pattern_type updates with Some t => t | None => pattern_type old end,
            match u_domain updates with Some d => d | None => domain old end) ->
         exists err, snd (updateListEntry id updates w) = Err err).
Proof.
  split.
  - intros err. unfold updateListEntry.
    destruct (store_get id w) as [old|] eqn:Hget.
    + match goal with
      | |- context [if ?guard then _ else _] => destruct guard
      end.
      * cbn [fst snd]. intros H. injection H as <-.
        repeat split; try discriminate.
      * unfold date_now, store_put. cbn [rows key_gen ticks].
        match goal with
        | |- context [if ?clash then _ else _] => destruct clash
        end; cbn [fst snd]; [|discriminate].
        intros H. injection H as <-. repeat split; try discriminate.
    + cbn [fst snd]. intros H. injection H as <-. repeat split; reflexivity.
  - intros old j other Hget Hin Hne Hkey. unfold updateListEntry. rewrite Hget.
    match goal with
    | |- context [if ?guard then _ else _] => destruct guard; [eexists; reflexivity|]
    end.
    unfold date_now, store_put. cbn [rows key_gen ticks].
    match goal with
    | |- context [existsb ?f (rows w)] =>
        assert (Hex : existsb f (rows w) = true)
    end.
    { apply existsb_exists. exists (j, other). split; [assumption|]. cbn [fst snd].
      apply andb_true_iff. split.
      - apply keyClash_spec. rewrite Hkey. reflexivity.
      - apply negb_true_iff, N.eqb_neq. assumption. }
    rewrite Hex. eexists. reflexivity.
Qed.

(** X7.  [deleteListEntry] removes the entry with the given id and nothing
    else: afterwards the id reads as absent, every other id reads as before,
    deleting an id that is not stored leaves the store as it is, and deleting
    twice is deleting once. *)
Theorem deleteListEntry_effect (id : N) (w : World) :
  store_get id (deleteListEntry id w) = None
  /\ (forall j, j <> id -> store_get j (deleteListEntry id w) = store_get j w)
  /\ (store_get id w = None -> deleteListEntry id w = w)
  /\ deleteListEntry id (deleteListEntry id w) = deleteListEntry id w.
Proof.
  unfold deleteListEntry, store_delete, store_get. cbn [rows key_gen ticks].
  split; [|split; [|split]].
  - assert (Hnone : find (fun r : N * Entry => (fst r =? id)%N)
                         (filter (fun r => negb (fst r =? id)%N) (rows w)) = None).
    { apply find_None_iff. intros x Hx. apply filter_In in Hx.
      destruct Hx as [_ Hx]. apply negb_true_iff in Hx. exact Hx. }
    rewrite Hnone. reflexivity.
  - intros j Hj. f_equal. induction (rows w) as [|r rs IH]; simpl; [reflexivity|].
    destruct (N.eqb_spec (fst r) id) as [Heq|Hneq]; simpl.
    + destruct (N.eqb_spec (fst r) j) as [Hrj|_]; [congruence|]. exact IH.
    + destruct (fst r =? j)%N; [reflexivity|exact IH].
  - intros Hget. destruct w as [rs k n]. cbn [rows key_gen ticks] in *. f_equal.
    apply filter_all. intros x Hx.
    destruct (find (fun r : N * Entry => (fst r =? id)%N) rs) as [r0|] eqn:Hfind;
      [discriminate|].
    rewrite (find_none _ _ Hfind x Hx). reflexivity.
  - f_equal. rewrite filter_twice. apply filter_ext. intros r. apply andb_diag.
Qed.

(** X8.  [deleteAllEntriesInList] empties exactly its target: without a
    source filter the list reads empty afterwards, with a filter the entries
    of that source in the list do; the entries of every other list, and with a
    filter those of every other source, read as before. *)
Theorem deleteAllEntriesInList_effect (l : string) (w : World) :
  getListEntries l (deleteAllEntriesInList l None w) = []
  /\ (forall src, getListEntriesBySource l src (deleteAllEntriesInList l (Some src) w) = [])
  /\ (forall l' sourceFilter,
         l' <> l ->
         getListEntries l' (deleteAllEntriesInList l sourceFilter w) = getListEntries l' w)
  /\ (forall src src',
         src' <> src ->
         getListEntriesBySource l src' (deleteAllEntriesInList l (Some src) w)
         = getListEntriesBySource l src' w).
Proof.
  unfold getListEntries, getListEntriesBySource, deleteAllEntriesInList. cbn [rows].
  split; [|split; [|split]].
  - rewrite filter_twice. apply filter_none. intros x _.
    destruct (list_name (snd x) =? l); reflexivity.
  - intros src. rewrite filter_twice. apply filter_none. intros x _.
    destruct ((list_name (snd x) =? l) && hasSource src (snd x)); reflexivity.
  - intros l' sf Hne. rewrite filter_twice. apply filter_ext. intros r.
    destruct (String.eqb_spec (list_name (snd r)) l') as [Heq|_];
      [|apply andb_false_r].
    rewrite andb_true_r.
    assert (Hl : (list_name (snd r) =? l) = false) by (apply String.eqb_neq; congruence).
    destruct sf; rewrite Hl; reflexivity.
  - intros src src' Hne. rewrite filter_twice. apply filter_ext. intros r.
    destruct ((list_name (snd r) =? l) && hasSource src' (snd r)) eqn:Hkeep;
      [|apply andb_false_r].
    rewrite andb_true_r. apply andb_true_iff in Hkeep. destruct Hkeep as [Hl Hs].
    rewrite Hl. cbn [andb]. unfold hasSource in *.
    destruct (source (snd r)) as [s|]; [|reflexivity].
    destruct s, src, src'; try reflexivity; try discriminate; congruence.
Qed.

(** X9.  Lookups: in a well-formed store [findListEntryByPattern] returns a
    row exactly when that row is the stored entry at the key, and nothing
    exactly when no entry has the key; the older [findListEntry] finds an entry
    of the list with that pattern whenever one of any pattern type exists. *)
Theorem lookups_find_stored_entries (l : string) (t : PatternType) (d : string)
    (w : World) :
  store_wf w ->
  (forall r, findListEntryByPattern l t d w = Some r
             <-> In r (rows w) /\ keyOf (snd r) = (l, t, d))
  /\ (findListEntryByPattern l t d w = None
      <-> forall r, In r (rows w) -> keyOf (snd r) <> (l, t, d))
  /\ (findListEntry l d w = None
      <-> forall r, In r (rows w) -> ~ (list_name (snd r) = l /\ domain (snd r) = d))
  /\ (forall r, findListEntry l d w = Some r ->
                In r (rows w) /\ list_name (snd r) = l /\ domain (snd r) = d).
Proof.
  intros (Hk & _ & _). unfold findListEntryByPattern, findListEntry.
  split; [|split; [|split]].
  - intros r. split.
    + intros Hfind. apply find_some in Hfind. rewrite sameKey_spec in Hfind. exact Hfind.
    + intros [Hin Hkey].
      destruct (find (fun r => sameKey l t d (snd r)) (rows w)) as [r'|] eqn:Hfind.
      * apply find_some in Hfind. destruct Hfind as [Hin' Hkey'].
        apply sameKey_spec in Hkey'. f_equal.
        apply (NoDup_map_injective _ _ (fun r => keyOf (snd r)) (rows w)); auto.
        congruence.
      * apply (find_none _ _ Hfind) in Hin. apply sameKey_spec in Hkey. congruence.
  - rewrite find_None_iff. split; intros H r Hr.
    + intros Hkey. apply sameKey_spec in Hkey. rewrite (H r Hr) in Hkey. discriminate.
    + destruct (sameKey l t d (snd r)) eqn:Hs; [|reflexivity].
      apply sameKey_spec in Hs. exfalso. exact (H r Hr Hs).
  - rewrite find_None_iff. split; intros H r Hr.
    + intros [Hl Hd]. specialize (H r Hr). cbn beta in H.
      rewrite Hl, Hd, !String.eqb_refl in H. discriminate.
    + destruct ((list_name (snd r) =? l) && (domain (snd r) =? d)) eqn:Hs; [|reflexivity].
      apply andb_true_iff in Hs. rewrite !String.eqb_eq in Hs. exfalso. exact (H r Hr Hs).
  - intros r Hfind. apply find_some in Hfind. destruct Hfind as [Hin Hs].
    apply andb_true_iff in Hs. rewrite !String.eqb_eq in Hs. tauto.
Qed.





End CrudProperties.

(** ** Bulk insert, import and export *)

Section BulkProperties.

Context {P : Platform} {S : Services}.

Lemma withTimestamps_portable entry w :
  portable (fst (withTimestamps entry w)) = portable entry.
Proof.
  unfold withTimestamps, date_now.
  destruct (created_at (metadata entry)) as [c|]; [destruct (c =? 0)%Z|]; reflexivity.
Qed.

Lemma stampAll_portable es : forall w,
  map portable (fst (stampAll es w)) = map portable es.
Proof.
  induction es as [|e es IH]; intros w; simpl; [reflexivity|].
  pose proof (withTimestamps_portable e w) as He.
  destruct (withTimestamps e w) as [e' w1]. cbn [fst] in He.
  specialize (IH w1). destruct (stampAll es w1) as [es' w2]. cbn [fst] in *.
  simpl. congruence.
Qed.

Lemma generatedIds_length first count :
  List.length (generatedIds first count) = count.
Proof.
  revert first. induction count as [|n IH]; intros first; simpl; [reflexivity|].
  rewrite IH. reflexivity.
Qed.

Lemma insertable_rows es (rs : list (N * Entry)) :
  insertable es (map snd rs) = true
  <-> NoDup (map keyOf es)
      /\ (forall e r, In e es -> In r rs -> keyOf (snd r) <> keyOf e).
Proof.
  rewrite insertable_iff. split; intros [Hnd Hfresh]; (split; [assumption|]).
  - intros e r He Hr. apply Hfresh; [assumption|]. apply in_map. assumption.
  - intros e x He Hx. apply in_map_iff in Hx. destruct Hx as (r & <- & Hr). auto.
Qed.

(** The outcome of a bulk insert in terms of the stamped batch. *)
Lemma bulkCreateListEntries_outcome es w :
  (insertable es (map snd (rows w)) = true
   /\ snd (bulkCreateListEntries es w) = Ok (generatedIds (key_gen w) (List.length es))
   /\ rows (fst (bulkCreateListEntries es w))
      = rows w ++ combine (generatedIds (key_gen w) (List.length es)) (fst (stampAll es w))
   /\ key_gen (fst (bulkCreateListEntries es w))
      = (key_gen w + N.of_nat (List.length es))%N)
  \/ (insertable es (map snd (rows w)) = false
      /\ snd (bulkCreateListEntries es w) = Err FailedToCreateBulkEntry
      /\ rows (fst (bulkCreateListEntries es w)) = rows w
      /\ key_gen (fst (bulkCreateListEntries es w)) = key_gen w).
Proof.
  unfold bulkCreateListEntries.
  destruct (stampAll_frame es w) as (Hr & Hk & Ho).
  destruct (stampAll es w) as [stamped w1]. cbn [fst snd] in *.
  assert (Hlen : List.length stamped = List.length es).
  { apply (f_equal (@List.length _)) in Ho. rewrite !length_map in Ho. exact Ho. }
  assert (Hins : insertable es (map snd (rows w)) = insertable stamped (map snd (rows w1))).
  { apply insertable_keys; [|rewrite Hr; reflexivity].
    symmetry. apply observable_keyOf. exact Ho. }
  destruct (addAll stamped w1) as [[ids w2]|] eqn:Hadd; cbn [fst snd].
  - destruct (addAll_ids stamped w1 ids w2 Hadd) as [-> Hk2].
    apply addAll_Some in Hadd. destruct Hadd as (Hr2 & _ & _ & Hi).
    rewrite Hr in Hins, Hi, Hr2. rewrite Hk, Hlen in Hr2, Hk2.
    left. repeat split; congruence.
  - apply addAll_None in Hadd. rewrite Hr in Hins, Hadd.
    right. repeat split; congruence.
Qed.

(** X10.  [bulkCreateListEntries] is all or nothing.  When the keys of the
    batch are distinct and none of them is stored, every entry is added, in
    order, under consecutive ids starting at the key generator, with the list
    name, pattern, pattern type, source and remaining metadata it came with.
    Otherwise the call fails and the rows and the key generator are as
    before. *)
Theorem bulkCreateListEntries_all_or_nothing (es : list Entry) (w : World) :
  (NoDup (map keyOf es)
   /\ (forall e r, In e es -> In r (rows w) -> keyOf (snd r) <> keyOf e)
   /\ exists stamped,
        snd (bulkCreateListEntries es w) = Ok (generatedIds (key_gen w) (List.length es))
        /\ rows (fst (bulkCreateListEntries es w))
           = rows w ++ combine (generatedIds (key_gen w) (List.length es)) stamped
        /\ map observable stamped = map observable es
        /\ map portable stamped = map portable es)
  \/ (~ (NoDup (map keyOf es)
         /\ (forall e r, In e es -> In r (rows w) -> keyOf (snd r) <> keyOf e))
      /\ snd (bulkCreateListEntries es w) = Err FailedToCreateBulkEntry
      /\ rows (fst (bulkCreateListEntries es w)) = rows w
      /\ key_gen (fst (bulkCreateListEntries es w)) = key_gen w).
Proof.
  destruct (bulkCreateListEntries_outcome es w)
    as [(Hins & Hres & Hrows & _)|(Hins & Hres & Hrows & Hk)].
  - left. apply insertable_rows in Hins. destruct Hins as [Hnd Hfresh].
    split; [assumption|]. split; [assumption|].
    exists (fst (stampAll es w)). repeat split; try assumption.
    + apply stampAll_frame.
    + apply stampAll_portable.
  - right. split; [|auto]. intros Hok. apply insertable_rows in Hok. congruence.
Qed.

Lemma fileEntry_keys l fes :
  map keyOf (map (fileEntry l) fes)
  = map (fun k : string * string => (l, snd k, fst k)) (map fileKey fes).
Proof. rewrite !map_map. reflexivity. Qed.

(** What an import of parsed entries does. *)
Lemma importList_outcome l jsonData fes w :
  JSON_parse jsonData = Some (mkImportData (Some fes)) ->
  exists stamped ids,
    map observable stamped = map observable (map (fileEntry l) fes)
    /\ map portable stamped = map portable (map (fileEntry l) fes)
    /\ List.length ids = List.length stamped
    /\ ((NoDup (map fileKey fes)
         /\ snd (importList l jsonData w) = Ok (List.length fes)
         /\ rows (fst (importList l jsonData w))
            = filter (fun r => negb (list_name (snd r) =? l)) (rows w)
              ++ combine ids stamped)
        \/ (~ NoDup (map fileKey fes)
            /\ snd (importList l jsonData w) = Err (FailedToImportList FailedToCreateBulkEntry)
            /\ rows (fst (importList l jsonData w))
               = filter (fun r => negb (list_name (snd r) =? l)) (rows w))).
Proof.
  intros Hjson. unfold importList. rewrite Hjson. cbn [entries].
  set (w1 := deleteAllEntriesInList l None w).
  match goal with
  | |- context [bulkCreateListEntries ?n w1] => change n with (map (fileEntry l) fes)
  end.
  set (news := map (fileEntry l) fes).
  assert (Hfresh : forall e r, In e news -> In r (rows w1) -> keyOf (snd r) <> keyOf e).
  { intros e r He Hr Hkey. unfold news in He. apply in_map_iff in He.
    destruct He as (f & <- & _). unfold w1, deleteAllEntriesInList in Hr. cbn [rows] in Hr.
    apply filter_In in Hr. destruct Hr as [_ Hr]. apply negb_true_iff in Hr.
    apply String.eqb_neq in Hr. apply Hr. unfold keyOf in Hkey. cbn in Hkey. congruence. }
  assert (Hnd : NoDup (map keyOf news) <-> NoDup (map fileKey fes)).
  { unfold news. rewrite fileEntry_keys. apply backendKey_injective. }
  exists (fst (stampAll news w1)), (generatedIds (key_gen w1) (List.length news)).
  split; [apply stampAll_frame|]. split; [apply stampAll_portable|].
  split.
  { rewrite generatedIds_length.
    destruct (stampAll_frame news w1) as (_ & _ & Ho).
    apply (f_equal (@List.length _)) in Ho. rewrite !length_map in Ho. symmetry. exact Ho. }
  assert (Hlen : List.length news = List.length fes) by (unfold news; apply length_map).
  destruct (bulkCreateListEntries_outcome news w1)
    as [(Hins & Hres & Hrows & _)|(Hins & Hres & Hrows & _)];
    destruct (bulkCreateListEntries news w1) as [w2 [ids|err]]; cbn [fst snd] in *;
    try discriminate.
  - left. apply insertable_rows in Hins. destruct Hins as [Hk _].
    injection Hres as ->. split; [apply Hnd; exact Hk|]. split.
    + rewrite generatedIds_length, Hlen. reflexivity.
    + exact Hrows.
  - right. injection Hres as ->. split; [|split; [reflexivity|exact Hrows]].
    intros Hok. apply Hnd in Hok.
    assert (insertable news (map snd (rows w1)) = true); [|congruence].
    apply insertable_rows. auto.
Qed.

Lemma getListEntries_after_import l (rs extra_rows : list (N * Entry)) :
  (forall r, In r extra_rows -> list_name (snd r) = l) ->
  filter (fun r : N * Entry => list_name (snd r) =? l)
         (filter (fun r => negb (list_name (snd r) =? l)) rs ++ extra_rows)
  = extra_rows.
Proof.
  intros Hall. rewrite filter_app, filter_twice.
  rewrite (filter_none _ (fun x : N * Entry =>
                            negb (list_name (snd x) =? l) && (list_name (snd x) =? l))).
  - apply filter_all. intros r Hr. rewrite (Hall r Hr). apply String.eqb_refl.
  - intros x _. destruct (list_name (snd x) =? l); reflexivity.
Qed.

Lemma combine_list_name l (ids : list N) (stamped : list Entry) (es : list Entry) :
  map observable stamped = map observable es ->
  (forall e, In e es -> list_name e = l) ->
  forall r, In r (combine ids stamped) -> list_name (snd r) = l.
Proof.
  intros Hobs Hes [i e] Hin. apply in_combine_r in Hin.
  apply (in_map observable) in Hin. rewrite Hobs in Hin. apply in_map_iff in Hin.
  destruct Hin as (e0 & Ho & He0). cbn [snd]. rewrite <- (Hes e0 He0).
  unfold observable in Ho. congruence.
Qed.

(** X11.  An import succeeds exactly when the file repeats no
    [(pattern, pattern type)] pair.  Then the list holds the file's entries, in
    order and without a source, and the call returns their number.  When the
    file repeats a pair the call fails after the list has been cleared, so the
    list is left empty.  In both cases every other list reads as before. *)
Theorem importList_outcomes (l jsonData : string) (fes : list FileEntry) (w : World) :
  JSON_parse jsonData = Some (mkImportData (Some fes)) ->
  (NoDup (map fileKey fes) ->
   snd (importList l jsonData w) = Ok (List.length fes)
   /\ map (fun r => observable (snd r)) (getListEntries l (fst (importList l jsonData w)))
      = map (fun f => (l, f_pattern_type f, f_domain f, None)) fes)
  /\ (~ NoDup (map fileKey fes) ->
      snd (importList l jsonData w) = Err (FailedToImportList FailedToCreateBulkEntry)
      /\ getListEntries l (fst (importList l jsonData w)) = [])
  /\ (forall l', l' <> l ->
                 getListEntries l' (fst (importList l jsonData w)) = getListEntries l' w).
Proof.
  intros Hjson.
  destruct (importList_outcome l jsonData fes w Hjson)
    as (stamped & ids & Hobs & _ & Hlen & Hcases).
  assert (Hin_l : forall r, In r (combine ids stamped) -> list_name (snd r) = l).
  { apply (combine_list_name l ids stamped _ Hobs). intros e He.
    apply in_map_iff in He. destruct He as (f & <- & _). reflexivity. }
  assert (Hother : forall l' (extra_rows : list (N * Entry)),
             l' <> l -> (forall r, In r extra_rows -> list_name (snd r) = l) ->
             filter (fun r : N * Entry => list_name (snd r) =? l')
                    (filter (fun r => negb (list_name (snd r) =? l)) (rows w) ++ extra_rows)
             = getListEntries l' w).
  { intros l' extra_rows Hne Hall. rewrite filter_app, filter_twice.
    rewrite (filter_none _ _ extra_rows).
    - rewrite app_nil_r. apply filter_ext. intros r.
      destruct (String.eqb_spec (list_name (snd r)) l') as [Heq|_];
        [|apply andb_false_r].
      assert (Hl : (list_name (snd r) =? l) = false) by (apply String.eqb_neq; congruence).
      rewrite Hl. reflexivity.
    - intros r Hr. apply String.eqb_neq. rewrite (Hall r Hr). congruence. }
  unfold getListEntries.
  destruct Hcases as [(Hnd & Hres & Hrows)|(Hnd & Hres & Hrows)]; rewrite Hrows.
  - split; [|split].
    + intros _. split; [assumption|].
      rewrite getListEntries_after_import by assumption.
      rewrite (map_combine_snd _ _ observable stamped ids Hlen), Hobs, map_map.
      reflexivity.
    + intros Hno. contradiction.
    + intros l' Hne. apply Hother; assumption.
  - split; [|split].
    + intros Hyes. contradiction.
    + intros _. split; [assumption|].
      rewrite <- (app_nil_r (filter _ (rows w))).
      apply getListEntries_after_import. intros r [].
    + intros l' Hne. rewrite <- (app_nil_r (filter _ (rows w))).
      apply Hother; [assumption|intros r []].
Qed.

(** X12.  Export then import: when the exported text parses back to the
    exported [entries] array, importing it into the same list succeeds,
    returns the number of entries the list had, and the list then holds the
    same patterns, pattern types and remaining metadata ([sync_timestamp] and
    the free-form keys) in the same order, with every source gone; ids,
    [created_at] and [updated_at] are not compared. *)
Theorem export_import_round_trip (l : string) (w : World) :
  store_wf w ->
  JSON_parse (fst (exportList l w)) = Some (mkImportData (Some (exportedEntries l w))) ->
  snd (importList l (fst (exportList l w)) (snd (exportList l w)))
  = Ok (List.length (getListEntries l w))
  /\ map (fun r => portable (snd r))
         (getListEntries l (fst (importList l (fst (exportList l w)) (snd (exportList l w)))))
     = map (fun r => portable (snd r)) (getListEntries l w)
  /\ Forall (fun r => source (snd r) = None)
            (getListEntries l (fst (importList l (fst (exportList l w))
                                               (snd (exportList l w))))).
Proof.
  intros (Hk & _ & _) Hjson.
  set (text := fst (exportList l w)) in *.
  set (w1 := snd (exportList l w)).
  assert (Hrows1 : rows w1 = rows w) by reflexivity.
  set (fes := exportedEntries l w) in *.
  assert (Hlen_f : List.length fes = List.length (getListEntries l w))
    by (unfold fes, exportedEntries; apply length_map).
  assert (Hnd : NoDup (map fileKey fes)).
  { apply (backendKey_injective l).
    replace (map (fun k : string * string => (l, snd k, fst k)) (map fileKey fes))
      with (map (fun r : N * Entry => keyOf (snd r)) (getListEntries l w)).
    - unfold getListEntries. apply NoDup_map_filter. exact Hk.
    - unfold fes, exportedEntries. rewrite !map_map. apply map_ext_in.
      intros r Hr. unfold getListEntries in Hr. apply filter_In in Hr.
      destruct Hr as [_ Hr]. apply String.eqb_eq in Hr.
      unfold keyOf, fileKey. cbn. rewrite Hr. reflexivity. }
  destruct (importList_outcome l text fes w1 Hjson)
    as (stamped & ids & Hobs & Hport & Hlen & Hcases).
  destruct Hcases as [(_ & Hres & Hrows)|(Hno & _)]; [|contradiction].
  assert (Hin_l : forall r, In r (combine ids stamped) -> list_name (snd r) = l).
  { apply (combine_list_name l ids stamped _ Hobs). intros e He.
    apply in_map_iff in He. destruct He as (f & <- & _). reflexivity. }
  assert (Hget : getListEntries l (fst (importList l text w1)) = combine ids stamped).
  { unfold getListEntries. rewrite Hrows, Hrows1.
    apply getListEntries_after_import. assumption. }
  rewrite Hget.
  split; [rewrite Hres; congruence|]. split.
  - rewrite (map_combine_snd _ _ portable stamped ids Hlen), Hport.
    unfold fes, exportedEntries. rewrite !map_map. reflexivity.
  - apply Forall_forall. intros [i e] Hin. apply in_combine_r in Hin.
    apply (in_map observable) in Hin. rewrite Hobs in Hin. apply in_map_iff in Hin.
    destruct Hin as (e0 & Ho & He0). apply in_map_iff in He0.
    destruct He0 as (f & <- & _). unfold observable in Ho. cbn in Ho. cbn [snd]. congruence.
Qed.

End BulkProperties.

(** ** Merging the same batch twice *)

Section MergeIdempotence.

Context {P : Platform}.

Lemma withTimestamps_stable entry w :
  stable (fst (withTimestamps entry w)) = stable entry.
Proof.
  unfold withTimestamps, date_now.
  destruct (created_at (metadata entry)) as [c|]; [destruct (c =? 0)%Z|]; reflexivity.
Qed.

Lemma stampAll_stable es : forall w,
  map stable (fst (stampAll es w)) = map stable es.
Proof.
  induction es as [|e es IH]; intros w; simpl; [reflexivity|].
  pose proof (withTimestamps_stable e w) as He.
  destruct (withTimestamps e w) as [e' w1]. cbn [fst] in He.
  specialize (IH w1). destruct (stampAll es w1) as [es' w2]. cbn [fst] in *.
  simpl. congruence.
Qed.

Lemma prepareBackendEntries_stable l es : forall w,
  map stable (fst (prepareBackendEntries l es w)) = acceptedEntries l es.
Proof.
  induction es as [|c es IH]; intros w; simpl; [reflexivity|].
  unfold accepts. destruct (candidateKey c) as [[d t]|]; [|apply IH].
  destruct ((t =? "domain") && negb (isStrictRegisteredDomain d)); [apply IH|].
  unfold date_now.
  set (w1 := mkWorld (rows w) (key_gen w) (S (ticks w))).
  specialize (IH w1).
  destruct (prepareBackendEntries l es w1) as [news w2]. cbn [fst] in *.
  simpl. f_equal; [|exact IH].
  unfold stable, carried. destruct (c_metadata c); reflexivity.
Qed.

Lemma acceptedEntries_keys l es :
  map fst (acceptedEntries l es) = map (backendEntryView l) (accepted es).
Proof.
  induction es as [|c es IH]; simpl; [reflexivity|].
  destruct (accepts c); simpl; [f_equal|]; exact IH.
Qed.

Lemma stable_observable (news : list Entry) l es :
  map stable news = acceptedEntries l es ->
  map observable news = map (backendEntryView l) (accepted es).
Proof.
  intros H. rewrite <- acceptedEntries_keys, <- H, map_map. reflexivity.
Qed.

(** The store after a merge, with the records the merge wrote. *)
Lemma mergeBackendList_rows l es w :
  store_wf w ->
  exists news ids,
    map stable news = acceptedEntries l es
    /\ List.length ids = List.length news
    /\ ((snd (mergeBackendList l es w) = Ok tt
         /\ rows (fst (mergeBackendList l es w)) = survivors l es w ++ combine ids news)
        \/ (snd (mergeBackendList l es w) = Err FailedToCreateBulkEntry
            /\ rows (fst (mergeBackendList l es w)) = survivors l es w)).
Proof.
  intros Hwf. unfold mergeBackendList.
  assert (Hwf1 : store_wf (deleteAllEntriesInList l (Some backend) w))
    by (apply store_wf_filter; assumption).
  rewrite (resolve_all l es _ Hwf1).
  set (w2 := mkWorld _ _ _).
  assert (Hw2 : rows w2 = survivors l es w) by reflexivity.
  destruct (prepareBackendEntries_frame l es w2) as (Hr & _ & _).
  pose proof (prepareBackendEntries_stable l es w2) as Hst.
  rewrite Hw2 in Hr. clearbody w2.
  destruct (prepareBackendEntries l es w2) as [news w3]. cbn [fst snd] in Hr, Hst.
  destruct news as [|n news].
  - exists [], []. split; [exact Hst|]. split; [reflexivity|].
    left. simpl. rewrite app_nil_r. auto.
  - pose proof (stampAll_stable (n :: news) w3) as Hstamped.
    exists (fst (stampAll (n :: news) w3)),
           (generatedIds (key_gen w3) (List.length (n :: news))).
    split; [congruence|]. split.
    { rewrite generatedIds_length.
      apply (f_equal (@List.length _)) in Hstamped. rewrite !length_map in Hstamped.
      symmetry. exact Hstamped. }
    destruct (bulkCreateListEntries_outcome (n :: news) w3)
      as [(_ & Hres & Hrows & _)|(_ & Hres & Hrows & _)];
      destruct (bulkCreateListEntries (n :: news) w3) as [w4 [ids'|err]];
      cbn [fst snd] in *; try discriminate; rewrite Hr in Hrows.
    + left. auto.
    + right. injection Hres as ->. auto.
Qed.

(** C9 (merge idempotence), as the code has it.  Running the merge of a batch
    twice in a row ends as running it once does.  The entries the merge does
    not write are the very same records after both.  The backend entries it
    writes are written again by the second run: they agree with those of the
    first run in list, pattern type, pattern, source and free-form metadata,
    which are those of the accepted candidates, in the order of the batch;
    their ids and their time stamps are new. *)
Theorem merge_idempotent (l : string) (es : list Candidate) (w : World) :
  store_wf w ->
  exists written written',
    rows (fst (mergeBackendList l es w)) = survivors l es w ++ written
    /\ rows (fst (mergeBackendList l es (fst (mergeBackendList l es w))))
       = survivors l es w ++ written'
    /\ map (fun r => stable (snd r)) written' = map (fun r => stable (snd r)) written
    /\ snd (mergeBackendList l es (fst (mergeBackendList l es w)))
       = snd (mergeBackendList l es w)
    /\ (snd (mergeBackendList l es w) = Ok tt ->
        map (fun r => stable (snd r)) written = acceptedEntries l es).
Proof.
  intros Hwf.
  pose proof (mergeBackendList_wf l es w Hwf) as Hwf1.
  pose proof (mergeBackendList_completes l es w Hwf) as Hdone.
  pose proof (mergeBackendList_completes l es _ Hwf1) as Hdone'.
  destruct (mergeBackendList_rows l es w Hwf) as (news & ids & Hst & Hlen & Hcases).
  set (w1 := fst (mergeBackendList l es w)) in *.
  destruct (mergeBackendList_rows l es w1 Hwf1) as (news' & ids' & Hst' & Hlen' & Hcases').
  assert (Hsurv : survivors l es w1 = survivors l es w).
  { unfold survivors at 1.
    destruct Hcases as [(_ & -> )|(_ & ->)].
    - apply survivors_of_merged.
      apply (inserted_are_backend l (accepted es)). apply stable_observable. exact Hst.
    - rewrite <- (app_nil_r (survivors l es w)) at 1.
      apply survivors_of_merged. intros r []. }
  rewrite Hsurv in Hcases'.
  destruct Hcases as [(Hres & Hrows)|(Hres & Hrows)];
    destruct Hcases' as [(Hres' & Hrows')|(Hres' & Hrows')].
  - exists (combine ids news), (combine ids' news').
    split; [exact Hrows|]. split; [exact Hrows'|].
    rewrite (map_combine_snd _ _ stable news' ids' Hlen').
    rewrite (map_combine_snd _ _ stable news ids Hlen).
    split; [congruence|]. split; [congruence|]. intros _. exact Hst.
  - exfalso. rewrite Hres in Hdone. rewrite Hres' in Hdone'.
    destruct Hdone' as [_ Hd]. specialize (Hd (proj1 Hdone eq_refl)). discriminate.
  - exfalso. rewrite Hres in Hdone. rewrite Hres' in Hdone'.
    destruct Hdone as [_ Hd]. specialize (Hd (proj1 Hdone' eq_refl)). discriminate.
  - exists [], []. rewrite !app_nil_r.
    split; [exact Hrows|]. split; [exact Hrows'|].
    split; [reflexivity|]. split; [congruence|]. rewrite Hres. discriminate.
Qed.

End MergeIdempotence.

(** C9 as stated fails: besides [sync_timestamp], the second merge gives the
    backend entries new ids and new [created_at] and [updated_at]. *)
Lemma merge_twice_refreshes_ids_and_dates :
  map (fun r => (fst r, created_at (metadata (snd r)), updated_at (metadata (snd r))))
      (entriesAt "blocklist" "host" "example.com"
         (fst (@mergeBackendList Demo.platform "blocklist" sample_batch sample_world)))
  = [(4%N, Some 1700000000002%Z, Some 1700000000003%Z)]
  /\ map (fun r => (fst r, created_at (metadata (snd r)), updated_at (metadata (snd r))))
         (entriesAt "blocklist" "host" "example.com"
            (fst (@mergeBackendList Demo.platform "blocklist" sample_batch
                    (fst (@mergeBackendList Demo.platform "blocklist" sample_batch
                            sample_world)))))
     = [(6%N, Some 1700000000008%Z, Some 1700000000009%Z)].
Proof. vm_compute. split; reflexivity. Qed.

Lemma merge_idempotent_witness :
  exists written written',
    rows (fst (@mergeBackendList Demo.platform "blocklist" sample_tagged_batch sample_world))
    = [(3%N, sample_subdomain_entry)] ++ written
    /\ rows (fst (@mergeBackendList Demo.platform "blocklist" sample_tagged_batch
                    (fst (@mergeBackendList Demo.platform "blocklist" sample_tagged_batch
                            sample_world))))
       = [(3%N, sample_subdomain_entry)] ++ written'
    /\ map (fun r => stable (snd r)) written' = map (fun r => stable (snd r)) written
    /\ map (fun r => stable (snd r)) written
       = [ (("blocklist", "host", "example.com", Some backend), [("category", "ads")]);
           (("blocklist", "domain", "google.com", Some backend), []) ].
Proof.
  destruct (@merge_idempotent Demo.platform "blocklist" sample_tagged_batch sample_world
              sample_world_wf) as (written & written' & Hrows & Hrows' & Hsame & _ & Hview).
  exists written, written'.
  split; [exact Hrows|]. split; [exact Hrows'|]. split; [exact Hsame|].
  apply Hview. vm_compute. reflexivity.
Defined.


(** ** List names and list matching *)

Section QueryProperties.

Context {P : Platform}.

Lemma setAdd_In name set x : In x (setAdd name set) <-> x = name \/ In x set.
Proof.
  unfold setAdd. destruct (existsb (String.eqb name) set) eqn:Hex.
  - split; [auto|]. intros [->|H]; [|assumption].
    apply existsb_exists in Hex. destruct Hex as (y & Hy & Heq).
    apply String.eqb_eq in Heq. subst y. assumption.
  - rewrite in_app_iff. simpl. intuition.
Qed.

Lemma setAdd_NoDup name set : NoDup set -> NoDup (setAdd name set).
Proof.
  intros Hnd. unfold setAdd. destruct (existsb (String.eqb name) set) eqn:Hex; [assumption|].
  apply NoDup_app; [assumption|repeat constructor; simpl; tauto|].
  intros x Hx [<-|[]].
  assert (existsb (String.eqb name) set = true); [|congruence].
  apply existsb_exists. exists name. split; [assumption|apply String.eqb_refl].
Qed.

Lemma listNames_fold (rs : list (N * Entry)) : forall acc,
  NoDup acc ->
  NoDup (fold_left (fun listNames r => setAdd (list_name (snd r)) listNames) rs acc)
  /\ forall x,
       In x (fold_left (fun listNames r => setAdd (list_name (snd r)) listNames) rs acc)
       <-> In x acc \/ exists r, In r rs /\ list_name (snd r) = x.
Proof.
  induction rs as [|r rs IH]; intros acc Hnd; simpl.
  - split; [assumption|]. intros x. split; [auto|]. intros [H|(r & [] & _)]. assumption.
  - destruct (IH (setAdd (list_name (snd r)) acc) (setAdd_NoDup _ _ Hnd)) as [Hnd' Hin].
    split; [assumption|]. intros x. rewrite Hin, setAdd_In. split.
    + intros [[->|H]|(r' & Hr' & Hx)]; eauto.
    + intros [H|(r' & [->|Hr'] & Hx)]; eauto.
Qed.

Lemma unitsLeb_total (a b : list N) :
  JS.unitsLeb a b = true \/ JS.unitsLeb b a = true.
Proof.
  revert b. induction a as [|x a IH]; intros [|y b]; simpl; auto.
  destruct (x <? y)%N eqn:Hxy, (y <? x)%N eqn:Hyx; auto.
Qed.

Lemma codeUnitLeb_total (a b : string) :
  JS.codeUnitLeb a b = true \/ JS.codeUnitLeb b a = true.
Proof. apply unitsLeb_total. Qed.

Lemma insertSorted_In name l x : In x (insertSorted name l) <-> x = name \/ In x l.
Proof.
  induction l as [|y l IH]; simpl; [intuition|].
  destruct (JS.codeUnitLeb name y); simpl; [intuition|]. rewrite IH. intuition.
Qed.

Lemma insertSorted_NoDup name l :
  ~ In name l -> NoDup l -> NoDup (insertSorted name l).
Proof.
  induction l as [|y l IH]; simpl; intros Hnin Hnd; [repeat constructor; tauto|].
  destruct (JS.codeUnitLeb name y); [constructor; assumption|].
  inversion Hnd as [|? ? Hy Hnd']; subst. constructor.
  - rewrite insertSorted_In. intros [->|H]; [apply Hnin; auto|contradiction].
  - apply IH; [tauto|assumption].
Qed.

Lemma insertSorted_Sorted name l :
  Sorted (fun a b => JS.codeUnitLeb a b = true) l ->
  Sorted (fun a b => JS.codeUnitLeb a b = true) (insertSorted name l).
Proof.
  induction l as [|y l IH]; simpl; intros Hs; [repeat constructor|].
  destruct (JS.codeUnitLeb name y) eqn:Hle.
  - constructor; [assumption|]. constructor. assumption.
  - inversion Hs as [|? ? Hs' Hhd]; subst. constructor; [apply IH; assumption|].
    assert (Hyn : JS.codeUnitLeb y name = true)
      by (destruct (codeUnitLeb_total name y); congruence).
    destruct l as [|z l]; simpl; [constructor; assumption|].
    destruct (JS.codeUnitLeb name z); constructor; [assumption|].
    inversion Hhd; assumption.
Qed.

Lemma sortStrings_spec l :
  Sorted (fun a b => JS.codeUnitLeb a b = true) (sortStrings l)
  /\ (NoDup l -> NoDup (sortStrings l))
  /\ forall x, In x (sortStrings l) <-> In x l.
Proof.
  induction l as [|y l (Hs & Hnd & Hin)]; simpl.
  - repeat split; auto; constructor.
  - split; [apply insertSorted_Sorted; assumption|]. split.
    + intros H. inversion H; subst. apply insertSorted_NoDup; [rewrite Hin|]; auto.
    + intros x. rewrite insertSorted_In, Hin. intuition.
Qed.

(** X13.  [getAllLists] returns the names of the lists in use: a name is in
    the result exactly when some stored entry carries it, no name comes twice,
    and each name is at most its successor in the order of the default sort,
    which compares UTF-16 code units. *)
Theorem getAllLists_sorted_distinct (w : World) :
  Sorted (fun a b => JS.codeUnitLeb a b = true) (getAllLists w)
  /\ NoDup (getAllLists w)
  /\ forall l, In l (getAllLists w) <-> exists r, In r (rows w) /\ list_name (snd r) = l.
Proof.
  unfold getAllLists.
  destruct (listNames_fold (rows w) [] (NoDup_nil _)) as [Hnd Hin].
  destruct (sortStrings_spec
              (fold_left (fun listNames r => setAdd (list_name (snd r)) listNames)
                         (rows w) [])) as (Hs & Hnd' & Hin').
  split; [assumption|]. split; [auto|].
  intros l. rewrite Hin', Hin. simpl. tauto.
Qed.

Lemma find_first {A} (f : A -> bool) (l : list A) (r : A) :
  find f l = Some r ->
  exists before after,
    l = before ++ r :: after /\ f r = true /\ forall x, In x before -> f x = false.
Proof.
  induction l as [|y l IH]; simpl; [discriminate|].
  destruct (f y) eqn:Hy.
  - intros H. injection H as <-. exists [], l. simpl. tauto.
  - intros H. destruct (IH H) as (before & after & -> & Hr & Hb).
    exists (y :: before), after. simpl. repeat split; auto.
    intros x [<-|Hx]; auto.
Qed.

(** X14.  [matchDomainAgainstList] returns the first entry of the list, in
    stored order, whose pattern matches the URL: every entry before it does not
    match; it returns nothing exactly when no entry of the list matches, and so
    for every URL that does not parse. *)
Theorem matchDomainAgainstList_first_match (url l : string) (w : World) :
  (forall r,
      matchDomainAgainstList url l w = Some r ->
      exists before after,
        getListEntries l w = before ++ r :: after
        /\ matchesPattern url (domain (snd r)) (pattern_type (snd r)) = true
        /\ forall x, In x before ->
                     matchesPattern url (domain (snd x)) (pattern_type (snd x)) = false)
  /\ (matchDomainAgainstList url l w = None
      <-> forall r, In r (rows w) -> list_name (snd r) = l ->
                    matchesPattern url (domain (snd r)) (pattern_type (snd r)) = false)
  /\ (URL_new url = None -> matchDomainAgainstList url l w = None).
Proof.
  assert (Hnone : matchDomainAgainstList url l w = None
                  <-> forall r, In r (rows w) -> list_name (snd r) = l ->
                        matchesPattern url (domain (snd r)) (pattern_type (snd r)) = false).
  { unfold matchDomainAgainstList, getListEntries. rewrite find_None_iff. split.
    - intros H r Hr Hl. apply H. apply filter_In. split; [assumption|].
      apply String.eqb_eq. assumption.
    - intros H r Hr. apply filter_In in Hr. destruct Hr as [Hr Hl].
      apply String.eqb_eq in Hl. auto. }
  split; [|split; [exact Hnone|]].
  - intros r Hfind. apply find_first in Hfind. exact Hfind.
  - intros Hurl. apply Hnone. intros r _ _.
    unfold matchesPattern, matchesPattern_try. rewrite Hurl. reflexivity.
Qed.

(** X15.  ['exact_url'] patterns and unknown pattern types: an ['exact_url']
    pattern matches exactly when it equals the URL and the URL parses (a string
    that is no URL does not even match itself); a pattern type outside the five
    recognised ones matches nothing. *)
Theorem matchesPattern_exact_and_unknown (url pattern : string) (t : PatternType) :
  (matchesPattern url pattern "exact_url" = true
   <-> url = pattern /\ URL_new url <> None)
  /\ (knownPatternType t = false -> matchesPattern url pattern t = false).
Proof.
  unfold matchesPattern, matchesPattern_try. split.
  - destruct (URL_new url) as [u|]; simpl.
    + rewrite String.eqb_eq. intuition discriminate.
    + intuition discriminate.
  - unfold knownPatternType. rewrite !orb_false_iff.
    intros ((((H1 & H2) & H3) & H4) & H5).
    destruct (URL_new url); [|reflexivity]. rewrite H1, H2, H3, H4, H5. reflexivity.
Qed.

Lemma host_compare_true (urlHost patternHost : string) :
  (if negb (JS.truthy (normalizeLeadingWww patternHost)) then Some false
   else Some (normalizeLeadingWww urlHost =? normalizeLeadingWww patternHost))
  = Some true
  <-> normalizeLeadingWww patternHost <> ""
      /\ normalizeLeadingWww urlHost = normalizeLeadingWww patternHost.
Proof.
  unfold JS.truthy.
  destruct (String.eqb_spec (normalizeLeadingWww patternHost) "") as [Heq|Hne]; simpl.
  - split; [discriminate|]. intros [H _]. contradiction.
  - split.
    + intros H. injection H as H. apply String.eqb_eq in H. auto.
    + intros [_ H]. rewrite H, String.eqb_refl. reflexivity.
Qed.

Lemma matchesPattern_host_compare (url pattern : string) :
  (JS.includes "://" pattern = false ->
   (matchesPattern url pattern "host" = true
    <-> exists urlObj,
          URL_new url = Some urlObj
          /\ normalizeLeadingWww (JS.splitHead "/" pattern) <> ""
          /\ normalizeLeadingWww (hostname urlObj)
             = normalizeLeadingWww (JS.splitHead "/" pattern)))
  /\ (JS.includes "://" pattern = true ->
      (matchesPattern url pattern "host" = true
       <-> exists urlObj patternUrl,
             URL_new url = Some urlObj /\ URL_new pattern = Some patternUrl
             /\ normalizeLeadingWww (hostname patternUrl) <> ""
             /\ normalizeLeadingWww (hostname urlObj)
                = normalizeLeadingWww (hostname patternUrl))).
Proof.
  unfold matchesPattern, matchesPattern_try. split; intros Hinc.
  - destruct (URL_new url) as [u|];
      [|split; [discriminate|intros (u' & Hu & _); discriminate]].
    simpl. rewrite Hinc.
    assert (Hhead : (if JS.includes "/" pattern then Some (JS.splitHead "/" pattern)
                     else Some pattern) = Some (JS.splitHead "/" pattern)).
    { unfold JS.includes, JS.splitHead.
      destruct (JS.indexOf "/" pattern); reflexivity. }
    rewrite Hhead.
    match goal with
    | |- (match ?c with Some b => b | None => false end) = true <-> _ =>
        assert (Hc : c = Some true
                     <-> normalizeLeadingWww (JS.splitHead "/" pattern) <> ""
                         /\ normalizeLeadingWww (hostname u)
                            = normalizeLeadingWww (JS.splitHead "/" pattern))
          by apply host_compare_true;
        destruct c as [[|]|]
    end.
    + split; [intros _; exists u; split; [reflexivity|apply Hc; reflexivity]|reflexivity].
    + split; [discriminate|]. intros (u' & Hu & H). injection Hu as <-.
      apply Hc in H. discriminate.
    + split; [discriminate|]. intros (u' & Hu & H). injection Hu as <-.
      apply Hc in H. discriminate.
  - destruct (URL_new url) as [u|];
      [|split; [discriminate|intros (u' & pu & Hu & _); discriminate]].
    simpl. rewrite Hinc.
    destruct (URL_new pattern) as [pu|]; simpl;
      [|split; [discriminate|intros (u' & pu & _ & Hpu & _); discriminate]].
    match goal with
    | |- (match ?c with Some b => b | None => false end) = true <-> _ =>
        assert (Hc : c = Some true
                     <-> normalizeLeadingWww (hostname pu) <> ""
                         /\ normalizeLeadingWww (hostname u)
                            = normalizeLeadingWww (hostname pu))
          by apply host_compare_true;
        destruct c as [[|]|]
    end.
    + split; [intros _; exists u, pu; repeat split; apply Hc; reflexivity|reflexivity].
    + split; [discriminate|]. intros (u' & pu' & Hu & Hpu & H).
      injection Hu as <-. injection Hpu as <-. apply Hc in H. discriminate.
    + split; [discriminate|]. intros (u' & pu' & Hu & Hpu & H).
      injection Hu as <-. injection Hpu as <-. apply Hc in H. discriminate.
Qed.

(** X16.  ['host'] patterns compare hosts only, exactly, with case and one
    leading [www.] set aside on both sides: the URL matches iff its host and
    the pattern's host, each in lower case and without a leading [www.], are
    the same non-empty host.  For a pattern that is no URL the host is the
    part before its first slash (the whole pattern when it has none); for a
    pattern given as a URL it is that URL's hostname, and a pattern URL that
    does not parse matches nothing. *)
Theorem matchesPattern_host (url pattern : string) :
  (JS.includes "://" pattern = false ->
   (matchesPattern url pattern "host" = true
    <-> exists urlObj key,
          URL_new url = Some urlObj
          /\ key <> ""
          /\ NormalizedHost (JS.splitHead "/" pattern) key
          /\ NormalizedHost (hostname urlObj) key))
  /\ (JS.includes "://" pattern = true ->
      (matchesPattern url pattern "host" = true
       <-> exists urlObj patternUrl key,
             URL_new url = Some urlObj /\ URL_new pattern = Some patternUrl
             /\ key <> ""
             /\ NormalizedHost (hostname patternUrl) key
             /\ NormalizedHost (hostname urlObj) key)).
Proof.
  destruct (matchesPattern_host_compare url pattern) as [Hbare Hurl].
  split; intros Hinc.
  - rewrite (Hbare Hinc). split.
    + intros (u & Hu & Hne & Heq).
      exists u, (normalizeLeadingWww (JS.splitHead "/" pattern)).
      split; [assumption|]. split; [assumption|].
      split; [apply normalizeLeadingWww_spec|].
      rewrite <- Heq. apply normalizeLeadingWww_spec.
    + intros (u & key & Hu & Hne & Hp & Hh).
      apply NormalizedHost_unique in Hp, Hh. exists u.
      split; [assumption|]. split; congruence.
  - rewrite (Hurl Hinc). split.
    + intros (u & pu & Hu & Hpu & Hne & Heq).
      exists u, pu, (normalizeLeadingWww (hostname pu)).
      split; [assumption|]. split; [assumption|]. split; [assumption|].
      split; [apply normalizeLeadingWww_spec|].
      rewrite <- Heq. apply normalizeLeadingWww_spec.
    + intros (u & pu & key & Hu & Hpu & Hne & Hp & Hh).
      apply NormalizedHost_unique in Hp, Hh. exists u, pu.
      split; [assumption|]. split; [assumption|]. split; congruence.
Qed.

End QueryProperties.

(** ** Merging and syncing, list by list *)

Section SyncProperties.

Context {P : Platform} {S : Services}.

Lemma conflicts_other_list l es e : list_name e <> l -> conflicts l es e = false.
Proof.
  intros Hne. unfold conflicts.
  destruct (existsb _ es) eqn:Hex; [|reflexivity].
  apply existsb_exists in Hex. destruct Hex as (c & _ & Hc).
  destruct (candidateKey c) as [[d t]|]; [|discriminate].
  apply sameKey_spec in Hc. unfold keyOf in Hc. congruence.
Qed.

Lemma survivors_of_list l l' es w :
  filter (fun r : N * Entry => list_name (snd r) =? l') (survivors l es w)
  = filter (fun r => negb (backendIn l (snd r)) && negb (conflicts l es (snd r)))
           (getListEntries l' w).
Proof.
  unfold survivors, getListEntries. rewrite !filter_twice. apply filter_ext.
  intros r.
  destruct (list_name (snd r) =? l'), (backendIn l (snd r)), (conflicts l es (snd r));
    reflexivity.
Qed.

Lemma getListEntries_of_merged l l' es w (inserted : list (N * Entry)) :
  l' <> l ->
  (forall r, In r inserted -> list_name (snd r) = l) ->
  filter (fun r : N * Entry => list_name (snd r) =? l') (survivors l es w ++ inserted)
  = getListEntries l' w.
Proof.
  intros Hne Hall. rewrite filter_app, survivors_of_list.
  rewrite (filter_none _ _ inserted).
  - rewrite app_nil_r. apply filter_all. intros r Hr. unfold getListEntries in Hr.
    apply filter_In in Hr. destruct Hr as [_ Hl]. apply String.eqb_eq in Hl.
    rewrite conflicts_other_list by congruence. unfold backendIn.
    assert (Hl' : (list_name (snd r) =? l) = false) by (apply String.eqb_neq; congruence).
    rewrite Hl'. reflexivity.
  - intros r Hr. apply String.eqb_neq. rewrite (Hall r Hr). congruence.
Qed.

Lemma inserted_list_name l ks (ids : list N) (news : list Entry) :
  map observable news = map (backendEntryView l) ks ->
  forall r, In r (combine ids news) -> list_name (snd r) = l.
Proof.
  intros Hobs r Hr. pose proof (inserted_are_backend l ks ids news Hobs r Hr) as Hb.
  unfold backendIn in Hb. apply andb_true_iff in Hb. destruct Hb as [Hl _].
  apply String.eqb_eq. exact Hl.
Qed.

Lemma merge_keeps_other_lists l l' es w :
  store_wf w -> l' <> l ->
  getListEntries l' (fst (mergeBackendList l es w)) = getListEntries l' w.
Proof.
  intros Hwf Hne.
  destruct (mergeBackendList_spec l es w Hwf) as (news & ids & Hobs & _ & Hcases).
  unfold getListEntries at 1.
  destruct Hcases as [(_ & -> & _)|(_ & -> & _)].
  - apply getListEntries_of_merged; [assumption|].
    eapply inserted_list_name; eassumption.
  - rewrite <- (app_nil_r (survivors l es w)).
    apply getListEntries_of_merged; [assumption|intros r []].
Qed.

(** X17.  A merge is confined to its list: the entries of every other list
    read exactly as before, ids and metadata included. *)
Theorem mergeBackendList_other_lists_untouched (l l' : string) (es : list Candidate)
    (w : World) :
  store_wf w -> l' <> l ->
  getListEntries l' (fst (mergeBackendList l es w)) = getListEntries l' w.
Proof. apply merge_keeps_other_lists. Qed.

Lemma backend_rows_of_merged l es w (inserted : list (N * Entry)) :
  (forall r, In r inserted -> backendIn l (snd r) = true) ->
  filter (fun r : N * Entry => (list_name (snd r) =? l) && hasSource backend (snd r))
         (survivors l es w ++ inserted)
  = inserted.
Proof.
  intros Hall. rewrite filter_app.
  rewrite (filter_none _ _ (survivors l es w)).
  - apply filter_all. exact Hall.
  - intros r Hr. apply survivors_In in Hr. destruct Hr as (_ & Hb & _). exact Hb.
Qed.

Lemma merge_backend_rows l es w :
  store_wf w ->
  (NoDup (accepted es) ->
   map (fun r => observable (snd r))
       (getListEntriesBySource l backend (fst (mergeBackendList l es w)))
   = map (backendEntryView l) (accepted es))
  /\ (~ NoDup (accepted es) ->
      getListEntriesBySource l backend (fst (mergeBackendList l es w)) = []).
Proof.
  intros Hwf.
  pose proof (mergeBackendList_completes l es w Hwf) as Hdone.
  destruct (mergeBackendList_spec l es w Hwf) as (news & ids & Hobs & Hlen & Hcases).
  unfold getListEntriesBySource.
  destruct Hcases as [(Hres & -> & _)|(Hres & -> & _)].
  - split; [|intros Hno; exfalso; apply Hno, Hdone; assumption].
    intros _. rewrite backend_rows_of_merged
      by (eapply inserted_are_backend; eassumption).
    rewrite (map_combine_snd _ _ observable news ids Hlen). exact Hobs.
  - split; [intros Hyes; apply Hdone in Hyes; congruence|].
    intros _. rewrite <- (app_nil_r (survivors l es w)).
    apply backend_rows_of_merged. intros r [].
Qed.

(** X18.  After a merge the ['backend'] entries of the list are exactly the
    candidates the merge accepts, in batch order, when those have distinct
    keys; none is left from earlier syncs.  When two accepted candidates share
    a key the merge fails and the list is left without any ['backend']
    entry. *)
Theorem mergeBackendList_backend_entries (l : string) (es : list Candidate) (w : World) :
  store_wf w ->
  (NoDup (accepted es) ->
   snd (mergeBackendList l es w) = Ok tt
   /\ map (fun r => observable (snd r))
          (getListEntriesBySource l backend (fst (mergeBackendList l es w)))
      = map (backendEntryView l) (accepted es))
  /\ (~ NoDup (accepted es) ->
      snd (mergeBackendList l es w) = Err FailedToCreateBulkEntry
      /\ getListEntriesBySource l backend (fst (mergeBackendList l es w)) = []).
Proof.
  intros Hwf. destruct (merge_backend_rows l es w Hwf) as [Hyes Hno].
  pose proof (mergeBackendList_completes l es w Hwf) as Hdone.
  split.
  - intros Hnd. split; [apply Hdone; assumption|auto].
  - intros Hnd. split; [|auto].
    destruct (mergeBackendList_spec l es w Hwf) as (news & ids & _ & _ & Hcases).
    destruct Hcases as [(Hres & _)|(Hres & _)]; [|assumption].
    exfalso. apply Hnd, Hdone. assumption.
Qed.

Lemma merge_list_view l es w1 w2 :
  store_wf w1 -> store_wf w2 ->
  getListEntries l w1 = getListEntries l w2 ->
  map (fun r => observable (snd r)) (getListEntries l (fst (mergeBackendList l es w1)))
  = map (fun r => observable (snd r)) (getListEntries l (fst (mergeBackendList l es w2))).
Proof.
  intros Hwf1 Hwf2 Hsame.
  pose proof (mergeBackendList_completes l es w1 Hwf1) as Hdone1.
  pose proof (mergeBackendList_completes l es w2 Hwf2) as Hdone2.
  destruct (mergeBackendList_spec l es w1 Hwf1) as (news1 & ids1 & Hobs1 & Hlen1 & Hc1).
  destruct (mergeBackendList_spec l es w2 Hwf2) as (news2 & ids2 & Hobs2 & Hlen2 & Hc2).
  assert (Hpart : forall w (inserted : list (N * Entry)),
             (forall r, In r inserted -> list_name (snd r) = l) ->
             filter (fun r : N * Entry => list_name (snd r) =? l) (survivors l es w ++ inserted)
             = filter (fun r => negb (backendIn l (snd r)) && negb (conflicts l es (snd r)))
                      (getListEntries l w) ++ inserted).
  { intros w inserted Hall. rewrite filter_app, survivors_of_list. f_equal.
    apply filter_all. intros r Hr. rewrite (Hall r Hr). apply String.eqb_refl. }
  unfold getListEntries at 1 2.
  destruct Hc1 as [(Hres1 & -> & _)|(Hres1 & -> & _)];
    destruct Hc2 as [(Hres2 & -> & _)|(Hres2 & -> & _)].
  - rewrite !Hpart by (eapply inserted_list_name; eassumption).
    rewrite Hsame, !map_app.
    rewrite (map_combine_snd _ _ observable news1 ids1 Hlen1).
    rewrite (map_combine_snd _ _ observable news2 ids2 Hlen2). congruence.
  - apply Hdone1 in Hres1. apply Hdone2 in Hres1. congruence.
  - apply Hdone2 in Hres2. apply Hdone1 in Hres2. congruence.
  - rewrite <- (app_nil_r (survivors l es w1)), <- (app_nil_r (survivors l es w2)).
    rewrite !Hpart by (intros r []). rewrite Hsame. reflexivity.
Qed.

Lemma parseAndSyncLists_frame cfg l : forall w,
  store_wf w -> (forall es, ~ In (l, Some es) cfg) ->
  getListEntries l (parseAndSyncLists cfg w) = getListEntries l w.
Proof.
  induction cfg as [|[k [es|]] cfg IH]; intros w Hwf Hno; simpl; [reflexivity|..].
  - rewrite IH.
    + apply merge_keeps_other_lists; [assumption|].
      intros ->. apply (Hno es). left. reflexivity.
    + apply mergeBackendList_wf. assumption.
    + intros es' Hin. apply (Hno es'). right. assumption.
  - apply IH; [assumption|]. intros es' Hin. apply (Hno es'). right. assumption.
Qed.

(** X19.  [parseAndSyncLists] touches only the lists the configuration gives
    as arrays: every list that is not a key of the configuration, or whose
    value there is not an array, reads exactly as before. *)
Theorem parseAndSyncLists_untouched_lists (cfg : ListsConfig) (l : string) (w : World) :
  store_wf w -> (forall es, ~ In (l, Some es) cfg) ->
  getListEntries l (parseAndSyncLists cfg w) = getListEntries l w.
Proof. apply parseAndSyncLists_frame. Qed.

Lemma parseAndSyncLists_list_view cfg l es : forall w,
  store_wf w -> NoDup (map fst cfg) -> In (l, Some es) cfg ->
  map (fun r => observable (snd r)) (getListEntries l (parseAndSyncLists cfg w))
  = map (fun r => observable (snd r)) (getListEntries l (fst (mergeBackendList l es w))).
Proof.
  induction cfg as [|[k v] cfg IH]; intros w Hwf Hnd Hin; [contradiction|].
  cbn [map fst] in Hnd. inversion Hnd as [|? ? Hk Hnd']; subst.
  destruct Hin as [Heq|Hin].
  - injection Heq as -> ->. cbn [parseAndSyncLists].
    rewrite parseAndSyncLists_frame; [reflexivity|apply mergeBackendList_wf; assumption|].
    intros es' Hin'. apply Hk. apply (in_map fst) in Hin'. exact Hin'.
  - assert (Hne : l <> k).
    { intros ->. apply Hk. apply (in_map fst) in Hin. exact Hin. }
    destruct v as [es'|]; cbn [parseAndSyncLists]; [|apply IH; assumption].
    rewrite IH by (try apply mergeBackendList_wf; assumption).
    apply merge_list_view; [apply mergeBackendList_wf; assumption|assumption|].
    apply merge_keeps_other_lists; assumption.
Qed.

(** X20.  Lists are reconciled independently: for a configuration with
    distinct list names, the keys and sources a list ends with after
    [parseAndSyncLists] are those a merge of that list alone produces, whatever
    the other lists of the configuration hold and whether or not their merges
    fail. *)
Theorem parseAndSyncLists_per_list (cfg : ListsConfig) (l : string) (es : list Candidate)
    (w : World) :
  store_wf w -> NoDup (map fst cfg) -> In (l, Some es) cfg ->
  map (fun r => observable (snd r)) (getListEntries l (parseAndSyncLists cfg w))
  = map (fun r => observable (snd r)) (getListEntries l (fst (mergeBackendList l es w))).
Proof. apply parseAndSyncLists_list_view. Qed.

Lemma no_backend_by_view (rs rs' : list (N * Entry)) :
  map (fun r => observable (snd r)) rs = map (fun r => observable (snd r)) rs' ->
  filter (fun r : N * Entry => hasSource backend (snd r)) rs' = [] ->
  filter (fun r : N * Entry => hasSource backend (snd r)) rs = [].
Proof.
  revert rs'. induction rs as [|r rs IH]; intros [|r' rs'] Hview Hnone;
    cbn [map] in Hview; try discriminate; [reflexivity|].
  apply cons_eq_inv in Hview. destruct Hview as [Hr Hrest]. cbn [filter] in *.
  assert (Hs : hasSource backend (snd r) = hasSource backend (snd r')).
  { unfold hasSource. apply (f_equal snd) in Hr. cbn in Hr. rewrite Hr. reflexivity. }
  rewrite Hs. destruct (hasSource backend (snd r')); [discriminate|].
  apply (IH rs'); assumption.
Qed.

Lemma getListEntriesBySource_filter l src w :
  getListEntriesBySource l src w
  = filter (fun r : N * Entry => hasSource src (snd r)) (getListEntries l w).
Proof. unfold getListEntriesBySource, getListEntries. rewrite filter_twice. reflexivity. Qed.

(** X21.  [syncListsFromConfig] reports per-list failures nowhere.  When the
    configuration cannot be fetched the result is a failure carrying the
    message and the store is as before.  When it is fetched, the result is a
    success that names every key of the [lists] section as updated; for a list
    whose batch repeats an accepted key that "updated" list ends without any
    ['backend'] entry. *)
Theorem syncListsFromConfig_report (configUrl : string) (w : World) :
  (forall message,
      fetch_config configUrl = FetchFailed message ->
      syncListsFromConfig configUrl w = (w, mkSyncResult false [] (Some [message])))
  /\ (forall cfg,
         fetch_config configUrl = FetchOk (Some cfg) ->
         snd (syncListsFromConfig configUrl w) = mkSyncResult true (map fst cfg) None
         /\ forall l es,
              store_wf w -> NoDup (map fst cfg) -> In (l, Some es) cfg ->
              ~ NoDup (accepted es) ->
              In l (listsUpdated (snd (syncListsFromConfig configUrl w)))
              /\ getListEntriesBySource l backend (fst (syncListsFromConfig configUrl w))
                 = []).
Proof.
  unfold syncListsFromConfig. split.
  - intros message ->. reflexivity.
  - intros cfg ->. cbn [fst snd]. split; [reflexivity|].
    intros l es Hwf Hnd Hin Hdup. split.
    + cbn [listsUpdated]. apply (in_map fst) in Hin. exact Hin.
    + rewrite getListEntriesBySource_filter.
      apply (no_backend_by_view _ (getListEntries l (fst (mergeBackendList l es w)))).
      * apply parseAndSyncLists_list_view; assumption.
      * rewrite <- getListEntriesBySource_filter.
        apply (merge_backend_rows l es w Hwf). assumption.
Qed.

Lemma prepareBackendEntries_sync l es : forall w,
  (ticks w <= ticks (snd (prepareBackendEntries l es w)))%nat
  /\ Forall (fun e => exists t,
                 (ticks w <= t < ticks (snd (prepareBackendEntries l es w)))%nat
                 /\ sync_timestamp (metadata e) = Some (Date_now t))
            (fst (prepareBackendEntries l es w)).
Proof.
  induction es as [|c es IH]; intros w; simpl; [split; [lia|constructor]|].
  destruct (candidateKey c) as [[d t]|]; [|apply IH].
  destruct ((t =? "domain") && negb (isStrictRegisteredDomain d)); [apply IH|].
  unfold date_now.
  destruct (IH (mkWorld (rows w) (key_gen w) (Datatypes.S (ticks w)))) as (Hle & Hall).
  destruct (prepareBackendEntries l es
              (mkWorld (rows w) (key_gen w) (Datatypes.S (ticks w)))) as [news w2].
  cbn [fst snd ticks] in *. split; [lia|]. constructor.
  - exists (ticks w). cbn. split; [lia|reflexivity].
  - eapply Forall_impl; [|exact Hall]. intros e (t' & Ht' & He).
    exists t'. split; [lia|assumption].
Qed.

Lemma withTimestamps_ticks entry w :
  (ticks w <= ticks (snd (withTimestamps entry w)))%nat.
Proof.
  unfold withTimestamps, date_now.
  destruct (created_at (metadata entry)) as [c|]; [destruct (c =? 0)%Z|]; simpl; lia.
Qed.

Lemma stampAll_ticks es : forall w, (ticks w <= ticks (snd (stampAll es w)))%nat.
Proof.
  induction es as [|e es IH]; intros w; simpl; [lia|].
  pose proof (withTimestamps_ticks e w) as He.
  destruct (withTimestamps e w) as [e' w1]. cbn [snd] in He.
  specialize (IH w1). destruct (stampAll es w1) as [es' w2]. cbn [snd] in *. lia.
Qed.

Lemma bulkCreateListEntries_ticks es w :
  (ticks w <= ticks (fst (bulkCreateListEntries es w)))%nat.
Proof.
  unfold bulkCreateListEntries. pose proof (stampAll_ticks es w) as Hs.
  destruct (stampAll es w) as [stamped w1]. cbn [snd] in Hs.
  destruct (addAll stamped w1) as [[ids w2]|] eqn:Hadd; cbn [fst]; [|assumption].
  apply addAll_Some in Hadd. destruct Hadd as (_ & _ & Ht & _). lia.
Qed.

(** X22.  Every ['backend'] entry a list holds after a merge carries a
    [sync_timestamp] that was read from the clock during that merge. *)
Theorem mergeBackendList_sync_timestamp (l : string) (es : list Candidate) (w : World) :
  store_wf w ->
  forall r,
    In r (getListEntriesBySource l backend (fst (mergeBackendList l es w))) ->
    exists t,
      (ticks w <= t < ticks (fst (mergeBackendList l es w)))%nat
      /\ sync_timestamp (metadata (snd r)) = Some (Date_now t).
Proof.
  intros Hwf r. unfold mergeBackendList.
  assert (Hwf1 : store_wf (deleteAllEntriesInList l (Some backend) w))
    by (apply store_wf_filter; assumption).
  rewrite (resolve_all l es _ Hwf1).
  set (w2 := mkWorld _ _ _).
  assert (Hrows2 : rows w2 = survivors l es w) by reflexivity.
  assert (Hticks2 : ticks w2 = ticks w) by reflexivity.
  clearbody w2.
  destruct (prepareBackendEntries_frame l es w2) as (Hr3 & _ & _).
  destruct (prepareBackendEntries_sync l es w2) as (Hle3 & Hall).
  destruct (prepareBackendEntries l es w2) as [news w3]. cbn [fst snd] in *.
  rewrite Hrows2 in Hr3. rewrite Hticks2 in *.
  assert (Hsurv : forall x, In x (survivors l es w) ->
                            (list_name (snd x) =? l) && hasSource backend (snd x) = false).
  { intros x Hx. apply survivors_In in Hx. destruct Hx as (_ & Hb & _). exact Hb. }
  unfold getListEntriesBySource.
  destruct news as [|n news]; cbn [fst].
  - rewrite Hr3. intros Hin. apply filter_In in Hin. destruct Hin as [Hin Hb].
    rewrite (Hsurv r Hin) in Hb. discriminate.
  - pose proof (bulkCreateListEntries_ticks (n :: news) w3) as Hticks.
    pose proof (stampAll_portable (n :: news) w3) as Hport.
    destruct (bulkCreateListEntries_outcome (n :: news) w3)
      as [(_ & _ & Hrows & _)|(_ & _ & Hrows & _)];
      destruct (bulkCreateListEntries (n :: news) w3) as [w4 [ids|err]];
      cbn [fst snd] in *; rewrite Hrows, Hr3; intros Hin; apply filter_In in Hin;
      destruct Hin as [Hin Hb].
    + apply in_app_iff in Hin. destruct Hin as [Hin|Hin];
        [rewrite (Hsurv r Hin) in Hb; discriminate|].
      destruct r as [i e]. apply in_combine_r in Hin.
      apply (in_map portable) in Hin. rewrite Hport in Hin. apply in_map_iff in Hin.
      destruct Hin as (e0 & Hpe & He0). rewrite Forall_forall in Hall.
      destruct (Hall e0 He0) as (t & Ht & Hs). exists t. split; [lia|].
      cbn [snd]. unfold portable in Hpe.
      assert (sync_timestamp (metadata e0) = sync_timestamp (metadata e)) by congruence.
      congruence.
    + apply in_app_iff in Hin. destruct Hin as [Hin|Hin];
        [rewrite (Hsurv r Hin) in Hb; discriminate|].
      destruct r as [i e]. apply in_combine_r in Hin.
      apply (in_map portable) in Hin. rewrite Hport in Hin. apply in_map_iff in Hin.
      destruct Hin as (e0 & Hpe & He0). rewrite Forall_forall in Hall.
      destruct (Hall e0 He0) as (t & Ht & Hs). exists t. split; [lia|].
      cbn [snd]. unfold portable in Hpe.
      assert (sync_timestamp (metadata e0) = sync_timestamp (metadata e)) by congruence.
      congruence.
    + rewrite (Hsurv r Hin) in Hb. discriminate.
    + rewrite (Hsurv r Hin) in Hb. discriminate.
Qed.

End SyncProperties.

(** ** The further properties on the concrete environment *)

Lemma sample_two_lists_wf : store_wf sample_two_lists.
Proof.
  unfold store_wf, sample_two_lists. simpl.
  repeat split; repeat constructor; simpl; try lia;
    intros H; repeat (destruct H as [H|H]; try discriminate); assumption.
Qed.

Lemma createListEntry_then_lookup_witness :
  exists e',
    findListEntryByPattern "blocklist" "host" "news.example.org"
      (fst (@createListEntry Demo.platform sample_dated_entry sample_world))
    = Some (4%N, e')
    /\ store_get 4 (fst (@createListEntry Demo.platform sample_dated_entry sample_world))
       = Some e'
    /\ observable e' = observable sample_dated_entry
    /\ getListEntries "blocklist"
         (fst (@createListEntry Demo.platform sample_dated_entry sample_world))
       = getListEntries "blocklist" sample_world ++ [(4%N, e')].
Proof.
  apply (@createListEntry_then_lookup Demo.platform sample_dated_entry sample_world
           (fst (@createListEntry Demo.platform sample_dated_entry sample_world)) 4%N).
  - exact sample_world_wf.
  - vm_compute. reflexivity.
Defined.

Lemma createListEntry_duplicate_rejected_witness :
  exists err,
    snd (@createListEntry Demo.platform sample_user_entry sample_world) = Err err
    /\ rows (fst (@createListEntry Demo.platform sample_user_entry sample_world))
       = rows sample_world
    /\ key_gen (fst (@createListEntry Demo.platform sample_user_entry sample_world))
       = key_gen sample_world.
Proof.
  apply (@createListEntry_duplicate_rejected Demo.platform sample_user_entry sample_world
           1%N sample_user_entry).
  - simpl. auto.
  - reflexivity.
Defined.

Lemma updateListEntry_effect_witness :
  exists new,
    store_get 1 (fst (@updateListEntry Demo.platform 1%N sample_metadata_update
                        sample_tagged_world)) = Some new
    /\ list_name new = "blocklist"
    /\ domain new = "other.example.com"
    /\ source new = Some user
    /\ created_at (metadata new) = Some 3%Z
    /\ updated_at (metadata new) = Some 1700000000000%Z
    /\ sync_timestamp (metadata new) = Some 9%Z
    /\ lookupKey "category" (extra (metadata new)) = Some "news"
    /\ lookupKey "description" (extra (metadata new)) = Some "tracker"
    /\ lookupKey "tags" (extra (metadata new)) = Some "a,b".
Proof.
  destruct (@updateListEntry_effect Demo.platform 1%N sample_metadata_update
              sample_tagged_world
              (fst (@updateListEntry Demo.platform 1%N sample_metadata_update
                      sample_tagged_world)))
    as (old & new & Hold & Hnew & Hl & Hd & _ & Hs & _ & _ & Hc & Hu & Hsy & Hx).
  - vm_compute. reflexivity.
  - vm_compute in Hold. injection Hold as <-.
    exists new. split; [exact Hnew|].
    split; [exact Hl|]. split; [exact Hd|]. split; [exact Hs|].
    split; [exact Hc|]. split; [exact Hu|]. split; [exact Hsy|].
    split; [|split]; rewrite Hx; reflexivity.
Defined.


Lemma updateListEntry_failure_keeps_store_witness :
  (rows (fst (@updateListEntry Demo.platform 99%N
                (mkUpdates None (Some "other.example.com") None None None) sample_world))
   = rows sample_world)
  /\ exists err,
       snd (@updateListEntry Demo.platform 2%N
              (mkUpdates None (Some "mail.google.com") None None None) sample_world)
       = Err err.
Proof.
  split.
  - destruct (@updateListEntry_failure_keeps_store Demo.platform 99%N
                (mkUpdates None (Some "other.example.com") None None None) sample_world)
      as [Hkeep _].
    apply (Hkeep (EntryNotFound 99%N)). vm_compute. reflexivity.
  - destruct (@updateListEntry_failure_keeps_store Demo.platform 2%N
                (mkUpdates None (Some "mail.google.com") None None None) sample_world)
      as [_ Hclash].
    apply (Hclash sample_backend_entry 3%N sample_subdomain_entry).
    + reflexivity.
    + simpl. auto.
    + discriminate.
    + reflexivity.
Defined.

Lemma deleteListEntry_effect_witness :
  store_get 2 (deleteListEntry 2 sample_world) = None
  /\ store_get 3 (deleteListEntry 2 sample_world) = store_get 3 sample_world
  /\ deleteListEntry 9 sample_world = sample_world
  /\ deleteListEntry 2 (deleteListEntry 2 sample_world) = deleteListEntry 2 sample_world.
Proof.
  destruct (deleteListEntry_effect 2%N sample_world) as (Hgone & Hother & _ & Htwice).
  destruct (deleteListEntry_effect 9%N sample_world) as (_ & _ & Hmissing & _).
  split; [exact Hgone|]. split; [apply Hother; discriminate|].
  split; [apply Hmissing; reflexivity|exact Htwice].
Defined.

Lemma deleteAllEntriesInList_effect_witness :
  getListEntries "blocklist" (deleteAllEntriesInList "blocklist" None sample_two_lists) = []
  /\ getListEntries "allowlist" (deleteAllEntriesInList "blocklist" None sample_two_lists)
     = getListEntries "allowlist" sample_two_lists
  /\ getListEntriesBySource "blocklist" user
       (deleteAllEntriesInList "blocklist" (Some backend) sample_two_lists)
     = getListEntriesBySource "blocklist" user sample_two_lists.
Proof.
  destruct (deleteAllEntriesInList_effect "blocklist" sample_two_lists)
    as (Hempty & _ & Hlists & Hsources).
  split; [exact Hempty|]. split.
  - apply Hlists. discriminate.
  - apply Hsources. discriminate.
Defined.

Lemma lookups_find_stored_entries_witness :
  findListEntryByPattern "blocklist" "host" "example.com" sample_world
  = Some (1%N, sample_user_entry)
  /\ findListEntryByPattern "blocklist" "regex" "example.com" sample_world = None.
Proof.
  destruct (@lookups_find_stored_entries "blocklist" "host" "example.com" sample_world
              sample_world_wf) as (Hsome & _).
  destruct (@lookups_find_stored_entries "blocklist" "regex" "example.com" sample_world
              sample_world_wf) as (_ & Hnone & _).
  split.
  - apply Hsome. split; [simpl; auto|reflexivity].
  - apply Hnone. intros r Hr. simpl in Hr.
    repeat (destruct Hr as [<-|Hr]; [discriminate|]). contradiction.
Defined.

Lemma bulkCreateListEntries_all_or_nothing_witness :
  snd (@bulkCreateListEntries Demo.platform [sample_dated_entry; sample_dated_entry]
         sample_world) = Err FailedToCreateBulkEntry
  /\ rows (fst (@bulkCreateListEntries Demo.platform [sample_dated_entry; sample_dated_entry]
                  sample_world)) = rows sample_world.
Proof.
  destruct (@bulkCreateListEntries_all_or_nothing Demo.platform
              [sample_dated_entry; sample_dated_entry] sample_world)
    as [(Hnd & _)|(_ & Herr & Hrows & _)].
  - exfalso. simpl in Hnd. inversion Hnd as [|? ? Hnin _]. apply Hnin. left. reflexivity.
  - split; assumption.
Defined.

Lemma importList_outcomes_witness :
  snd (@importList Demo.platform "blocklist" Demo.sample_json sample_two_lists) = Ok 1%nat
  /\ getListEntries "allowlist"
       (fst (@importList Demo.platform "blocklist" Demo.sample_json sample_two_lists))
     = getListEntries "allowlist" sample_two_lists.
Proof.
  destruct (@importList_outcomes Demo.platform "blocklist" Demo.sample_json
              [mkFileEntry "example.com" "host" None] sample_two_lists)
    as (Hok & _ & Hother).
  - vm_compute. reflexivity.
  - split.
    + apply Hok. repeat constructor. simpl. tauto.
    + apply Hother. discriminate.
Defined.

Lemma export_import_round_trip_witness :
  snd (@importList DemoServices.platform "blocklist"
         (fst (@exportList DemoServices.platform DemoServices.services "blocklist"
                 sample_world))
         (snd (@exportList DemoServices.platform DemoServices.services "blocklist"
                 sample_world)))
  = Ok (List.length (getListEntries "blocklist" sample_world)).
Proof.
  apply (@export_import_round_trip DemoServices.platform DemoServices.services
           "blocklist" sample_world).
  - exact sample_world_wf.
  - vm_compute. reflexivity.
Defined.

Lemma matchDomainAgainstList_first_match_witness :
  @matchDomainAgainstList Demo.platform "not-a-url" "blocklist" sample_world = None
  /\ exists before after,
       getListEntries "blocklist" sample_world
       = before ++ (1%N, sample_user_entry) :: after
       /\ @matchesPattern Demo.platform "https://www.example.com/x"
            (domain (snd (1%N, sample_user_entry)))
            (pattern_type (snd (1%N, sample_user_entry))) = true
       /\ forall x, In x before ->
            @matchesPattern Demo.platform "https://www.example.com/x"
              (domain (snd x)) (pattern_type (snd x)) = false.
Proof.
  destruct (@matchDomainAgainstList_first_match Demo.platform "not-a-url" "blocklist"
              sample_world) as (_ & _ & Hurl).
  destruct (@matchDomainAgainstList_first_match Demo.platform
              "https://www.example.com/x" "blocklist" sample_world) as (Hfirst & _ & _).
  split; [apply Hurl; vm_compute; reflexivity|].
  apply Hfirst. vm_compute. reflexivity.
Defined.

Lemma matchesPattern_exact_and_unknown_witness :
  @matchesPattern Demo.platform "https://example.com/test" "https://example.com/test"
    "exact_url" = true
  /\ @matchesPattern Demo.platform "https://example.com/test" "example.com" "wildcard"
     = false.
Proof.
  destruct (@matchesPattern_exact_and_unknown Demo.platform
              "https://example.com/test" "https://example.com/test" "wildcard")
    as (Hexact & _).
  destruct (@matchesPattern_exact_and_unknown Demo.platform
              "https://example.com/test" "example.com" "wildcard") as (_ & Hunknown).
  split.
  - apply Hexact. split; [reflexivity|vm_compute; discriminate].
  - apply Hunknown. vm_compute. reflexivity.
Defined.

Lemma getAllLists_sorted_distinct_witness :
  getAllLists sample_named_lists = ["blocklist"; sample_face_name; sample_wave_name]
  /\ JS.codeUnits sample_face_name = [55357%N; 56832%N]
  /\ JS.codeUnits sample_wave_name = [65374%N]
  /\ Sorted (fun a b => JS.codeUnitLeb a b = true)
            ["blocklist"; sample_face_name; sample_wave_name].
Proof.
  split; [vm_compute; reflexivity|].
  split; [vm_compute; reflexivity|].
  split; [vm_compute; reflexivity|].
  exact (proj1 (getAllLists_sorted_distinct sample_named_lists)).
Defined.

Lemma matchesPattern_host_witness :
  @matchesPattern Demo.platform "https://www.example.com/page" "Example.com/anything"
    "host" = true.
Proof.
  destruct (@matchesPattern_host Demo.platform "https://www.example.com/page"
              "Example.com/anything") as (Hbare & _).
  apply Hbare; [vm_compute; reflexivity|].
  exists (mkURL "www.example.com" "/page"), "example.com".
  split; [vm_compute; reflexivity|]. split; [discriminate|]. split.
  - right. split; vm_compute; reflexivity.
  - left. exists "example.com". split; vm_compute; reflexivity.
Defined.

Lemma mergeBackendList_other_lists_untouched_witness :
  getListEntries "allowlist"
    (fst (@mergeBackendList Demo.platform "blocklist" sample_batch sample_two_lists))
  = getListEntries "allowlist" sample_two_lists.
Proof.
  apply (@mergeBackendList_other_lists_untouched Demo.platform
           "blocklist" "allowlist" sample_batch sample_two_lists).
  - exact sample_two_lists_wf.
  - discriminate.
Defined.

Lemma sample_batch_accepted_distinct : NoDup (@accepted Demo.platform sample_batch).
Proof.
  vm_compute. repeat constructor; simpl; intros H;
    repeat (destruct H as [H|H]; try discriminate); assumption.
Qed.

Lemma sample_repeating_batch_repeats :
  ~ NoDup (@accepted Demo.platform sample_repeating_batch).
Proof.
  intros H. vm_compute in H. inversion H as [|? ? Hnin _]. apply Hnin. left. reflexivity.
Qed.

Lemma mergeBackendList_backend_entries_witness :
  snd (@mergeBackendList Demo.platform "blocklist" sample_batch sample_world) = Ok tt
  /\ map (fun r => observable (snd r))
         (getListEntriesBySource "blocklist" backend
            (fst (@mergeBackendList Demo.platform "blocklist" sample_batch sample_world)))
     = map (backendEntryView "blocklist") (@accepted Demo.platform sample_batch).
Proof.
  destruct (@mergeBackendList_backend_entries Demo.platform "blocklist" sample_batch
              sample_world sample_world_wf) as (Hdone & _).
  apply Hdone. exact sample_batch_accepted_distinct.
Defined.

Lemma parseAndSyncLists_untouched_lists_witness :
  getListEntries "allowlist"
    (@parseAndSyncLists Demo.platform
       [("blocklist", Some sample_batch); ("allowlist", None)] sample_two_lists)
  = getListEntries "allowlist" sample_two_lists.
Proof.
  apply (@parseAndSyncLists_untouched_lists Demo.platform
           [("blocklist", Some sample_batch); ("allowlist", None)]
           "allowlist" sample_two_lists).
  - exact sample_two_lists_wf.
  - intros es [H|[H|[]]]; discriminate.
Defined.

Lemma parseAndSyncLists_per_list_witness :
  map (fun r => observable (snd r))
      (getListEntries "blocklist"
         (@parseAndSyncLists Demo.platform DemoServices.sample_config sample_two_lists))
  = map (fun r => observable (snd r))
        (getListEntries "blocklist"
           (fst (@mergeBackendList Demo.platform "blocklist" sample_batch
                   sample_two_lists))).
Proof.
  apply (@parseAndSyncLists_per_list Demo.platform DemoServices.sample_config
           "blocklist" sample_batch sample_two_lists).
  - exact sample_two_lists_wf.
  - simpl. repeat constructor; simpl; intros H;
      repeat (destruct H as [H|H]; try discriminate); assumption.
  - simpl. left. reflexivity.
Defined.

Lemma syncListsFromConfig_report_witness :
  @syncListsFromConfig Demo.platform DemoServices.services "https://unreachable.example"
    sample_two_lists
  = (sample_two_lists, mkSyncResult false [] (Some ["Failed to fetch"]))
  /\ snd (@syncListsFromConfig Demo.platform DemoServices.services DemoServices.config_url
            sample_two_lists)
     = mkSyncResult true ["blocklist"; "settings"; "allowlist"] None
  /\ getListEntriesBySource "allowlist" backend
       (fst (@syncListsFromConfig Demo.platform DemoServices.services
               DemoServices.config_url sample_two_lists)) = [].
Proof.
  destruct (@syncListsFromConfig_report Demo.platform DemoServices.services
              "https://unreachable.example" sample_two_lists) as (Hfail & _).
  destruct (@syncListsFromConfig_report Demo.platform DemoServices.services
              DemoServices.config_url sample_two_lists) as (_ & Hok).
  split; [apply Hfail; vm_compute; reflexivity|].
  destruct (Hok DemoServices.sample_config) as (Hres & Hlist); [vm_compute; reflexivity|].
  split; [exact Hres|].
  apply (Hlist "allowlist" sample_repeating_batch).
  - exact sample_two_lists_wf.
  - simpl. repeat constructor; simpl; intros H;
      repeat (destruct H as [H|H]; try discriminate); assumption.
  - simpl. right. right. left. reflexivity.
  - exact sample_repeating_batch_repeats.
Defined.

Lemma mergeBackendList_sync_timestamp_witness :
  exists t,
    (ticks sample_world <= t
     < ticks (fst (@mergeBackendList Demo.platform "blocklist"
                     [sample_candidate "example.com" "host"] sample_world)))%nat
    /\ Some 1700000000000%Z = Some (@Date_now Demo.platform t).
Proof.
  apply (@mergeBackendList_sync_timestamp Demo.platform "blocklist"
           [sample_candidate "example.com" "host"] sample_world sample_world_wf
           (4%N, mkEntry "blocklist" "example.com" "host" (Some backend)
                   (mkMetadata (Some 1700000000001%Z) (Some 1700000000002%Z)
                               (Some 1700000000000%Z) []))).
  vm_compute. left. reflexivity.
Defined.

(** ** Domain strictness on the validating paths *)

Section StrictnessProperties.

Context {P : Platform} {S : Services}.

Lemma guard_passed (t d : string) :
  (t =? "domain") && negb (isStrictRegisteredDomain d) = false ->
  t = "domain" -> isStrictRegisteredDomain d = true.
Proof.
  intros Hg ->. rewrite String.eqb_refl in Hg. simpl in Hg.
  apply negb_false_iff in Hg. exact Hg.
Qed.

Lemma createListEntry_strict entry w :
  domains_strict w -> domains_strict (fst (createListEntry entry w)).
Proof.
  intros Hs. unfold createListEntry.
  destruct ((pattern_type entry =? "domain")
            && negb (isStrictRegisteredDomain (domain entry))) eqn:Hg; [assumption|].
  destruct (withTimestamps_frame entry w) as (Hr & _ & Ho).
  destruct (withTimestamps entry w) as [e' w1]. cbn [fst snd] in *.
  assert (Hw1 : domains_strict w1) by (unfold domains_strict; rewrite Hr; exact Hs).
  destruct (store_add e' w1) as [[i w2]|] eqn:Hadd; cbn [fst]; [|assumption].
  apply store_add_rows in Hadd. destruct Hadd as (Hr2 & _ & _).
  intros r Hin Ht. rewrite Hr2 in Hin. apply in_app_iff in Hin.
  destruct Hin as [Hin|[<-|[]]]; [apply Hw1; assumption|]. cbn [snd] in *.
  unfold observable in Ho.
  assert (Hd : domain e' = domain entry) by congruence.
  assert (Hp : pattern_type e' = pattern_type entry) by congruence.
  rewrite Hd. apply (guard_passed _ _ Hg). congruence.
Qed.

Lemma updateListEntry_strict id updates w :
  domains_strict w -> domains_strict (fst (updateListEntry id updates w)).
Proof.
  intros Hs. unfold updateListEntry.
  destruct (store_get id w) as [old|]; [|assumption].
  match goal with
  | |- context [if ?guard then _ else _] => destruct guard eqn:Hg; [assumption|]
  end.
  unfold date_now, store_put. cbn [rows key_gen ticks].
  match goal with
  | |- context [if ?clash then _ else _] => destruct clash; cbn [fst]; [exact Hs|]
  end.
  intros r Hin Ht. cbn [rows] in Hin. apply in_map_iff in Hin.
  destruct Hin as (r0 & <- & Hr0).
  destruct (fst r0 =? id)%N; [|apply Hs; assumption].
  cbn [snd domain pattern_type] in *. apply (guard_passed _ _ Hg). exact Ht.
Qed.

Lemma accepted_strict es d :
  In (d, "domain") (accepted es) -> isStrictRegisteredDomain d = true.
Proof.
  intros Hin. apply accepted_inv in Hin. destruct Hin as (c & _ & Hacc).
  unfold accepts in Hacc. destruct (candidateKey c) as [[d' t']|]; [|discriminate].
  destruct ((t' =? "domain") && negb (isStrictRegisteredDomain d')) eqn:Hg; [discriminate|].
  injection Hacc as -> ->. apply (guard_passed _ _ Hg). reflexivity.
Qed.

Lemma mergeBackendList_strict l es w :
  store_wf w -> domains_strict w -> domains_strict (fst (mergeBackendList l es w)).
Proof.
  intros Hwf Hs r Hin Ht.
  destruct (mergeBackendList_spec l es w Hwf) as (news & ids & Hobs & _ & Hcases).
  assert (Hor : In r (survivors l es w) \/ In r (combine ids news)).
  { destruct Hcases as [(_ & Hr & _)|(_ & Hr & _)]; rewrite Hr in Hin;
      [apply in_app_iff in Hin|]; tauto. }
  destruct Hor as [Hsv|Hnew].
  - apply survivors_In in Hsv. apply Hs; tauto.
  - destruct r as [i e]. apply in_combine_r in Hnew. cbn [snd] in *.
    destruct (news_source l news (accepted es) e Hobs Hnew) as ([d t] & Hk & Hview).
    unfold observable, backendEntryView in Hview. cbn [fst snd] in Hview.
    assert (Hd : domain e = d) by congruence.
    assert (Hp : pattern_type e = t) by congruence.
    rewrite Hd. apply (accepted_strict es). congruence.
Qed.

Lemma parseAndSyncLists_strict cfg : forall w,
  store_wf w -> domains_strict w -> domains_strict (parseAndSyncLists cfg w).
Proof.
  induction cfg as [|[l [es|]] cfg IH]; intros w Hwf Hs; simpl; auto.
  apply IH; [apply mergeBackendList_wf|apply mergeBackendList_strict]; assumption.
Qed.

Lemma run_operation_strict op w :
  validating op = true -> store_wf w -> domains_strict w ->
  domains_strict (run_operation op w).
Proof.
  intros Hv Hwf Hs. destruct op; cbn [run_operation]; try discriminate.
  - apply createListEntry_strict. assumption.
  - apply updateListEntry_strict. assumption.
  - intros r Hin. apply filter_In in Hin. apply Hs. tauto.
  - intros r Hin. apply filter_In in Hin. apply Hs. tauto.
  - exact Hs.
  - apply mergeBackendList_strict; assumption.
  - apply parseAndSyncLists_strict; assumption.
  - unfold syncListsFromConfig.
    destruct (fetch_config configUrl) as [m|[cfg|]]; cbn [fst]; auto.
    apply parseAndSyncLists_strict; assumption.
Qed.

(** X23.  Domain strictness on the validating paths: in every store reached
    from the empty one by operations other than [bulkCreateListEntries] and
    [importList] (single inserts, updates, deletions, exports, merges and
    syncs), each entry of pattern type ['domain'] holds a pattern that passes
    [isStrictRegisteredDomain]. *)
Theorem validating_paths_keep_domains_strict (ops : list Operation) :
  forallb validating ops = true ->
  domains_strict (run_operations ops empty_world).
Proof.
  intros Hall.
  assert (H : forall w, store_wf w -> domains_strict w ->
                        store_wf (run_operations ops w)
                        /\ domains_strict (run_operations ops w)).
  { unfold run_operations. induction ops as [|op ops IH]; intros w Hwf Hs; simpl; [auto|].
    cbn [forallb] in Hall. apply andb_true_iff in Hall. destruct Hall as [Hop Hrest].
    apply (IH Hrest).
    - apply run_operation_wf. assumption.
    - apply run_operation_strict; assumption. }
  apply H; [exact store_wf_empty|]. intros r [].
Qed.

End StrictnessProperties.

Lemma validating_paths_keep_domains_strict_witness :
  @domains_strict Demo.platform
    (@run_operations Demo.platform DemoServices.services
       [OpCreate (mkEntry "blocklist" "google.com" "domain" (Some user) empty_metadata);
        OpCreate sample_subdomain_entry;
        OpSync DemoServices.config_url;
        OpUpdate 1%N (mkUpdates None (Some "mail.google.com") None None None)]
       empty_world).
Proof.
  apply (@validating_paths_keep_domains_strict Demo.platform DemoServices.services).
  reflexivity.
Defined.
